(** * FDPaF / textParser2.py: the Discord text-log parser

    A shallow embedding of [Text Logs/Test Text Parser/textParser2.py]:
    [parse_discord_data], the two functions that write the records,
    [save_for_label_studio] and [save_to_jsonl], and [main]; the properties of
    its specification, and further properties that the code shows.

    Modelling conventions.
    - A Python [str] is a [list ascii]; a character is read as the code point
      0..255.  On that range [\d] is the ten digits and [\s] (as well as the
      set stripped by [str.strip()]) is the set given by [is_space].
    - Python's [re] is a backtracking matcher.  It is embedded once, as an
      interpreter [m] over a regular-expression syntax tree written in
      continuation-passing style, so that alternatives are tried in priority
      order and greedy/lazy repetition behaves as in [sre].  Each pattern of
      the program is a term of that syntax, transcribed token by token.
    - [datetime.strptime] is embedded through the regular expression that
      [_strptime] builds from the format string, followed by the calendar
      checks made by [datetime]'s constructor (C / English locale).
    - The file is read whole, in text mode, before the parser proper runs;
      [parse_discord_data] below takes the text that [file.read()] returned.
    - [json.dumps] and [json.dump] are embedded through the encoder of the
      [json] module with its defaults ([ensure_ascii], the separators that go
      with the indentation), on the values that the program builds.
    - The files and the terminal are a record that [main] and the writing
      functions pass along; a path names a file, two paths may name the
      same one, and an exception of [open] ends the call.

    The definitions come first: strings, the engine, the patterns, the
    parser, the output and main, then the vocabulary of the specification,
    the documents used as examples and the notions of the proofs.  The laws
    of the engine, the direct readings of the patterns and the lemmas on the
    parser and the output follow; the claims of the specification and the
    further properties close the file. *)

From Stdlib Require Import Ascii String.
From Stdlib Require Import List Arith Bool Lia PeanoNat Sorted DecimalString.
Import ListNotations.

Set Implicit Arguments.
Open Scope string_scope.
Open Scope nat_scope.
Open Scope list_scope.

(** ** Strings *)

Definition str := list ascii.

Definition s2l (s : string) : str := list_ascii_of_string s.
Notation "'\' s" := (s2l s%string) (at level 1, s at level 0, format "'\' s").

Definition nl : ascii := ascii_of_nat 10.

Definition code (a : ascii) : nat := nat_of_ascii a.

(** [x in lo..hi] on code points. *)
Definition in_range (lo hi : nat) (a : ascii) : bool :=
  (lo <=? code a) && (code a <=? hi).

(** [\d] on code points below 256. *)
Definition is_digit (a : ascii) : bool := in_range 48 57 a.

(** [Py_UNICODE_ISSPACE] on code points below 256: TAB..CR, FS..US, space,
    NEL and NBSP.  Used by [\s] and by [str.strip()]. *)
Definition is_space (a : ascii) : bool :=
  in_range 9 13 a || in_range 28 32 a || (code a =? 133) || (code a =? 160).

Definition not_nl (a : ascii) : bool := negb (Ascii.eqb a nl).

Definition any_char (_ : ascii) : bool := true.

(** [s.startswith(p)], returning the remainder. *)
Fixpoint strip_prefix (p s : str) : option str :=
  match p with
  | [] => Some s
  | x :: p' =>
      match s with
      | y :: s' => if Ascii.eqb y x then strip_prefix p' s' else None
      | [] => None
      end
  end.

Definition starts_with (p s : str) : bool :=
  match strip_prefix p s with Some _ => true | None => false end.

(** [p in s] *)
Fixpoint contains (p s : str) : bool :=
  starts_with p s ||
  match s with
  | [] => false
  | _ :: s' => contains p s'
  end.

(** [s.split(sep)] for a one-character separator. *)
Fixpoint split_chr (sep : ascii) (s : str) : list str :=
  match s with
  | [] => [[]]
  | x :: s' =>
      if Ascii.eqb x sep then [] :: split_chr sep s'
      else match split_chr sep s' with
           | l :: ls => (x :: l) :: ls
           | [] => [[x]]
           end
  end.

(** [s.split(sep)] for a non-empty separator string, left to right. *)
Fixpoint split_str_aux (fuel : nat) (sep s cur : str) : list str :=
  match fuel with
  | 0 => [rev cur ++ s]
  | S f =>
      match strip_prefix sep s with
      | Some rest => rev cur :: split_str_aux f sep rest []
      | None =>
          match s with
          | [] => [rev cur]
          | x :: s' => split_str_aux f sep s' (x :: cur)
          end
      end
  end.

Definition split_str (sep s : str) : list str :=
  split_str_aux (S (length s)) sep s [].

(** [sep.join(parts)] *)
Fixpoint join (sep : str) (parts : list str) : str :=
  match parts with
  | [] => []
  | [p] => p
  | p :: ps => p ++ sep ++ join sep ps
  end.

Fixpoint lstrip (s : str) : str :=
  match s with
  | x :: s' => if is_space x then lstrip s' else s
  | [] => []
  end.

Definition rstrip (s : str) : str := rev (lstrip (rev s)).

(** [s.strip()] *)
Definition strip (s : str) : str := rstrip (lstrip s).

Definition nonblank (s : str) : bool :=
  match strip s with [] => false | _ => true end.

(** ** The regular-expression engine *)

Inductive regex : Type :=
| Chr (c : ascii)                       (* a literal character *)
| Cls (p : ascii -> bool)               (* a character class, [.] included *)
| Eps
| Cat (r1 r2 : regex)
| Alt (r1 r2 : regex)                   (* r1|r2, r1 tried first *)
| Star (greedy : bool) (r : regex)      (* r* and r*? *)
| Grp (n : nat) (r : regex)             (* the n-th capturing group *)
| Ahead (r : regex)                     (* (?=r) *)
| EndZ.                                 (* \Z *)

Definition Plus (greedy : bool) (r : regex) : regex := Cat r (Star greedy r).

Fixpoint Lit (s : str) : regex :=
  match s with
  | [] => Eps
  | c :: s' => Cat (Chr c) (Lit s')
  end.

Definition caps := list (nat * str).

Fixpoint group (n : nat) (c : caps) : option str :=
  match c with
  | [] => None
  | (k, v) :: c' => if k =? n then Some v else group n c'
  end.

Definition answer := option (str * caps).
Definition cont := str -> caps -> answer.

Definition orelse (a : answer) (b : answer) : answer :=
  match a with Some x => Some x | None => b end.

(** The text consumed between the suffix [s] and its own suffix [s']. *)
Definition consumed (s s' : str) : str := firstn (length s - length s') s.

(** [m r s c k]: match [r] at the head of [s] with captures [c], then
    continue with [k] on what is left; the first success in priority order
    is the answer.  An iteration of a star that consumes nothing is
    abandoned, as [sre] does. *)
Fixpoint m (r : regex) (s : str) (c : caps) (k : cont) {struct r} : answer :=
  match r with
  | Chr a =>
      match s with
      | x :: s' => if Ascii.eqb x a then k s' c else None
      | [] => None
      end
  | Cls p =>
      match s with
      | x :: s' => if p x then k s' c else None
      | [] => None
      end
  | Eps => k s c
  | Cat r1 r2 => m r1 s c (fun s' c' => m r2 s' c' k)
  | Alt r1 r2 => orelse (m r1 s c k) (m r2 s c k)
  | Star greedy r' =>
      (fix loop (n : nat) (s : str) (c : caps) {struct n} : answer :=
         match n with
         | 0 => k s c
         | S n' =>
             let more :=
               m r' s c (fun s' c' =>
                 if length s' <? length s then loop n' s' c' else None) in
             if greedy then orelse more (k s c) else orelse (k s c) more
         end) (length s) s c
  | Grp n r' => m r' s c (fun s' c' => k s' ((n, consumed s s') :: c'))
  | Ahead r' =>
      match m r' s c (fun s' c' => Some (s', c')) with
      | Some (_, c') => k s c'
      | None => None
      end
  | EndZ =>
      match s with
      | [] => k s c
      | _ :: _ => None
      end
  end.

Definition accept : cont := fun s c => Some (s, c).

(** [pattern.match(s)] at the head of [s]: what is left and the groups. *)
Definition match_here (r : regex) (s : str) : answer := m r s [] accept.

(** A match object: where the match starts, [group(0)], the numbered
    groups, and the text after the match. *)
Record re_match : Type := MkMatch {
  m_start : nat;
  m_text : str;
  m_groups : caps;
  m_post : str
}.

(** [re.search]: the leftmost position at which the pattern matches;
    the end of the string is a position too. *)
Fixpoint search_from (r : regex) (s : str) (off : nat) : option re_match :=
  match match_here r s with
  | Some (s', c) => Some (MkMatch off (consumed s s') c s')
  | None =>
      match s with
      | [] => None
      | _ :: s' => search_from r s' (S off)
      end
  end.

Definition re_search (r : regex) (s : str) : option re_match :=
  search_from r s 0.

(** [re.finditer]: successive non-overlapping matches, each search resuming
    where the previous match ended.  After an empty match the scan moves one
    character on; no pattern of this program can match the empty string. *)
Fixpoint finditer_from (fuel : nat) (r : regex) (s : str) (off : nat)
  : list re_match :=
  match fuel with
  | 0 => []
  | S f =>
      match search_from r s off with
      | None => []
      | Some mt =>
          mt ::
          match m_text mt, m_post mt with
          | [], [] => []
          | [], _ :: p => finditer_from f r p (S (m_start mt))
          | _ :: _, p => finditer_from f r p (m_start mt + length (m_text mt))
          end
      end
  end.

Definition re_finditer (r : regex) (s : str) : list re_match :=
  finditer_from (S (length s)) r s 0.

(** [re.sub(r, repl, s)] for a replacement without escapes: the text between
    matches is kept, every match is replaced. *)
Fixpoint sub_from (fuel : nat) (r : regex) (repl s : str) : str :=
  match fuel with
  | 0 => s
  | S f =>
      match re_search r s with
      | None => s
      | Some mt =>
          firstn (m_start mt) s ++ repl ++
          match m_text mt, m_post mt with
          | [], [] => []
          | [], x :: p => x :: sub_from f r repl p
          | _ :: _, p => sub_from f r repl p
          end
      end
  end.

Definition re_sub (r : regex) (repl s : str) : str :=
  sub_from (S (length s)) r repl s.

(** ** Patterns of the program *)

Declare Scope regex_scope.
Delimit Scope regex_scope with re.
Bind Scope regex_scope with regex.
Infix ">>" := Cat (at level 60, right associativity) : regex_scope.
Infix "<|>" := Alt (at level 70, right associativity) : regex_scope.
Local Open Scope regex_scope.

Definition chr (s : string) : ascii :=
  match s with String a _ => a | EmptyString => zero end.

Definition one_of (s : string) (a : ascii) : bool :=
  existsb (Ascii.eqb a) (s2l s).

(** [\d+] *)
Definition digits : regex := Plus true (Cls is_digit).

(** [\d+/\d+/\d+ \d+:\d+ [AP]M] *)
Definition stamp_re : regex :=
  digits >> Chr (chr "/") >> digits >> Chr (chr "/") >> digits >>
  Chr (chr " ") >> digits >> Chr (chr ":") >> digits >> Chr (chr " ") >>
  Cls (one_of "AP") >> Chr (chr "M").

(** [\[\d+/\d+/\d+ \d+:\d+ [AP]M\]] *)
Definition bracket_re : regex := Chr (chr "[") >> stamp_re >> Chr (chr "]").

(** [r'==+\nGuild: (G)\nChannel: (G)\nTopic: (G)\n==+'] where each group
    G is a greedy run of dots; without DOTALL the dot excludes the newline. *)
Definition header_re : regex :=
  Chr (chr "=") >> Plus true (Chr (chr "=")) >> Chr nl >>
  Lit \"Guild: " >> Grp 1 (Star true (Cls not_nl)) >> Chr nl >>
  Lit \"Channel: " >> Grp 2 (Star true (Cls not_nl)) >> Chr nl >>
  Lit \"Topic: " >> Grp 3 (Star true (Cls not_nl)) >> Chr nl >>
  Chr (chr "=") >> Plus true (Chr (chr "=")).

(** [message_pattern], compiled with DOTALL:
    [\[(\d+/\d+/\d+ \d+:\d+ [AP]M)\] ([^\n]+)\n(.*?)(?=\[\d+/\d+/\d+ \d+:\d+ [AP]M\]|\Z)] *)
Definition message_re : regex :=
  Chr (chr "[") >> Grp 1 stamp_re >> Chr (chr "]") >> Chr (chr " ") >>
  Grp 2 (Plus true (Cls not_nl)) >> Chr nl >>
  Grp 3 (Star false (Cls any_char)) >>
  Ahead (bracket_re <|> EndZ).

(** [r'{Attachments}\s+(https://[^\n]+)'] (MULTILINE has no effect: the
    pattern has no anchor). *)
Definition attachment_re : regex :=
  Lit \"{Attachments}" >> Plus true (Cls is_space) >>
  Grp 1 (Lit \"https://" >> Plus true (Cls not_nl)).

(** [marker\s+(.*?)(?=\[|\Z)] with DOTALL, for [{Embed}] and [{Reactions}]. *)
Definition section_re (marker : str) : regex :=
  Lit marker >> Plus true (Cls is_space) >>
  Grp 1 (Star false (Cls any_char)) >>
  Ahead (Chr (chr "[") <|> EndZ).

Definition embed_re : regex := section_re \"{Embed}".
Definition reaction_re : regex := section_re \"{Reactions}".

(** [marker.*?(?=\n\n|\n\[|\Z)] with DOTALL, the cleaning patterns. *)
Definition clean_re (marker : str) : regex :=
  Lit marker >> Star false (Cls any_char) >>
  Ahead ((Chr nl >> Chr nl) <|> (Chr nl >> Chr (chr "[")) <|> EndZ).

(** ** datetime.strptime(_, '%m/%d/%Y %I:%M %p') and isoformat *)

Record datetime : Type := MkDatetime {
  year : nat; month : nat; day : nat; hour : nat; minute : nat; second : nat
}.

Definition rng (lo hi : string) : regex :=
  Cls (in_range (code (chr lo)) (code (chr hi))).

(** [%m] and [%I]: [1[0-2]|0[1-9]|[1-9]] *)
Definition re_1_12 : regex :=
  (Chr (chr "1") >> rng "0" "2") <|> (Chr (chr "0") >> rng "1" "9") <|>
  rng "1" "9".

(** [%d]: [3[0-1]|[1-2]\d|0[1-9]|[1-9]| [1-9]] *)
Definition re_day : regex :=
  (Chr (chr "3") >> rng "0" "1") <|> (rng "1" "2" >> Cls is_digit) <|>
  (Chr (chr "0") >> rng "1" "9") <|> rng "1" "9" <|>
  (Chr (chr " ") >> rng "1" "9").

(** [%Y]: [\d\d\d\d] *)
Definition re_year : regex :=
  Cls is_digit >> Cls is_digit >> Cls is_digit >> Cls is_digit.

(** [%M]: [[0-5]\d|\d] *)
Definition re_minute : regex := (rng "0" "5" >> Cls is_digit) <|> Cls is_digit.

(** [%p]: [am|pm], compiled with IGNORECASE. *)
Definition re_ampm : regex :=
  (Cls (one_of "aA") >> Cls (one_of "mM")) <|>
  (Cls (one_of "pP") >> Cls (one_of "mM")).

(** The regular expression [_strptime] compiles for the format string; a
    blank of the format becomes [\s+]. *)
Definition strptime_re : regex :=
  Grp 1 re_1_12 >> Chr (chr "/") >> Grp 2 re_day >> Chr (chr "/") >>
  Grp 3 re_year >> Plus true (Cls is_space) >>
  Grp 4 re_1_12 >> Chr (chr ":") >> Grp 5 re_minute >>
  Plus true (Cls is_space) >> Grp 6 re_ampm.

(** [int(s)] on a string of decimal digits, blanks around it ignored. *)
Definition int_of (s : str) : nat :=
  fold_left (fun acc a => 10 * acc + (code a - 48)) (strip s) 0.

Definition is_leap (y : nat) : bool :=
  (y mod 4 =? 0) && (negb (y mod 100 =? 0) || (y mod 400 =? 0)).

Definition days_in_month (y mo : nat) : nat :=
  match mo with
  | 2 => if is_leap y then 29 else 28
  | 4 | 6 | 9 | 11 => 30
  | _ => 31
  end.

Definition grp (n : nat) (c : caps) : str :=
  match group n c with Some v => v | None => [] end.

(** [None] stands for the [ValueError] that the caller catches. *)
Definition strptime (data_string : str) : option datetime :=
  match match_here strptime_re data_string with
  | None => None                          (* does not match format *)
  | Some (_ :: _, _) => None              (* unconverted data remains *)
  | Some ([], found) =>
      let y := int_of (grp 3 found) in
      let mo := int_of (grp 1 found) in
      let d := int_of (grp 2 found) in
      let h := int_of (grp 4 found) in
      let mi := int_of (grp 5 found) in
      let pm := one_of "pP" (hd zero (grp 6 found)) in
      let h24 :=
        if pm then (if h =? 12 then 12 else h + 12)
        else (if h =? 12 then 0 else h) in
      if (1 <=? y) && (1 <=? d) && (d <=? days_in_month y mo)
      then Some (MkDatetime y mo d h24 mi 0)
      else None                           (* day is out of range for month *)
  end.

Definition digit_chr (n : nat) : ascii := ascii_of_nat (48 + n mod 10).

Definition pad2 (n : nat) : str := [digit_chr (n / 10); digit_chr n].

Definition pad4 (n : nat) : str :=
  [digit_chr (n / 1000); digit_chr (n / 100); digit_chr (n / 10); digit_chr n].

(** [dt.isoformat()] of a naive datetime without microseconds. *)
Definition isoformat (dt : datetime) : str :=
  pad4 (year dt) ++ \"-" ++ pad2 (month dt) ++ \"-" ++ pad2 (day dt) ++ \"T" ++
  pad2 (hour dt) ++ \":" ++ pad2 (minute dt) ++ \":" ++ pad2 (second dt).

(** ** parse_discord_data *)

Record metadata_t : Type := MkMetadata {
  guild : option str;
  channel : option str;
  topic : option str
}.

Record message : Type := MkMessage {
  timestamp : str;
  author : str;
  text : str;
  attachments : list str;
  embeds : list str;
  reactions : list str;
  msg_channel : option str;
  msg_guild : option str
}.

(** [header_match.group(2).split(' / ')[-1]] *)
Definition channel_name (g2 : str) : str := last (split_str \" / " g2) [].

Definition extract_header (content : str) : metadata_t :=
  let header_match := re_search header_re content in
  MkMetadata
    (match header_match with Some h => Some (grp 1 (m_groups h)) | None => None end)
    (match header_match with
     | Some h => Some (channel_name (grp 2 (m_groups h)))
     | None => None
     end)
    (match header_match with Some h => Some (grp 3 (m_groups h)) | None => None end).

Definition format_timestamp (timestamp_str : str) : str :=
  match strptime timestamp_str with
  | Some ts => isoformat ts
  | None => timestamp_str                 (* except ValueError *)
  end.

Definition extract_attachments (content : str) : list str :=
  map (fun att_match => grp 1 (m_groups att_match))
      (re_finditer attachment_re content).

Definition stripped_lines (s : str) : list str :=
  map strip (filter nonblank (split_chr nl s)).

Definition extract_embeds (content : str) : list str :=
  match re_search embed_re content with
  | Some embed_section => stripped_lines (strip (grp 1 (m_groups embed_section)))
  | None => []
  end.

Definition extract_reactions (content : str) : list str :=
  match re_search reaction_re content with
  | Some reaction_section => stripped_lines (grp 1 (m_groups reaction_section))
  | None => []
  end.

Definition clean (content : str) : str :=
  let clean_content := re_sub (clean_re \"{Attachments}") [] content in
  let clean_content := re_sub (clean_re \"{Embed}") [] clean_content in
  let clean_content := re_sub (clean_re \"{Reactions}") [] clean_content in
  let clean_content := join [nl] (filter nonblank (split_chr nl clean_content)) in
  strip clean_content.

(** The local variables that the loop reads and writes.  [content] is the
    name that holds the text of the file before the loop and is assigned again
    by the tuple assignment at the top of each iteration. *)
Record locals : Type := MkLocals {
  content : str;
  messages : list message
}.

(** One iteration of [for match in re.finditer(...)]. *)
Definition loop_body (metadata : metadata_t) (st : locals) (match_ : re_match)
  : locals :=
  (* timestamp_str, author, content = match.groups() *)
  let timestamp_str := grp 1 (m_groups match_) in
  let author := grp 2 (m_groups match_) in
  let st := MkLocals (grp 3 (m_groups match_)) (messages st) in
  let formatted_timestamp := format_timestamp timestamp_str in
  let attachments := extract_attachments (content st) in
  let embeds := extract_embeds (content st) in
  let reactions := extract_reactions (content st) in
  let clean_content := clean (content st) in
  let message :=
    MkMessage formatted_timestamp author clean_content
              attachments embeds reactions
              (channel metadata) (guild metadata) in
  MkLocals (content st) (messages st ++ [message]).

(** The iterator is created once, over the text of the file, before the
    first assignment to [content] inside the loop. *)
Definition parse_discord_data (file_text : str) : list message * metadata_t :=
  let st := MkLocals file_text [] in
  let metadata := extract_header (content st) in
  let matches := re_finditer message_re (content st) in
  let st := fold_left (loop_body metadata) matches st in
  (messages st, metadata).

Definition records (file_text : str) : list message :=
  fst (parse_discord_data file_text).

(** The record that one iteration appends. *)
Definition record_of (metadata : metadata_t) (match_ : re_match) : message :=
  let body := grp 3 (m_groups match_) in
  MkMessage (format_timestamp (grp 1 (m_groups match_)))
            (grp 2 (m_groups match_))
            (clean body)
            (extract_attachments body) (extract_embeds body)
            (extract_reactions body)
            (channel metadata) (guild metadata).

(** ** json.dumps and json.dump

    The values that the program serialises are strings, [None], lists and
    dictionaries with string keys; a dictionary is kept as the list of its
    items in insertion order, the order in which [json] writes them. *)

#[warnings="-register-all"] Inductive json : Type :=
| JNull
| JStr (s : str)
| JArr (items : list json)
| JObj (members : list (str * json)).

Definition dquote : ascii := ascii_of_nat 34.
Definition backslash : ascii := ascii_of_nat 92.

Definition hex_chr (n : nat) : ascii := nth n \"0123456789abcdef" zero.

(** The replacement that [encode_basestring_ascii] makes for one character:
    the entries of [ESCAPE_DCT], the character itself from the blank to the
    tilde, and the four-digit escape for every other code point. *)
Definition escape_chr (a : ascii) : str :=
  if Ascii.eqb a backslash then [backslash; backslash]
  else if Ascii.eqb a dquote then [backslash; dquote]
  else if code a =? 8 then [backslash; chr "b"]
  else if code a =? 12 then [backslash; chr "f"]
  else if code a =? 10 then [backslash; chr "n"]
  else if code a =? 13 then [backslash; chr "r"]
  else if code a =? 9 then [backslash; chr "t"]
  else if in_range 32 126 a then [a]
  else backslash :: \"u00" ++ [hex_chr (code a / 16); hex_chr (code a mod 16)].

Definition encode_basestring_ascii (s : str) : str :=
  dquote :: flat_map escape_chr s ++ [dquote].

Section Encoder.
(** [indent]: [None], or the number of blanks per level. *)
Variable indent : option nat.

Definition item_separator : str :=
  match indent with None => \", " | Some _ => \"," end.

Definition key_separator : str := \": ".

Definition newline_indent (level : nat) : str :=
  match indent with
  | None => []
  | Some n => nl :: repeat (chr " ") (n * level)
  end.

(** [_iterencode], the chunks concatenated. *)
Fixpoint iterencode (level : nat) (o : json) {struct o} : str :=
  match o with
  | JNull => \"null"
  | JStr s => encode_basestring_ascii s
  | JArr items =>
      match items with
      | [] => \"[]"
      | _ :: _ =>
          \"[" ++ newline_indent (S level) ++
          join (item_separator ++ newline_indent (S level))
               (map (iterencode (S level)) items) ++
          newline_indent level ++ \"]"
      end
  | JObj members =>
      match members with
      | [] => \"{}"
      | _ :: _ =>
          \"{" ++ newline_indent (S level) ++
          join (item_separator ++ newline_indent (S level))
               (map (fun kv =>
                       let '(key, value) := kv in
                       encode_basestring_ascii key ++ key_separator ++
                       iterencode (S level) value)
                    members) ++
          newline_indent level ++ \"}"
      end
  end.
End Encoder.

(** [json.dumps(obj)] *)
Definition dumps (obj : json) : str := iterencode None 0 obj.

(** What [json.dump(obj, f, indent=2)] writes to [f]. *)
Definition dump_indent_2 (obj : json) : str := iterencode (Some 2) 0 obj.

(** The dictionary that the loop of [parse_discord_data] builds. *)
Definition json_of_option (o : option str) : json :=
  match o with Some s => JStr s | None => JNull end.

Definition message_dict (msg : message) : json :=
  JObj [(\"timestamp", JStr (timestamp msg));
        (\"author", JStr (author msg));
        (\"text", JStr (text msg));
        (\"metadata",
         JObj [(\"attachments", JArr (map JStr (attachments msg)));
               (\"embeds", JArr (map JStr (embeds msg)));
               (\"reactions", JArr (map JStr (reactions msg)));
               (\"channel", json_of_option (msg_channel msg));
               (\"guild", json_of_option (msg_guild msg))])].

(** ** save_for_label_studio, save_to_jsonl

    The text that each function writes to the output file. *)

Definition save_for_label_studio_text (messages : list message) : str :=
  dump_indent_2 (JArr (map message_dict messages)).

Definition save_to_jsonl_text (messages : list message) : str :=
  flat_map (fun message => dumps (message_dict message) ++ [nl]) messages.

(** ** The files and the terminal

    A path names a file, and two paths may name the same one (a relative
    and an absolute spelling, a link): [file_of] gives the file that a path
    leads to, the one that is there or the one that opening the path for
    writing creates.  [file_text] is the text that a file holds, the one that
    reading it in text mode returns and that writing in text mode stores,
    [None] when [open(path, 'r')] or the reading raises (no such file, no
    permission, bytes that are no UTF-8).  [writable] tells whether
    [open(path, 'w')] succeeds; [stdout] holds the lines printed so far.
    A write changes the text of one file, which holds what was written and
    gives it back when it is read; the file that a path names and the paths
    that can be opened for writing stay as they are. *)

Record world : Type := MkWorld {
  file_of : str -> nat;
  file_text : nat -> option str;
  writable : str -> bool;
  stdout : list str
}.

(** [open(path, 'r', encoding='utf-8').read()], [None] when it raises. *)
Definition files (w : world) (path : str) : option str :=
  file_text w (file_of w path).

(** [p == q] on strings. *)
Fixpoint same_path (p q : str) : bool :=
  match p, q with
  | [], [] => true
  | a :: p', b :: q' => Ascii.eqb a b && same_path p' q'
  | _, _ => false
  end.

(** [print(line)] *)
Definition print (line : str) (w : world) : world :=
  MkWorld (file_of w) (file_text w) (writable w) (stdout w ++ [line]).

(** [with open(output_file, 'w', encoding='utf-8') as f:] and the writes to
    [f], which replace what the file held, under whatever path it is read
    afterwards; [None] when [open] raises. *)
Definition write_text (output_file text : str) (w : world) : option world :=
  if writable w output_file
  then Some (MkWorld
               (file_of w)
               (fun f => if f =? file_of w output_file then Some text
                         else file_text w f)
               (writable w) (stdout w))
  else None.

Definition save_for_label_studio (messages : list message) (output_file : str)
                                 (w : world) : option world :=
  write_text output_file (save_for_label_studio_text messages) w.

Definition save_to_jsonl (messages : list message) (output_file : str)
                         (w : world) : option world :=
  write_text output_file (save_to_jsonl_text messages) w.

(** Lines 17 and 18 of [parse_discord_data], then the parser on the text. *)
Definition parse_discord_file (file_path : str) (w : world)
  : option (list message * metadata_t) :=
  match files w file_path with
  | Some file_text => Some (parse_discord_data file_text)
  | None => None
  end.

(** ** main *)

(** The values that [choices=['json', 'jsonl']] admits for [--format]. *)
Inductive format_t : Type :=
| format_json
| format_jsonl.

(** The string that [args.format] holds. *)
Definition format_name (f : format_t) : str :=
  match f with
  | format_json => \"json"
  | format_jsonl => \"jsonl"
  end.

(** What [parser.parse_args()] returns when it returns.  The format is one
    of the two choices: for any other value, as for a missing input file or
    an unknown option, [parse_args] leaves the program with exit status 2
    at line 120, before a file is read or written, and there are no
    arguments for the lines that follow. *)
Record args_t : Type := MkArgs {
  input_file : str;
  output : str;
  format : format_t
}.

(** [str(n)] for a length. *)
Definition str_of_nat (n : nat) : str := s2l (NilZero.string_of_uint (Nat.to_uint n)).

(** How a call ends: it returns, or an exception of [open] leaves it; either
    way the world is what the call made of it. *)
Inductive outcome : Type :=
| Returned (w : world)
| Raised (w : world).

(** Lines 122 to 130, on the arguments that line 120 returned. *)
Definition main (args : args_t) (w : world) : outcome :=
  match parse_discord_file (input_file args) w with
  | None => Raised w
  | Some (messages, metadata) =>
      let w :=
        print (\"Extracted " ++ str_of_nat (length messages) ++
               \" messages from Discord data") w in
      let saved :=
        if same_path (format_name (format args)) \"jsonl"
        then save_to_jsonl messages (output args) w
        else save_for_label_studio messages (output args) w in
      match saved with
      | None => Raised w
      | Some w =>
          Returned (print (\"Saved processed data to " ++ output args) w)
      end
  end.

(** The world in which a call ends. *)
Definition world_of (o : outcome) : world :=
  match o with Returned w => w | Raised w => w end.

(** ** The star loop, named

    [star_loop] is the local loop of [m] at a star, as a function of its own;
    [greedy_cls] and [lazy_cls] are what it computes when the body is a
    character class. *)

Section StarLoop.
Variables (greedy : bool) (r : regex) (k : cont).

Fixpoint star_loop (n : nat) (s : str) (c : caps) {struct n} : answer :=
  match n with
  | 0 => k s c
  | S n' =>
      let more :=
        m r s c (fun s' c' =>
          if length s' <? length s then star_loop n' s' c' else None) in
      if greedy then orelse more (k s c) else orelse (k s c) more
  end.
End StarLoop.

Fixpoint greedy_cls (p : ascii -> bool) (k : cont) (s : str) (c : caps)
  : answer :=
  match s with
  | a :: t => if p a then orelse (greedy_cls p k t c) (k s c) else k s c
  | [] => k s c
  end.

Fixpoint lazy_cls (p : ascii -> bool) (k : cont) (s : str) (c : caps)
  : answer :=
  orelse (k s c)
         match s with
         | a :: t => if p a then lazy_cls p k t c else None
         | [] => None
         end.

Fixpoint take_while (p : ascii -> bool) (s : str) : str :=
  match s with
  | a :: t => if p a then a :: take_while p t else []
  | [] => []
  end.

Fixpoint drop_while (p : ascii -> bool) (s : str) : str :=
  match s with
  | a :: t => if p a then drop_while p t else s
  | [] => []
  end.

(** A continuation that fails on every text starting with a [p]-character. *)
Definition rejects (p : ascii -> bool) (k : cont) : Prop :=
  forall a t c, p a = true -> k (a :: t) c = None.

Definition is_suffix (s' s : str) : Prop := exists p, s = p ++ s'.

(** No match of [r] starts inside [pre] when [pre] is followed by [rest]. *)
Definition no_match_in (r : regex) (pre rest : str) : Prop :=
  forall p1 p2, pre = p1 ++ p2 -> p2 <> [] -> match_here r (p2 ++ rest) = None.

(** A match object with its offset moved by [off]. *)
Definition shift (off : nat) (mt : re_match) : re_match :=
  MkMatch (off + m_start mt) (m_text mt) (m_groups mt) (m_post mt).

(** ** Direct readings of the patterns

    What each pattern of the program computes, written as plain recursive
    functions on the text.  The laws of the engine show that the interpreter
    [m] computes exactly these on the patterns of the program. *)

Definition bind {A B : Type} (o : option A) (f : A -> option B) : option B :=
  match o with Some x => f x | None => None end.
Notation "o >>= f" := (bind o f) (at level 50, left associativity).

(** One given character. *)
Definition eat (a : ascii) (s : str) : option str :=
  match s with
  | x :: t => if Ascii.eqb x a then Some t else None
  | [] => None
  end.

(** One character of a class. *)
Definition eat_cls (p : ascii -> bool) (s : str) : option str :=
  match s with
  | x :: t => if p x then Some t else None
  | [] => None
  end.

(** A maximal non-empty run of a class. *)
Definition eat_run (p : ascii -> bool) (s : str) : option str :=
  match s with
  | x :: t => if p x then Some (drop_while p t) else None
  | [] => None
  end.

(** [M/D/Y H:Min AM|PM] at the head of the text. *)
Definition eat_stamp (s : str) : option str :=
  eat_run is_digit s >>= eat (chr "/") >>= eat_run is_digit >>=
  eat (chr "/") >>= eat_run is_digit >>= eat (chr " ") >>=
  eat_run is_digit >>= eat (chr ":") >>= eat_run is_digit >>=
  eat (chr " ") >>= eat_cls (one_of "AP") >>= eat (chr "M").

(** A bracketed timestamp at the head of the text. *)
Definition eat_bracket (s : str) : option str :=
  eat (chr "[") s >>= eat_stamp >>= eat (chr "]").

(** Where a message body stops: at a bracketed timestamp or at the end. *)
Definition at_boundary (s : str) : bool :=
  match eat_bracket s with
  | Some _ => true
  | None => match s with [] => true | _ :: _ => false end
  end.

(** Where a section removed by the cleaning patterns stops: before a blank
    line, before a line that begins with a bracket, or at the end. *)
Definition stop_clean (s : str) : bool :=
  starts_with [nl; nl] s || starts_with [nl; chr "["] s ||
  match s with [] => true | _ :: _ => false end.

(** Where an embed or reaction section stops: at a bracket or at the end. *)
Definition stop_section (s : str) : bool :=
  match s with
  | [] => true
  | x :: _ => Ascii.eqb x (chr "[")
  end.

(** The first suffix satisfying [stop]; the empty suffix when there is none. *)
Fixpoint scan_to (stop : str -> bool) (s : str) : str :=
  if stop s then s
  else match s with
       | _ :: t => scan_to stop t
       | [] => []
       end.

(** A delimiter at the head of the text, up to and including its newline:
    timestamp literal, author, and the text after the newline. *)
Definition delim_at (s : str) : option (str * str * str) :=
  match eat (chr "[") s with
  | None => None
  | Some s1 =>
  match eat_stamp s1 with
  | None => None
  | Some s2 =>
  match eat (chr "]") s2 >>= eat (chr " ") with
  | None => None
  | Some s3 =>
  match eat_run not_nl s3 with
  | None => None
  | Some s4 =>
  match eat nl s4 with
  | None => None
  | Some s5 => Some (consumed s1 s2, consumed s3 s4, s5)
  end end end end end.

(** A message at the head of the text: timestamp literal, author, body and
    the text after the body. *)
Definition message_at (s : str) : option (str * str * str * str) :=
  match delim_at s with
  | None => None
  | Some (ts, au, s5) =>
      let s6 := scan_to at_boundary s5 in
      Some (ts, au, consumed s5 s6, s6)
  end.

(** ** Vocabulary of the specification *)

(** [p] occurs in [s]. *)
Definition substring (p s : str) : Prop := exists a b, s = a ++ p ++ b.

Definition nl_free (l : str) : Prop := ~ In nl l.

(** The text is empty or begins with a newline. *)
Definition nl_led (s : str) : Prop :=
  match s with [] => True | x :: _ => x = nl end.

Definition marker_attachments : str := \"{Attachments}".
Definition marker_embed : str := \"{Embed}".
Definition marker_reactions : str := \"{Reactions}".

(** *** Delimiters and lines *)

(** A non-empty run of decimal digits. *)
Definition digit_run (d : str) : Prop :=
  d <> [] /\ Forall (fun a => is_digit a = true) d.

(** [<M>/<D>/<Y> <H>:<Min> <AM|PM>] *)
Definition stamp_shaped (ts : str) : Prop :=
  exists mo d y h mi ap,
    digit_run mo /\ digit_run d /\ digit_run y /\ digit_run h /\ digit_run mi /\
    one_of "AP" ap = true /\
    ts = mo ++ chr "/" :: d ++ chr "/" :: y ++ chr " " :: h ++ chr ":" :: mi ++
         chr " " :: ap :: [chr "M"].

(** The text starts with a bracketed timestamp. *)
Definition starts_with_bracket (s : str) : Prop :=
  exists ts rest, stamp_shaped ts /\ s = chr "[" :: ts ++ chr "]" :: rest.

(** A line of the form [[<M>/<D>/<Y> <H>:<Min> <AM|PM>] <author text>]. *)
Definition delimiter_line_re : regex :=
  bracket_re >> Chr (chr " ") >> Plus true (Cls not_nl) >> EndZ.

Definition is_delimiter_line (l : str) : bool :=
  match match_here delimiter_line_re l with Some _ => true | None => false end.

(** A bracketed timestamp occurs somewhere in the line. *)
Definition has_bracket (l : str) : bool :=
  match re_search bracket_re l with Some _ => true | None => false end.

(** The lines of a document; the last one is what follows the final newline
    (empty when the document ends with a newline). *)
Definition doc_lines (doc : str) : list str := split_chr nl doc.

Definition count_delimiter_lines (doc : str) : nat :=
  length (filter is_delimiter_line (doc_lines doc)).

(** A well-formed export: a bracketed timestamp occurs only in delimiter
    lines, and every delimiter line is terminated by a newline. *)
Definition line_ok (l : str) : bool := is_delimiter_line l || negb (has_bracket l).

Definition well_formed (doc : str) : bool :=
  forallb line_ok (doc_lines doc) &&
  negb (is_delimiter_line (last (doc_lines doc) [])).

(** A bracketed timestamp occurs only in delimiter lines. *)
Definition stamps_in_delimiter_lines (doc : str) : bool :=
  forallb line_ok (doc_lines doc).

(** The number of delimiter lines that a newline ends: a delimiter line
    that is the last line of the document has none after it. *)
Definition count_terminated_delimiter_lines (doc : str) : nat :=
  length (filter is_delimiter_line (removelast (doc_lines doc))).

(** The offset [i] is the start of a line of [doc]. *)
Definition at_line_start (doc : str) (i : nat) : bool :=
  match i with
  | 0 => true
  | S j => match nth_error doc j with
           | Some c => Ascii.eqb c nl
           | None => false
           end
  end.

(** *** The sections as the specification words them *)

(** The text after the first occurrence of the marker. *)
Fixpoint after_marker (mk s : str) : option str :=
  match strip_prefix mk s with
  | Some r => Some r
  | None =>
      match s with
      | [] => None
      | _ :: t => after_marker mk t
      end
  end.

(** The section of a marker by the words of the specification: from the
    marker to the next bracketed timestamp or to the end of the chunk; every
    non-blank line of it is an entry. *)
Definition spec_section_lines (mk body : str) : list str :=
  match after_marker mk body with
  | Some r => stripped_lines (consumed r (scan_to at_boundary r))
  | None => []
  end.

(** The attachments by the words of the specification: every line that
    starts with https:// and follows an {Attachments} line, directly or after
    other such lines. *)
Fixpoint spec_attachment_lines (in_section : bool) (ls : list str) : list str :=
  match ls with
  | [] => []
  | l :: ls' =>
      if starts_with marker_attachments l then spec_attachment_lines true ls'
      else if in_section && starts_with \"https://" l
           then l :: spec_attachment_lines true ls'
           else spec_attachment_lines false ls'
  end.

Definition spec_attachments (body : str) : list str :=
  spec_attachment_lines false (split_chr nl body).

(** *** The channel as the specification words it *)

(** The text after the last place where the separator occurs. *)
Fixpoint after_last (sep s : str) : option str :=
  match s with
  | [] => None
  | _ :: s' =>
      match after_last sep s' with
      | Some r => Some r
      | None => strip_prefix sep s
      end
  end.

(** The channel by the words of the specification: when the value holds
    the separator, only the text after the last such separator is kept. *)
Definition spec_channel (value : str) : str :=
  match after_last \" / " value with
  | Some r => r
  | None => value
  end.

(** In the piece followed by the separator, the separator occurs at the
    end only: a reading from left to right finds it nowhere earlier. *)
Definition first_at_end (sep p : str) : Prop :=
  forall a b, p ++ sep = a ++ sep ++ b -> b = [].

(** *** Timestamps as the specification words them *)

Definition digit (n : nat) : ascii := ascii_of_nat (48 + n).

(** A number below 100 written in decimal, with or without a leading zero. *)
Inductive written (n : nat) : str -> Prop :=
| written_plain : n < 10 -> written n [digit n]
| written_padded : n < 100 -> written n [digit (n / 10); digit (n mod 10)].

(** The hour of the day of a twelve-hour clock reading. *)
Definition hour24 (h : nat) (ap : ascii) : nat :=
  if Ascii.eqb ap (chr "P")
  then (if h =? 12 then 12 else h + 12)
  else (if h =? 12 then 0 else h).

(** A timestamp literal month/day/year hour:minute AM|PM. *)
Definition stamp_literal (smo sd sy sh smi : str) (ap : ascii) : str :=
  smo ++ chr "/" :: sd ++ chr "/" :: sy ++ chr " " :: sh ++ chr ":" :: smi ++
  chr " " :: ap :: [chr "M"].

(** The same moment in ISO-8601. *)
Definition iso_8601 (y mo d h mi : nat) : str :=
  pad4 y ++ \"-" ++ pad2 mo ++ \"-" ++ pad2 d ++ \"T" ++
  pad2 h ++ \":" ++ pad2 mi ++ \":00".

(** ** Documents used as examples *)

Definition lines (l : list string) : str := join [nl] (map s2l l).

(** Scenario A of the specification. *)
Definition scenario_A : str :=
  lines ["==========";
         "Guild: TestGuild";
         "Channel: General / chat";
         "Topic: none";
         "==========";
         "[1/2/2023 3:04 PM] Alice";
         "hello world"].

(** Scenario B of the specification. *)
Definition scenario_B : str :=
  lines ["[1/2/2023 3:04 PM] Alice";
         "see attached";
         "{Attachments}";
         "https://example.com/a.png"].

(** Scenario C of the specification: a timestamp that is not a date. *)
Definition scenario_C : str :=
  lines ["[99/99/9999 1:00 PM] Carol"; "late"].

(** A banner whose channel value holds two separators that share a
    blank. *)
Definition shared_blank : str :=
  lines ["=========="; "Guild: TestGuild"; "Channel: a / / b"; "Topic: none";
         "=========="; ""].

(** A document without any message. *)
Definition banner_only : str :=
  lines ["=========="; "Guild: TestGuild"; "Channel: chat"; "Topic: none";
         "=========="; ""].

(** Two messages; only the first carries an embed and a reaction. *)
Definition two_messages : str :=
  lines ["[1/2/2023 3:04 PM] Alice";
         "look at this";
         "{Embed}";
         "https://e.example/card";
         "{Reactions}";
         "thumbsup 2";
         "[1/2/2023 3:05 PM] Bob";
         "nice"].

(** An attachment section with two files. *)
Definition two_attachments : str :=
  lines ["[1/2/2023 3:04 PM] Alice";
         "two files";
         "{Attachments}";
         "https://example.com/a.png";
         "https://example.com/b.png"].

(** An embed with a bracket in one of its lines. *)
Definition embed_with_bracket : str :=
  lines ["[1/2/2023 3:04 PM] Alice";
         "new release";
         "{Embed}";
         "Release notes";
         "see [docs] for details"].

(** A reaction with a bracket in its first line. *)
Definition reaction_with_bracket : str :=
  lines ["[1/2/2023 3:04 PM] Alice";
         "hi";
         "{Reactions}";
         "thumbsup [2]";
         "heart 1"].

(** A delimiter that is not at the start of a line. *)
Definition quoted_stamp : str :=
  lines ["so I said [1/2/2023 3:04 PM] Alice"; "hello"].

(** The last line is a delimiter line and no newline follows it. *)
Definition unterminated : str :=
  lines ["[1/2/2023 3:04 PM] Alice"; "hi"; "[1/2/2023 3:05 PM] Bob"].

(** ** Notions of the proofs about lines and markers *)

(** An eater whose result does not depend on what follows the first newline. *)
Definition nl_local (e : str -> option str) : Prop :=
  forall a b, e (a ++ nl :: b) = option_map (fun r => r ++ nl :: b) (e a).

(** No bracketed timestamp begins anywhere in the line. *)
Definition bracket_free (l : str) : Prop :=
  forall p1 p2, l = p1 ++ p2 -> eat_bracket p2 = None.

(** The lines left after a message body has been skipped: those from the
    next delimiter line on. *)
Fixpoint drop_body (ls : list str) : list str :=
  match ls with
  | [] => []
  | l :: ls' => if is_delimiter_line l then ls else drop_body ls'
  end.

(** Well-formedness, on the list of lines. *)
Definition lines_wf (ls : list str) : Prop :=
  Forall nl_free ls /\
  Forall (fun l => line_ok l = true) ls /\
  is_delimiter_line (last ls []) = false.

(** Bracketed timestamps occur only in delimiter lines, on the list of
    lines. *)
Definition lines_stamped (ls : list str) : Prop :=
  Forall nl_free ls /\ Forall (fun l => line_ok l = true) ls.

(** The first character of the string does not occur again in it. *)
Definition unbordered (p : str) : Prop :=
  exists c p', p = c :: p' /\ ~ In c p'.

(** ** The banner, read directly *)

Definition is_eq (a : ascii) : bool := Ascii.eqb a (chr "=").

(** [==+] *)
Definition eat_rule (s : str) : option str := eat (chr "=") s >>= eat_run is_eq.

(** A label, then a greedy run of dots and a newline: the rest of the line
    after the label, and the text from the next line on. *)
Definition eat_field (label s : str) : option (str * str) :=
  match strip_prefix label s with
  | None => None
  | Some r =>
      match eat nl (drop_while not_nl r) with
      | Some r' => Some (take_while not_nl r, r')
      | None => None
      end
  end.

(** A banner at the head of the text: the guild, channel and topic values
    and the text after the closing rule. *)
Definition header_at (s : str) : option (str * str * str * str) :=
  match eat_rule s >>= eat nl with
  | None => None
  | Some s1 =>
  match eat_field \"Guild: " s1 with
  | None => None
  | Some (g, s2) =>
  match eat_field \"Channel: " s2 with
  | None => None
  | Some (c, s3) =>
  match eat_field \"Topic: " s3 with
  | None => None
  | Some (t, s4) =>
  match eat_rule s4 with
  | None => None
  | Some post => Some (g, c, t, post)
  end end end end end.

(** ** Notions of the proofs about the cleaned text *)

(** Some character of the line is not white space. *)
Definition has_nonspace (l : str) : bool :=
  existsb (fun a => negb (is_space a)) l.

(** Every line of the text, the one being read included, has a character
    that is not white space; [seen] tells whether the line being read has
    shown one already. *)
Fixpoint lines_ok (seen : bool) (s : str) : bool :=
  match s with
  | [] => seen
  | x :: s' =>
      if Ascii.eqb x nl then seen && lines_ok false s'
      else lines_ok (seen || negb (is_space x)) s'
  end.

(** ** Notions of the proofs about the serialised text *)

(** A character that the encoder may write: the newline of the indented
    form, or a printable ASCII character. *)
Definition json_char (a : ascii) : bool := Ascii.eqb a nl || in_range 32 126 a.

Definition hex_val (a : ascii) : nat :=
  if in_range 48 57 a then code a - 48 else code a - 87.

(** The character that an encoded string body begins with, and what follows
    its encoding; [None] at the closing quote. *)
Definition read_escape (s : str) : option (ascii * str) :=
  match s with
  | [] => None
  | x :: t =>
      if Ascii.eqb x dquote then None
      else if Ascii.eqb x backslash then
        match t with
        | [] => None
        | y :: t' =>
            if Ascii.eqb y (chr "u") then
              match t' with
              | _ :: _ :: h :: l :: t'' =>
                  Some (ascii_of_nat (16 * hex_val h + hex_val l), t'')
              | _ => None
              end
            else if Ascii.eqb y (chr "b") then Some (ascii_of_nat 8, t')
            else if Ascii.eqb y (chr "f") then Some (ascii_of_nat 12, t')
            else if Ascii.eqb y (chr "n") then Some (nl, t')
            else if Ascii.eqb y (chr "r") then Some (ascii_of_nat 13, t')
            else if Ascii.eqb y (chr "t") then Some (ascii_of_nat 9, t')
            else Some (y, t')
        end
      else Some (x, t)
  end.

(** An encoder whose output tells where it ends and what was encoded. *)
Definition self_delimiting {A : Type} (f : A -> str) (x : A) : Prop :=
  forall y t1 t2, f x ++ t1 = f y ++ t2 -> x = y /\ t1 = t2.

(** The first character of an encoded value. *)
Definition opens_value (a : ascii) : bool :=
  Ascii.eqb a (chr "n") || Ascii.eqb a dquote || Ascii.eqb a (chr "[") ||
  Ascii.eqb a (chr "{").

(** The delimiter that a chunk begins with, put together from its groups. *)
Definition delimiter_of (mt : re_match) : str :=
  chr "[" :: grp 1 (m_groups mt) ++ chr "]" :: chr " " :: grp 2 (m_groups mt).

(** No section ends inside the text: it holds no empty line and no line
    that begins with an opening bracket, but for its first line. *)
Definition unbroken (s : str) : Prop :=
  ~ substring [nl; nl] s /\ ~ substring [nl; chr "["] s.

(** The text that main writes for a format. *)
Definition output_text (f : format_t) (messages : list message) : str :=
  match f with
  | format_jsonl => save_to_jsonl_text messages
  | format_json => save_for_label_studio_text messages
  end.

(** ** A world used as an example *)

(** One file with Scenario A, under the names log.txt and ./log.txt; every
    other path names a file that is not there yet, out.jsonl one of its
    own. *)
Definition example_world : world :=
  MkWorld (fun p => if same_path p \"log.txt" then 1
                    else if same_path p \"./log.txt" then 1
                    else if same_path p \"out.jsonl" then 2
                    else 0)
          (fun f => if f =? 1 then Some scenario_A else None)
          (fun _ => true) [].

Definition example_args : args_t := MkArgs \"log.txt" \"out.jsonl" format_jsonl.

(** The output path is another name of the input file. *)
Definition alias_args : args_t := MkArgs \"log.txt" \"./log.txt" format_jsonl.

(** * Laws of the engine *)

(** Bring nested concatenations to the right-nested form. *)
Ltac list_flat := repeat progress (cbn [app]; rewrite <- ?app_assoc).

Section EngineLaws.

Lemma orelse_none_r (a : answer) : orelse a None = a.
Proof. destruct a; reflexivity. Qed.

Lemma m_star_unfold (g : bool) (r : regex) (s : str) (c : caps) (k : cont) :
  m (Star g r) s c k = star_loop g r k (length s) s c.
Proof. reflexivity. Qed.

Lemma take_drop_while (p : ascii -> bool) (s : str) :
  take_while p s ++ drop_while p s = s.
Proof.
  induction s as [|a t IH]; simpl; [reflexivity|].
  destruct (p a); simpl; [now rewrite IH | reflexivity].
Qed.

Lemma star_greedy_cls (p : ascii -> bool) (k : cont) :
  forall n s c, length s <= n ->
    star_loop true (Cls p) k n s c = greedy_cls p k s c.
Proof.
  induction n as [|n IH]; intros s c Hn.
  - destruct s; [reflexivity | simpl in Hn; lia].
  - destruct s as [|a t]; [reflexivity|].
    simpl. destruct (p a); [|reflexivity].
    rewrite IH by (simpl in Hn; lia).
    now rewrite (proj2 (Nat.ltb_lt _ _) (Nat.lt_succ_diag_r (length t))).
Qed.

Lemma star_lazy_cls (p : ascii -> bool) (k : cont) :
  forall n s c, length s <= n ->
    star_loop false (Cls p) k n s c = lazy_cls p k s c.
Proof.
  induction n as [|n IH]; intros s c Hn.
  - destruct s; [simpl; now rewrite orelse_none_r | simpl in Hn; lia].
  - destruct s as [|a t]; [reflexivity|].
    simpl. destruct (p a); [|reflexivity].
    rewrite IH by (simpl in Hn; lia).
    now rewrite (proj2 (Nat.ltb_lt _ _) (Nat.lt_succ_diag_r (length t))).
Qed.

Lemma m_star_greedy (p : ascii -> bool) (s : str) (c : caps) (k : cont) :
  m (Star true (Cls p)) s c k = greedy_cls p k s c.
Proof. rewrite m_star_unfold. now apply star_greedy_cls. Qed.

Lemma m_star_lazy (p : ascii -> bool) (s : str) (c : caps) (k : cont) :
  m (Star false (Cls p)) s c k = lazy_cls p k s c.
Proof. rewrite m_star_unfold. now apply star_lazy_cls. Qed.

(** A literal is a prefix test. *)
Lemma m_Lit (p : str) : forall s c k,
  m (Lit p) s c k =
  match strip_prefix p s with Some r => k r c | None => None end.
Proof.
  induction p as [|x p IH]; intros s c k; [reflexivity|].
  simpl. destruct s as [|y s]; [reflexivity|].
  destruct (Ascii.eqb y x); [apply IH | reflexivity].
Qed.

Lemma m_Cat (r1 r2 : regex) (s : str) (c : caps) (k : cont) :
  m (r1 >> r2) s c k = m r1 s c (fun s' c' => m r2 s' c' k).
Proof. reflexivity. Qed.

Lemma m_Grp (n : nat) (r : regex) (s : str) (c : caps) (k : cont) :
  m (Grp n r) s c k = m r s c (fun s' c' => k s' ((n, consumed s s') :: c')).
Proof. reflexivity. Qed.

Lemma m_Alt (r1 r2 : regex) (s : str) (c : caps) (k : cont) :
  m (r1 <|> r2) s c k = orelse (m r1 s c k) (m r2 s c k).
Proof. reflexivity. Qed.

Lemma m_Ahead (r : regex) (s : str) (c : caps) (k : cont) :
  m (Ahead r) s c k =
  match m r s c accept with Some (_, c') => k s c' | None => None end.
Proof. reflexivity. Qed.

Lemma m_EndZ (s : str) (c : caps) (k : cont) :
  m EndZ s c k = match s with [] => k [] c | _ :: _ => None end.
Proof. now destruct s. Qed.

Lemma m_Chr (a : ascii) (s : str) (c : caps) (k : cont) :
  m (Chr a) s c k = match eat a s with Some r => k r c | None => None end.
Proof.
  destruct s as [|x t]; [reflexivity|]. simpl.
  now destruct (Ascii.eqb x a).
Qed.

Lemma m_Cls (p : ascii -> bool) (s : str) (c : caps) (k : cont) :
  m (Cls p) s c k = match eat_cls p s with Some r => k r c | None => None end.
Proof.
  destruct s as [|x t]; [reflexivity|]. simpl.
  now destruct (p x).
Qed.

(** Greedy repetition gives nothing back when what follows cannot start
    with a character of the class. *)
Lemma greedy_rejects (p : ascii -> bool) (k : cont) :
  rejects p k -> forall s c, greedy_cls p k s c = k (drop_while p s) c.
Proof.
  intros Hk s c. induction s as [|a t IH]; [reflexivity|].
  simpl. destruct (p a) eqn:Ha; [|reflexivity].
  rewrite IH, (Hk a t c Ha). apply orelse_none_r.
Qed.

(** Greedy repetition gives nothing back when what follows succeeds after
    the longest run. *)
Lemma greedy_first (p : ascii -> bool) (k : cont) :
  forall s c x, k (drop_while p s) c = Some x -> greedy_cls p k s c = Some x.
Proof.
  intros s c x. induction s as [|a t IH]; simpl; [auto|].
  destruct (p a); [|auto].
  intros H. now rewrite (IH H).
Qed.

Lemma m_plus_unfold (p : ascii -> bool) (k : cont) (s : str) (c : caps) :
  m (Plus true (Cls p)) s c k =
  match s with
  | a :: t => if p a then greedy_cls p k t c else None
  | [] => None
  end.
Proof.
  unfold Plus. rewrite m_Cat, m_Cls.
  destruct s as [|a t]; [reflexivity|]. simpl.
  destruct (p a); [apply m_star_greedy | reflexivity].
Qed.

Lemma m_plus_rejects (p : ascii -> bool) (k : cont) (s : str) (c : caps) :
  rejects p k ->
  m (Plus true (Cls p)) s c k =
  match eat_run p s with Some r => k r c | None => None end.
Proof.
  intros Hk. rewrite m_plus_unfold.
  destruct s as [|a t]; [reflexivity|]. simpl.
  destruct (p a); [now apply greedy_rejects | reflexivity].
Qed.

Lemma m_plus_first (p : ascii -> bool) (k : cont) (s r : str) (c : caps) x :
  eat_run p s = Some r -> k r c = Some x ->
  m (Plus true (Cls p)) s c k = Some x.
Proof.
  rewrite m_plus_unfold.
  destruct s as [|a t]; [discriminate|]. simpl.
  destruct (p a); [|discriminate].
  intros [= <-] Hx. now apply greedy_first.
Qed.

Lemma m_plus_none (p : ascii -> bool) (k : cont) (s : str) (c : caps) :
  eat_run p s = None -> m (Plus true (Cls p)) s c k = None.
Proof.
  rewrite m_plus_unfold.
  destruct s as [|a t]; [reflexivity|]. simpl.
  now destruct (p a).
Qed.

Lemma rejects_chr (p : ascii -> bool) (a : ascii) (r : regex) (k : cont) :
  p a = false -> rejects p (fun s' c' => m (Chr a >> r) s' c' k).
Proof.
  intros Ha x t c Hx. simpl.
  destruct (Ascii.eqb x a) eqn:E; [|reflexivity].
  apply Ascii.eqb_eq in E. congruence.
Qed.

(** The lazy star over any character stops at the first suffix accepted by
    what follows. *)
Lemma lazy_any_scan (stop : str -> bool) (k : cont) :
  (forall s c, stop s = false -> k s c = None) ->
  (forall s c, stop s = true -> k s c <> None) ->
  forall s c, lazy_cls any_char k s c = k (scan_to stop s) c.
Proof.
  intros Hno Hyes s c. induction s as [|a t IH].
  - simpl. rewrite orelse_none_r. now destruct (stop []).
  - simpl. destruct (stop (a :: t)) eqn:E.
    + specialize (Hyes (a :: t) c E).
      destruct (k (a :: t) c); [reflexivity | congruence].
    + rewrite (Hno _ c E). simpl. apply IH.
Qed.

Lemma scan_to_stops (stop : str -> bool) (s : str) :
  stop [] = true -> stop (scan_to stop s) = true.
Proof.
  intros H0. induction s as [|a t IH]; simpl.
  - now rewrite H0.
  - destruct (stop (a :: t)) eqn:E; [exact E | exact IH].
Qed.

Lemma scan_to_suffix (stop : str -> bool) (s : str) :
  is_suffix (scan_to stop s) s.
Proof.
  induction s as [|a t [p IH]]; simpl.
  - exists []. now destruct (stop []).
  - destruct (stop (a :: t)); [now exists [] |].
    exists (a :: p). simpl. now f_equal.
Qed.

(** Nothing that is skipped by the scan satisfies [stop]. *)
Lemma scan_to_split (stop : str -> bool) (s : str) :
  exists q, s = q ++ scan_to stop s /\
    forall b1 b2, q = b1 ++ b2 -> b2 <> [] ->
      stop (b2 ++ scan_to stop s) = false.
Proof.
  induction s as [|a t (q & Hq & Hmin)]; simpl.
  - exists []. split; [now destruct (stop []) |].
    intros b1 b2 E. symmetry in E. apply app_eq_nil in E. tauto.
  - destruct (stop (a :: t)) eqn:E.
    + exists []. split; [reflexivity|].
      intros b1 b2 E'. symmetry in E'. apply app_eq_nil in E'. tauto.
    + exists (a :: q). split; [simpl; now f_equal|].
      intros b1 b2 Hb Hne. destruct b1 as [|x b1]; simpl in Hb.
      * subst b2. simpl. now rewrite <- Hq.
      * injection Hb as -> ->. now apply (Hmin b1 b2).
Qed.

End EngineLaws.

(** * Matches are made of the text *)

Section Suffixes.

Lemma is_suffix_refl (s : str) : is_suffix s s.
Proof. now exists []. Qed.

Lemma is_suffix_trans (a b c : str) :
  is_suffix a b -> is_suffix b c -> is_suffix a c.
Proof.
  intros [p ->] [q ->]. exists (q ++ p). now rewrite app_assoc.
Qed.

Lemma is_suffix_cons (a : ascii) (s : str) : is_suffix s (a :: s).
Proof. now exists [a]. Qed.

Lemma is_suffix_length (a b : str) : is_suffix a b -> length a <= length b.
Proof. intros [p ->]. rewrite length_app. lia. Qed.

Lemma consumed_app (p s : str) : consumed (p ++ s) s = p.
Proof.
  unfold consumed. rewrite length_app.
  replace (length p + length s - length s) with (length p) by lia.
  rewrite firstn_app, Nat.sub_diag, firstn_all. simpl. apply app_nil_r.
Qed.

Lemma consumed_suffix (s' s : str) :
  is_suffix s' s -> consumed s s' ++ s' = s.
Proof. intros [p ->]. now rewrite consumed_app. Qed.

(** Whatever the continuation receives is a suffix of the text. *)
Lemma star_loop_suffix (g : bool) (r : regex) (k : cont) :
  (forall s c k' x, m r s c k' = Some x ->
     exists s' c', is_suffix s' s /\ k' s' c' = Some x) ->
  forall n s c x, star_loop g r k n s c = Some x ->
    exists s' c', is_suffix s' s /\ k s' c' = Some x.
Proof.
  intros IHr. induction n as [|n IH]; intros s c x H; simpl in H.
  - exists s, c. split; [apply is_suffix_refl | exact H].
  - assert (Hmore : forall y,
      m r s c (fun s' c' =>
        if length s' <? length s then star_loop g r k n s' c' else None)
      = Some y -> exists s' c', is_suffix s' s /\ k s' c' = Some y).
    { intros y Hy. apply IHr in Hy. destruct Hy as (s1 & c1 & Hs1 & Hy).
      destruct (length s1 <? length s); [|discriminate].
      apply IH in Hy. destruct Hy as (s2 & c2 & Hs2 & Hy).
      exists s2, c2. split; [eapply is_suffix_trans; eauto | exact Hy]. }
    destruct g.
    + destruct (m r s c _) eqn:E; simpl in H.
      * apply Hmore. congruence.
      * exists s, c. split; [apply is_suffix_refl | exact H].
    + destruct (k s c) eqn:E; simpl in H.
      * exists s, c. split; [apply is_suffix_refl | congruence].
      * now apply Hmore.
Qed.

Lemma m_suffix (r : regex) : forall s c k x,
  m r s c k = Some x -> exists s' c', is_suffix s' s /\ k s' c' = Some x.
Proof.
  induction r as [a|p| |r1 IH1 r2 IH2|r1 IH1 r2 IH2|g r IH|n r IH|r IH| ];
    intros s c k x H.
  - rewrite m_Chr in H. destruct s as [|y t]; [discriminate|]. simpl in H.
    destruct (Ascii.eqb y a); [|discriminate].
    exists t, c. split; [apply is_suffix_cons | exact H].
  - rewrite m_Cls in H. destruct s as [|y t]; [discriminate|]. simpl in H.
    destruct (p y); [|discriminate].
    exists t, c. split; [apply is_suffix_cons | exact H].
  - exists s, c. split; [apply is_suffix_refl | exact H].
  - rewrite m_Cat in H. apply IH1 in H. destruct H as (s1 & c1 & Hs1 & H).
    apply IH2 in H. destruct H as (s2 & c2 & Hs2 & H).
    exists s2, c2. split; [eapply is_suffix_trans; eauto | exact H].
  - rewrite m_Alt in H. destruct (m r1 s c k) eqn:E; simpl in H.
    + apply (IH1 s c k). congruence.
    + now apply (IH2 s c k).
  - rewrite m_star_unfold in H. eapply star_loop_suffix; eauto.
  - rewrite m_Grp in H. apply IH in H. destruct H as (s1 & c1 & Hs1 & H).
    eauto.
  - rewrite m_Ahead in H. destruct (m r s c accept) as [[? c']|]; [|discriminate].
    exists s, c'. split; [apply is_suffix_refl | exact H].
  - rewrite m_EndZ in H. destruct s; [|discriminate].
    exists [], c. split; [apply is_suffix_refl | exact H].
Qed.

Lemma match_here_suffix (r : regex) (s s' : str) (c : caps) :
  match_here r s = Some (s', c) -> is_suffix s' s.
Proof.
  intros H. apply m_suffix in H. destruct H as (s1 & c1 & Hs & H).
  unfold accept in H. now inversion H; subst.
Qed.

End Suffixes.

(** * Searching *)

Section Searching.

Variable r : regex.

Lemma no_match_in_nil (rest : str) : no_match_in r [] rest.
Proof.
  intros p1 p2 H Hp2. symmetry in H. apply app_eq_nil in H. tauto.
Qed.

Lemma no_match_in_cons (a : ascii) (pre rest : str) :
  no_match_in r (a :: pre) rest <->
  match_here r (a :: pre ++ rest) = None /\ no_match_in r pre rest.
Proof.
  split.
  - intros H. split.
    + apply (H [] (a :: pre)); [reflexivity | discriminate].
    + intros p1 p2 -> Hp2. apply (H (a :: p1) p2); [reflexivity | exact Hp2].
  - intros [H0 H] p1 p2 E Hp2. destruct p1 as [|b p1]; simpl in E.
    + subst p2. exact H0.
    + injection E as -> ->. now apply (H p1 p2).
Qed.

Lemma search_skip (pre rest : str) (off : nat) :
  no_match_in r pre rest ->
  search_from r (pre ++ rest) off = search_from r rest (off + length pre).
Proof.
  revert off. induction pre as [|a pre IH]; intros off H; simpl.
  - now rewrite Nat.add_0_r.
  - apply no_match_in_cons in H. destruct H as [H0 H].
    rewrite H0, IH by assumption. f_equal. lia.
Qed.

Lemma search_here (s s' : str) (c : caps) (off : nat) :
  match_here r s = Some (s', c) ->
  search_from r s off = Some (MkMatch off (consumed s s') c s').
Proof. intros H. destruct s; simpl; now rewrite H. Qed.

Lemma search_none (s : str) (off : nat) :
  no_match_in r s [] -> match_here r [] = None -> search_from r s off = None.
Proof.
  intros H H0. rewrite <- (app_nil_r s), (search_skip _ H). simpl.
  now rewrite H0.
Qed.

(** What a successful search says. *)
Lemma search_some (s : str) (off : nat) (mt : re_match) :
  search_from r s off = Some mt ->
  exists pre,
    s = pre ++ m_text mt ++ m_post mt /\
    m_start mt = off + length pre /\
    no_match_in r pre (m_text mt ++ m_post mt) /\
    match_here r (m_text mt ++ m_post mt) = Some (m_post mt, m_groups mt).
Proof.
  revert off. induction s as [|a t IH]; intros off H.
  - simpl in H. destruct (match_here r []) as [[s' c]|] eqn:E; [|discriminate].
    injection H as <-. cbn [m_text m_post m_groups m_start].
    assert (Hs := match_here_suffix _ _ E).
    exists []. rewrite (consumed_suffix Hs).
    split; [reflexivity|]. split; [simpl; lia|].
    split; [apply no_match_in_nil | exact E].
  - simpl in H. destruct (match_here r (a :: t)) as [[s' c]|] eqn:E.
    + injection H as <-. cbn [m_text m_post m_groups m_start].
      assert (Hs := match_here_suffix _ _ E).
      exists []. rewrite (consumed_suffix Hs).
      split; [reflexivity|]. split; [simpl; lia|].
      split; [apply no_match_in_nil | exact E].
    + apply IH in H. destruct H as (pre & Ht & Hst & Hno & Hm).
      exists (a :: pre). simpl.
      split; [now f_equal|]. split; [lia|]. split; [|exact Hm].
      apply no_match_in_cons. split; [|exact Hno].
      now rewrite <- Ht.
Qed.

Lemma search_none_inv (s : str) (off : nat) :
  search_from r s off = None ->
  no_match_in r s [] /\ match_here r [] = None.
Proof.
  revert off. induction s as [|a t IH]; intros off H; simpl in H.
  - destruct (match_here r []) as [[? ?]|] eqn:E; [discriminate|].
    split; [apply no_match_in_nil | reflexivity].
  - destruct (match_here r (a :: t)) as [[? ?]|] eqn:E; [discriminate|].
    apply IH in H. destruct H as [H H0]. split; [|exact H0].
    apply no_match_in_cons. rewrite app_nil_r. now split.
Qed.

Lemma search_post_length (s : str) (off : nat) (mt : re_match) :
  search_from r s off = Some mt ->
  length (m_text mt) + length (m_post mt) <= length s.
Proof.
  intros H. apply search_some in H. destruct H as (pre & -> & _).
  rewrite !length_app. lia.
Qed.

(** Enough fuel is enough. *)
Lemma finditer_fuel (f1 : nat) : forall f2 s off,
  length s < f1 -> length s < f2 ->
  finditer_from f1 r s off = finditer_from f2 r s off.
Proof.
  induction f1 as [|f1 IH]; intros f2 s off H1 H2; [lia|].
  destruct f2 as [|f2]; [lia|]. simpl.
  destruct (search_from r s off) as [mt|] eqn:E; [|reflexivity].
  f_equal. apply search_post_length in E.
  destruct (m_text mt) as [|x tx]; simpl in E.
  - destruct (m_post mt) as [|y p]; [reflexivity|]. simpl in E.
    apply IH; lia.
  - apply IH; lia.
Qed.

(** Every match of the iteration sits in the text at its offset and is a
    match of the pattern there. *)
Lemma finditer_in (fuel : nat) : forall s off mt,
  In mt (finditer_from fuel r s off) ->
  exists pre,
    s = pre ++ m_text mt ++ m_post mt /\
    m_start mt = off + length pre /\
    match_here r (m_text mt ++ m_post mt) = Some (m_post mt, m_groups mt).
Proof.
  induction fuel as [|f IH]; intros s off mt Hin; [contradiction|].
  simpl in Hin.
  destruct (search_from r s off) as [m0|] eqn:E; [|contradiction].
  apply search_some in E. destruct E as (pre & Hs & Hst & _ & Hm).
  destruct Hin as [<- | Hin]; [now exists pre|].
  destruct (m_text m0) as [|x tx] eqn:Et.
  - destruct (m_post m0) as [|y p] eqn:Ep; [contradiction|].
    apply IH in Hin. destruct Hin as (pre' & Hp & Hst' & Hm').
    exists (pre ++ y :: pre'). split; [|split; [|exact Hm']].
    + rewrite Hs, Hp. simpl. now rewrite <- app_assoc.
    + rewrite Hst', Hst, length_app. simpl. lia.
  - apply IH in Hin. destruct Hin as (pre' & Hp & Hst' & Hm').
    exists (pre ++ (x :: tx) ++ pre'). split; [|split; [|exact Hm']].
    + rewrite Hs, Hp. now rewrite <- !app_assoc.
    + rewrite Hst', Hst, !length_app. lia.
Qed.

End Searching.

(** * The patterns of the program, read directly *)

Section PatternLaws.

Ltac eat_step :=
  rewrite m_Cat;
  first [ rewrite m_plus_rejects by (apply rejects_chr; reflexivity)
        | rewrite m_Chr
        | rewrite m_Cls ];
  match goal with
  | |- context [bind (bind ?e _) _] =>
      destruct e eqn:?; simpl bind; [|reflexivity]
  end.

Lemma m_stamp (s : str) (c : caps) (k : cont) :
  m stamp_re s c k =
  match eat_stamp s with Some r => k r c | None => None end.
Proof.
  unfold stamp_re, eat_stamp, digits. cbv beta iota delta [chr].
  do 10 eat_step.
  rewrite m_Cat, m_Cls.
  destruct (eat_cls _ _); simpl bind; [|reflexivity].
  apply m_Chr.
Qed.

Lemma m_bracket (s : str) (c : caps) (k : cont) :
  m bracket_re s c k =
  match eat_bracket s with Some r => k r c | None => None end.
Proof.
  unfold bracket_re, eat_bracket. cbv beta iota delta [chr].
  rewrite m_Cat, m_Chr. destruct (eat _ s); simpl bind; [|reflexivity].
  rewrite m_Cat, m_stamp. destruct (eat_stamp _); simpl bind; [|reflexivity].
  apply m_Chr.
Qed.

(** The look-ahead that ends a message body. *)
Lemma m_ahead_boundary (s : str) (c : caps) (k : cont) :
  m (Ahead (bracket_re <|> EndZ)) s c k =
  if at_boundary s then k s c else None.
Proof.
  unfold at_boundary. rewrite m_Ahead, m_Alt, m_bracket, m_EndZ.
  destruct (eat_bracket s); [reflexivity|].
  now destruct s.
Qed.

Lemma match_here_message (s : str) :
  match_here message_re s =
  match message_at s with
  | Some (ts, au, bd, post) => Some (post, [(3, bd); (2, au); (1, ts)])
  | None => None
  end.
Proof.
  unfold match_here, message_re, message_at, delim_at.
  rewrite m_Cat, m_Chr. destruct (eat _ s) as [s1|]; [|reflexivity].
  rewrite m_Cat, m_Grp, m_stamp.
  destruct (eat_stamp s1) as [s2|]; [|reflexivity].
  rewrite m_Cat, m_Chr. destruct (eat _ s2) as [s2'|]; simpl bind; [|reflexivity].
  rewrite m_Cat, m_Chr. destruct (eat _ s2') as [s3|]; simpl bind; [|reflexivity].
  rewrite m_Cat, m_Grp.
  rewrite m_plus_rejects.
  2:{ intros x t c' Hx. rewrite m_Cat, m_Chr. simpl.
      unfold not_nl in Hx. now destruct (Ascii.eqb x nl). }
  destruct (eat_run not_nl s3) as [s4|]; [|reflexivity].
  rewrite m_Cat, m_Chr. destruct (eat nl s4) as [s5|]; [|reflexivity].
  rewrite m_Cat, m_Grp, m_star_lazy.
  rewrite (lazy_any_scan at_boundary).
  - rewrite m_ahead_boundary.
    now rewrite (scan_to_stops at_boundary s5 eq_refl).
  - intros u c' Hu. now rewrite m_ahead_boundary, Hu.
  - intros u c' Hu. now rewrite m_ahead_boundary, Hu.
Qed.

End PatternLaws.

(** * Shapes of what the eaters accept *)

Section Shapes.

Lemma eat_inv (a : ascii) (s r : str) : eat a s = Some r -> s = a :: r.
Proof.
  destruct s as [|x t]; [discriminate|]. simpl.
  destruct (Ascii.eqb x a) eqn:E; [|discriminate].
  apply Ascii.eqb_eq in E. now intros [= ->]; subst.
Qed.

Lemma eat_cons (a : ascii) (r : str) : eat a (a :: r) = Some r.
Proof. simpl. now rewrite Ascii.eqb_refl. Qed.

Lemma eat_cls_inv (p : ascii -> bool) (s r : str) :
  eat_cls p s = Some r -> exists x, s = x :: r /\ p x = true.
Proof.
  destruct s as [|x t]; [discriminate|]. simpl.
  destruct (p x) eqn:E; [|discriminate].
  intros [= ->]. now exists x.
Qed.

Lemma take_while_all (p : ascii -> bool) (s : str) :
  Forall (fun a => p a = true) (take_while p s).
Proof.
  induction s as [|a t IH]; simpl; [constructor|].
  destruct (p a) eqn:E; now constructor.
Qed.

Lemma drop_while_head (p : ascii -> bool) (s : str) :
  match drop_while p s with [] => True | y :: _ => p y = false end.
Proof.
  induction s as [|a t IH]; simpl; [exact I|].
  destruct (p a) eqn:E; [exact IH | exact E].
Qed.

Lemma drop_while_app (p : ascii -> bool) (run rest : str) :
  Forall (fun a => p a = true) run ->
  match rest with [] => True | y :: _ => p y = false end ->
  drop_while p (run ++ rest) = rest.
Proof.
  intros Hrun Hrest. induction Hrun as [|a run Ha _ IH]; simpl.
  - destruct rest as [|y t]; [reflexivity|]. simpl. now rewrite Hrest.
  - now rewrite Ha.
Qed.

Lemma eat_run_inv (p : ascii -> bool) (s r : str) :
  eat_run p s = Some r ->
  exists run, s = run ++ r /\ run <> [] /\
              Forall (fun a => p a = true) run /\
              match r with [] => True | y :: _ => p y = false end.
Proof.
  destruct s as [|x t]; [discriminate|]. simpl.
  destruct (p x) eqn:E; [|discriminate].
  intros [= <-]. exists (x :: take_while p t).
  split; [simpl; now rewrite take_drop_while|].
  split; [discriminate|].
  split; [constructor; [exact E | apply take_while_all] | apply drop_while_head].
Qed.

Lemma eat_run_app (p : ascii -> bool) (run rest : str) :
  run <> [] -> Forall (fun a => p a = true) run ->
  match rest with [] => True | y :: _ => p y = false end ->
  eat_run p (run ++ rest) = Some rest.
Proof.
  intros Hne Hrun Hrest. destruct run as [|x run]; [congruence|].
  inversion Hrun as [|? ? Hx Hrun']; subst. simpl. rewrite Hx.
  now rewrite drop_while_app.
Qed.

Lemma eat_stamp_inv (s r : str) :
  eat_stamp s = Some r -> exists ts, s = ts ++ r /\ stamp_shaped ts.
Proof.
  unfold eat_stamp. cbv beta iota delta [chr]. intros H.
  repeat match type of H with
  | bind ?e _ = Some _ =>
      let E := fresh "E" in
      destruct e eqn:E; simpl bind in H; [|discriminate]
  end.
  repeat match goal with
  | E : bind ?e _ = Some _ |- _ =>
      let E' := fresh "E" in
      destruct e eqn:E'; simpl bind in E; [|discriminate]
  end.
  repeat match goal with
  | E : eat _ _ = Some _ |- _ => apply eat_inv in E
  | E : eat_run _ _ = Some _ |- _ =>
      apply eat_run_inv in E; destruct E as (? & ? & ? & ? & _)
  | E : eat_cls _ _ = Some _ |- _ =>
      apply eat_cls_inv in E; destruct E as (? & ? & ?)
  end.
  subst.
  match goal with
  | |- exists ts, ?mo ++ _ :: ?d ++ _ :: ?y ++ _ :: ?h ++ _ :: ?mi ++ _ :: ?ap :: _ :: r = _ /\ _ =>
      exists (mo ++ "/"%char :: d ++ "/"%char :: y ++ " "%char :: h ++
              ":"%char :: mi ++ " "%char :: ap :: ["M"%char]);
      split;
      [ list_flat; reflexivity
      | exists mo, d, y, h, mi, ap; unfold digit_run; auto 20 ]
  end.
Qed.

Lemma eat_stamp_shaped (ts r : str) :
  stamp_shaped ts -> eat_stamp (ts ++ r) = Some r.
Proof.
  intros (mo & d & y & h & mi & ap & [? ?] & [? ?] & [? ?] & [? ?] & [? ?]
          & Hap & ->).
  cbv beta iota delta [chr]. list_flat.
  unfold eat_stamp. cbv beta iota delta [chr].
  repeat (rewrite eat_run_app by first [assumption | exact eq_refl];
          simpl bind).
  now rewrite Hap.
Qed.

Lemma eat_bracket_inv (s r : str) :
  eat_bracket s = Some r ->
  exists ts, stamp_shaped ts /\ s = chr "[" :: ts ++ chr "]" :: r.
Proof.
  unfold eat_bracket. intros H.
  destruct (eat (chr "[") s) as [s1|] eqn:E1; simpl bind in H; [|discriminate].
  destruct (eat_stamp s1) as [s2|] eqn:E2; simpl bind in H; [|discriminate].
  apply eat_inv in E1, H. apply eat_stamp_inv in E2.
  destruct E2 as (ts & -> & Hts). subst. now exists ts.
Qed.

Lemma eat_bracket_shaped (ts r : str) :
  stamp_shaped ts -> eat_bracket (chr "[" :: ts ++ chr "]" :: r) = Some r.
Proof.
  intros Hts. unfold eat_bracket. rewrite eat_cons. simpl bind.
  rewrite (eat_stamp_shaped _ Hts). simpl bind. now rewrite ?eat_cons.
Qed.

(** A body stops where the text is over or a bracketed timestamp begins. *)
Lemma at_boundary_iff (s : str) :
  at_boundary s = true <-> s = [] \/ starts_with_bracket s.
Proof.
  unfold at_boundary, starts_with_bracket. split.
  - destruct (eat_bracket s) as [r|] eqn:E.
    + intros _. right. apply eat_bracket_inv in E.
      destruct E as (ts & Hts & ->). now exists ts, r.
    + destruct s; [now left | discriminate].
  - intros [-> | (ts & rest & Hts & ->)]; [reflexivity|].
    now rewrite (eat_bracket_shaped _ Hts).
Qed.

(** What a delimiter at the head of the text looks like. *)
Lemma delim_at_inv (s ts au s5 : str) :
  delim_at s = Some (ts, au, s5) ->
  s = chr "[" :: ts ++ chr "]" :: chr " " :: au ++ nl :: s5 /\
  stamp_shaped ts /\ au <> [] /\ nl_free au.
Proof.
  unfold delim_at. intros H.
  destruct (eat (chr "[") s) as [s1|] eqn:E1; [|discriminate].
  destruct (eat_stamp s1) as [s2|] eqn:E2; [|discriminate].
  destruct (eat (chr "]") s2) as [s2'|] eqn:E3; cbn [bind] in H; [|discriminate].
  destruct (eat (chr " ") s2') as [s3|] eqn:E4; [|discriminate].
  destruct (eat_run not_nl s3) as [s4|] eqn:E5; [|discriminate].
  destruct (eat nl s4) as [s5'|] eqn:E6; [|discriminate].
  apply eat_inv in E1, E3, E4, E6. apply eat_stamp_inv in E2.
  destruct E2 as (ts' & -> & Hts).
  apply eat_run_inv in E5. destruct E5 as (run & -> & Hne & Hrun & _).
  rewrite !consumed_app in H. injection H as <- <- <-. subst.
  split; [reflexivity|]. split; [exact Hts|]. split; [exact Hne|].
  intros Hin. rewrite Forall_forall in Hrun. apply Hrun in Hin.
  unfold not_nl in Hin. now rewrite Ascii.eqb_refl in Hin.
Qed.

Lemma delim_at_shaped (ts au s5 : str) :
  stamp_shaped ts -> au <> [] -> nl_free au ->
  delim_at (chr "[" :: ts ++ chr "]" :: chr " " :: au ++ nl :: s5)
  = Some (ts, au, s5).
Proof.
  intros Hts Hne Hfree. unfold delim_at. rewrite eat_cons.
  rewrite (eat_stamp_shaped _ Hts). rewrite eat_cons. cbn [bind].
  rewrite eat_cons. rewrite eat_run_app.
  - rewrite eat_cons, !consumed_app. reflexivity.
  - exact Hne.
  - apply Forall_forall. intros x Hx. unfold not_nl.
    destruct (Ascii.eqb x nl) eqn:E; [|reflexivity].
    apply Ascii.eqb_eq in E. subst. contradiction.
  - reflexivity.
Qed.

(** What a message at the head of the text looks like: the delimiter, its
    newline, and the shortest body after which the text is over or a
    bracketed timestamp begins. *)
Lemma message_at_inv (s ts au bd post : str) :
  message_at s = Some (ts, au, bd, post) ->
  s = chr "[" :: ts ++ chr "]" :: chr " " :: au ++ nl :: bd ++ post /\
  stamp_shaped ts /\ au <> [] /\ nl_free au /\
  at_boundary post = true /\
  (forall b1 b2, bd = b1 ++ b2 -> b2 <> [] ->
     at_boundary (b2 ++ post) = false).
Proof.
  unfold message_at. intros H.
  destruct (delim_at s) as [[[ts' au'] s5]|] eqn:Ed; [|discriminate].
  apply delim_at_inv in Ed. destruct Ed as (Hs & Hts & Hne & Hfree).
  destruct (scan_to_split at_boundary s5) as (q & Hq & Hmin).
  assert (Hstop := scan_to_stops at_boundary s5 eq_refl).
  revert H Hq Hmin Hstop. generalize (scan_to at_boundary s5).
  intros post' H Hq Hmin Hstop. subst s5. rewrite consumed_app in H.
  injection H as <- <- <- <-. repeat split; assumption.
Qed.

Lemma digit_not_nl (a : ascii) : is_digit a = true -> a <> nl.
Proof. intros H ->. discriminate. Qed.

Lemma digit_run_nl_free (d : str) : digit_run d -> nl_free d.
Proof.
  intros [_ H] Hin. rewrite Forall_forall in H.
  now apply (digit_not_nl (H _ Hin)).
Qed.

Lemma nl_free_app (a b : str) : nl_free (a ++ b) <-> nl_free a /\ nl_free b.
Proof.
  unfold nl_free. rewrite in_app_iff. tauto.
Qed.

Lemma nl_free_cons (x : ascii) (a : str) :
  nl_free (x :: a) <-> x <> nl /\ nl_free a.
Proof.
  unfold nl_free. simpl. split.
  - intros H. split; [intros E | intros E]; apply H; [now left | now right].
  - intros [H1 H2] [E|E]; [now apply H1 | now apply H2].
Qed.

Lemma stamp_shaped_nl_free (ts : str) : stamp_shaped ts -> nl_free ts.
Proof.
  intros (mo & d & y & h & mi & ap & Hmo & Hd & Hy & Hh & Hmi & Hap & ->).
  apply digit_run_nl_free in Hmo, Hd, Hy, Hh, Hmi.
  repeat (rewrite ?nl_free_app, ?nl_free_cons).
  repeat split; try assumption; try discriminate.
  - intros ->. discriminate.
  - intros [].
Qed.

(** The delimiter lines of the specification, read directly. *)
Lemma match_here_delimiter_line (l : str) :
  match_here delimiter_line_re l =
  match eat_bracket l >>= eat (chr " ") >>= eat_run not_nl with
  | Some [] => Some ([], [])
  | _ => None
  end.
Proof.
  unfold match_here, delimiter_line_re.
  rewrite m_Cat, m_bracket. destruct (eat_bracket l) as [r1|]; [|reflexivity].
  rewrite m_Cat, m_Chr. cbn [bind].
  destruct (eat (chr " ") r1) as [r2|]; [|reflexivity].
  rewrite m_Cat, m_plus_rejects by (intros x t c _; reflexivity).
  cbn [bind]. destruct (eat_run not_nl r2) as [r3|]; [|reflexivity].
  rewrite m_EndZ. now destruct r3.
Qed.

Lemma is_delimiter_line_iff (l : str) :
  is_delimiter_line l = true <->
  exists ts au, stamp_shaped ts /\ au <> [] /\ nl_free au /\
                l = chr "[" :: ts ++ chr "]" :: chr " " :: au.
Proof.
  unfold is_delimiter_line. rewrite match_here_delimiter_line. split.
  - destruct (eat_bracket l) as [r1|] eqn:E1; cbn [bind]; [|discriminate].
    destruct (eat (chr " ") r1) as [r2|] eqn:E2; cbn [bind]; [|discriminate].
    destruct (eat_run not_nl r2) as [[|? ?]|] eqn:E3; [|discriminate..].
    intros _. apply eat_bracket_inv in E1. destruct E1 as (ts & Hts & ->).
    apply eat_inv in E2. subst r1.
    apply eat_run_inv in E3. destruct E3 as (au & -> & Hne & Hau & _).
    exists ts, au. rewrite app_nil_r. repeat split; try assumption.
    intros Hin. rewrite Forall_forall in Hau. apply Hau in Hin.
    unfold not_nl in Hin. now rewrite Ascii.eqb_refl in Hin.
  - intros (ts & au & Hts & Hne & Hfree & ->).
    rewrite (eat_bracket_shaped _ Hts). cbn [bind]. rewrite eat_cons.
    cbn [bind]. rewrite <- (app_nil_r au) at 1. rewrite eat_run_app.
    + reflexivity.
    + exact Hne.
    + apply Forall_forall. intros x Hx. unfold not_nl.
      destruct (Ascii.eqb x nl) eqn:E; [|reflexivity].
      apply Ascii.eqb_eq in E. subst. contradiction.
    + exact I.
Qed.

Lemma delimiter_line_boundary (l : str) :
  is_delimiter_line l = true -> at_boundary l = true /\ nl_free l.
Proof.
  intros H. apply is_delimiter_line_iff in H.
  destruct H as (ts & au & Hts & Hne & Hfree & ->). split.
  - apply at_boundary_iff. right. now exists ts, (chr " " :: au).
  - apply stamp_shaped_nl_free in Hts.
    repeat (rewrite ?nl_free_app, ?nl_free_cons).
    repeat split; try assumption; discriminate.
Qed.

End Shapes.

(** * The loop of the parser *)

Section ParserLaws.

Lemma loop_body_messages (md : metadata_t) (st : locals) (mt : re_match) :
  messages (loop_body md st mt) = messages st ++ [record_of md mt].
Proof. reflexivity. Qed.

(** After an iteration the name [content] holds the body of that chunk. *)
Lemma loop_body_content (md : metadata_t) (st : locals) (mt : re_match) :
  content (loop_body md st mt) = grp 3 (m_groups mt).
Proof. reflexivity. Qed.

Lemma fold_loop_messages (md : metadata_t) (ms : list re_match) :
  forall st,
    messages (fold_left (loop_body md) ms st) =
    messages st ++ map (record_of md) ms.
Proof.
  induction ms as [|mt ms IH]; intros st; simpl.
  - now rewrite app_nil_r.
  - rewrite IH, loop_body_messages, <- app_assoc. reflexivity.
Qed.

(** The records are the matches of the segmenter, one record each, in the
    order of the matches. *)
Lemma records_map (doc : str) :
  records doc =
  map (record_of (extract_header doc)) (re_finditer message_re doc).
Proof.
  unfold records, parse_discord_data. simpl fst.
  now rewrite fold_loop_messages.
Qed.

Lemma records_length (doc : str) :
  length (records doc) = length (re_finditer message_re doc).
Proof. now rewrite records_map, length_map. Qed.

End ParserLaws.

(** * Chunks of the segmenter *)

Section Chunks.

(** A match of the segmenter, wherever it is found. *)
Lemma chunk_inv (doc : str) (mt : re_match) :
  In mt (re_finditer message_re doc) ->
  exists pre ts au bd,
    doc = pre ++ m_text mt ++ m_post mt /\
    m_start mt = length pre /\
    m_text mt = chr "[" :: ts ++ chr "]" :: chr " " :: au ++ nl :: bd /\
    m_groups mt = [(3, bd); (2, au); (1, ts)] /\
    message_at (m_text mt ++ m_post mt) = Some (ts, au, bd, m_post mt).
Proof.
  intros Hin. apply finditer_in in Hin.
  destruct Hin as (pre & Hdoc & Hst & Hm).
  rewrite match_here_message in Hm.
  destruct (message_at _) as [[[[ts au] bd] post]|] eqn:E; [|discriminate].
  injection Hm as Hpost Hg. subst post.
  exists pre, ts, au, bd. split; [exact Hdoc|]. split; [simpl in Hst; exact Hst|].
  split; [|split; [now symmetry | reflexivity]].
  apply message_at_inv in E. destruct E as (Hs & _).
  apply (app_inv_tail (m_post mt)). rewrite Hs.
  list_flat. reflexivity.
Qed.

Lemma skipn_length_app (a b : str) : skipn (length a) (a ++ b) = b.
Proof. induction a; simpl; auto. Qed.

End Chunks.

(** * Lines *)

Section Lines.

Lemma split_chr_not_nil (c : ascii) (s : str) : split_chr c s <> [].
Proof.
  destruct s as [|x t]; simpl; [discriminate|].
  destruct (Ascii.eqb x c); [discriminate|].
  destruct (split_chr c t); discriminate.
Qed.

Lemma join_cons (sep l : str) (ls : list str) :
  ls <> [] -> join sep (l :: ls) = l ++ sep ++ join sep ls.
Proof. destruct ls; [congruence | reflexivity]. Qed.

Lemma join_split (s : str) : join [nl] (split_chr nl s) = s.
Proof.
  induction s as [|x t IH]; [reflexivity|]. simpl.
  destruct (Ascii.eqb x nl) eqn:E.
  - apply Ascii.eqb_eq in E. subst x.
    rewrite join_cons by apply split_chr_not_nil. simpl. now rewrite IH.
  - destruct (split_chr nl t) as [|l ls] eqn:Es.
    + now apply split_chr_not_nil in Es.
    + destruct ls as [|l' ls]; simpl in *; now rewrite IH.
Qed.

Lemma split_chr_nl_free (s : str) : Forall nl_free (split_chr nl s).
Proof.
  induction s as [|x t IH]; simpl.
  - constructor; [intros [] | constructor].
  - destruct (Ascii.eqb x nl) eqn:E.
    + constructor; [intros [] | exact IH].
    + destruct (split_chr nl t) as [|l ls].
      * constructor; [|constructor]. intros [->|[]].
        now rewrite Ascii.eqb_refl in E.
      * inversion IH; subst. constructor; [|assumption].
        apply nl_free_cons. split; [|assumption].
        intros ->. now rewrite Ascii.eqb_refl in E.
Qed.

(** ** Eaters that stop at the end of the line *)

Lemma drop_while_nl (p : ascii -> bool) (a b : str) :
  p nl = false -> drop_while p (a ++ nl :: b) = drop_while p a ++ nl :: b.
Proof.
  intros Hp. induction a as [|x t IH]; simpl.
  - now rewrite Hp.
  - now destruct (p x).
Qed.

Lemma nl_local_eat (c : ascii) : c <> nl -> nl_local (eat c).
Proof.
  intros Hc a b. destruct a as [|x t]; cbn [app eat option_map].
  - destruct (Ascii.eqb nl c) eqn:E; [|reflexivity].
    apply Ascii.eqb_eq in E. congruence.
  - now destruct (Ascii.eqb x c).
Qed.

Lemma nl_local_eat_cls (p : ascii -> bool) : p nl = false -> nl_local (eat_cls p).
Proof.
  intros Hp a b. destruct a as [|x t]; simpl.
  - now rewrite Hp.
  - now destruct (p x).
Qed.

Lemma nl_local_eat_run (p : ascii -> bool) : p nl = false -> nl_local (eat_run p).
Proof.
  intros Hp a b. destruct a as [|x t]; simpl.
  - now rewrite Hp.
  - destruct (p x); [|reflexivity]. simpl. now rewrite drop_while_nl.
Qed.

Lemma nl_local_bind (e f : str -> option str) :
  nl_local e -> nl_local f -> nl_local (fun s => e s >>= f).
Proof.
  intros He Hf a b. rewrite He.
  destruct (e a) as [r|]; [apply Hf | reflexivity].
Qed.

Lemma nl_local_stamp : nl_local eat_stamp.
Proof.
  unfold eat_stamp.
  repeat first
    [ apply nl_local_bind
    | apply nl_local_eat; discriminate
    | apply nl_local_eat_run; reflexivity
    | apply nl_local_eat_cls; reflexivity ].
Qed.

Lemma nl_local_bracket : nl_local eat_bracket.
Proof.
  unfold eat_bracket.
  repeat first
    [ apply nl_local_stamp
    | apply nl_local_eat; discriminate
    | apply nl_local_bind ].
Qed.

(** ** Lines without a bracketed timestamp *)

Lemma match_here_bracket (s : str) :
  match_here bracket_re s =
  match eat_bracket s with Some r => Some (r, []) | None => None end.
Proof. unfold match_here. now rewrite m_bracket. Qed.

Lemma has_bracket_false (l : str) : has_bracket l = false -> bracket_free l.
Proof.
  unfold has_bracket, re_search.
  destruct (search_from bracket_re l 0) eqn:E; [discriminate|]. intros _.
  apply search_none_inv in E. destruct E as [Hno _].
  intros p1 p2 ->. destruct p2 as [|x p2]; [reflexivity|].
  specialize (Hno p1 (x :: p2) eq_refl ltac:(discriminate)).
  rewrite app_nil_r, match_here_bracket in Hno.
  destruct (eat_bracket (x :: p2)); [discriminate | reflexivity].
Qed.

Lemma line_ok_cases (l : str) :
  line_ok l = true -> is_delimiter_line l = false -> bracket_free l.
Proof.
  unfold line_ok. intros H Hd. rewrite Hd in H. simpl in H.
  apply has_bracket_false. now destruct (has_bracket l).
Qed.

Lemma delim_at_needs_bracket (s : str) :
  eat_bracket s = None -> delim_at s = None.
Proof.
  unfold eat_bracket, delim_at.
  destruct (eat (chr "[") s) as [s1|]; [|reflexivity]. cbn [bind].
  destruct (eat_stamp s1) as [s2|]; [|reflexivity]. cbn [bind].
  now intros ->.
Qed.

Lemma message_needs_bracket (s : str) :
  eat_bracket s = None -> match_here message_re s = None.
Proof.
  intros H. rewrite match_here_message. unfold message_at.
  now rewrite (delim_at_needs_bracket _ H).
Qed.

Lemma no_boundary_without_bracket (s : str) :
  s <> [] -> eat_bracket s = None -> at_boundary s = false.
Proof.
  intros Hs H. unfold at_boundary. rewrite H. destruct s; congruence.
Qed.

(** Inside a line without bracketed timestamp, newline included, no
    bracketed timestamp begins, whatever follows the line. *)
Lemma bracket_free_line (l rest : str) :
  bracket_free l ->
  forall p1 p2, l ++ [nl] = p1 ++ p2 -> p2 <> [] ->
    eat_bracket (p2 ++ rest) = None.
Proof.
  intros Hl p1 p2 E Hp2.
  destruct p2 as [|x q] using rev_ind; [congruence|]. clear IHq.
  rewrite app_assoc in E. apply app_inj_tail in E. destruct E as [-> <-].
  rewrite <- app_assoc. simpl. rewrite nl_local_bracket.
  now rewrite (Hl p1 q eq_refl).
Qed.

Lemma scan_skip (stop : str -> bool) (pre rest : str) :
  (forall p1 p2, pre = p1 ++ p2 -> p2 <> [] -> stop (p2 ++ rest) = false) ->
  scan_to stop (pre ++ rest) = scan_to stop rest.
Proof.
  induction pre as [|a pre IH]; intros H; [reflexivity|].
  assert (H0 := H [] (a :: pre) eq_refl ltac:(discriminate)).
  simpl in *. rewrite H0.
  apply IH. intros p1 p2 -> Hp2. now apply (H (a :: p1) p2).
Qed.

Lemma scan_skip_line (l rest : str) :
  bracket_free l ->
  scan_to at_boundary (l ++ nl :: rest) = scan_to at_boundary rest.
Proof.
  intros Hl.
  change (l ++ nl :: rest) with (l ++ [nl] ++ rest). rewrite app_assoc.
  apply scan_skip. intros p1 p2 E Hp2.
  apply no_boundary_without_bracket.
  - destruct p2; [congruence | discriminate].
  - now apply (bracket_free_line rest Hl p1).
Qed.

Lemma scan_last_line (l : str) :
  bracket_free l -> scan_to at_boundary l = [].
Proof.
  intros Hl. rewrite <- (app_nil_r l) at 1. rewrite scan_skip; [reflexivity|].
  intros p1 p2 E Hp2. rewrite app_nil_r.
  apply no_boundary_without_bracket; [exact Hp2 | now apply (Hl p1)].
Qed.

Lemma search_skip_line (l rest : str) (off : nat) :
  bracket_free l ->
  search_from message_re (l ++ nl :: rest) off =
  search_from message_re rest (off + length l + 1).
Proof.
  intros Hl.
  change (l ++ nl :: rest) with (l ++ [nl] ++ rest). rewrite app_assoc.
  rewrite search_skip.
  - f_equal. rewrite length_app. simpl. lia.
  - intros p1 p2 E Hp2. apply message_needs_bracket.
    now apply (bracket_free_line rest Hl p1).
Qed.

Lemma search_last_line (l : str) (off : nat) :
  bracket_free l -> search_from message_re l off = None.
Proof.
  intros Hl. apply search_none; [|reflexivity].
  intros p1 p2 E Hp2. rewrite app_nil_r.
  apply message_needs_bracket. now apply (Hl p1).
Qed.

(** A delimiter line followed by a newline starts a message. *)
Lemma message_at_delimiter_line (l rest : str) :
  is_delimiter_line l = true ->
  exists ts au,
    message_at (l ++ nl :: rest) =
    Some (ts, au, consumed rest (scan_to at_boundary rest),
          scan_to at_boundary rest).
Proof.
  intros H. apply is_delimiter_line_iff in H.
  destruct H as (ts & au & Hts & Hne & Hfree & ->).
  exists ts, au. unfold message_at.
  replace ((chr "[" :: ts ++ chr "]" :: chr " " :: au) ++ nl :: rest)
    with (chr "[" :: ts ++ chr "]" :: chr " " :: au ++ nl :: rest)
    by (list_flat; reflexivity).
  now rewrite delim_at_shaped.
Qed.

(** ** Counting the matches of the segmenter line by line *)

Lemma finditer_unfold (f : nat) (r : regex) (s : str) (off : nat) :
  finditer_from (S f) r s off =
  match search_from r s off with
  | None => []
  | Some mt =>
      mt ::
      match m_text mt, m_post mt with
      | [], [] => []
      | [], _ :: p => finditer_from f r p (S (m_start mt))
      | _ :: _, p => finditer_from f r p (m_start mt + length (m_text mt))
      end
  end.
Proof. reflexivity. Qed.

Lemma scan_to_here (stop : str -> bool) (s : str) :
  stop s = true -> scan_to stop s = s.
Proof. intros H. destruct s; simpl; now rewrite H. Qed.

Lemma bracket_free_nil : bracket_free [].
Proof.
  intros p1 p2 E. symmetry in E. apply app_eq_nil in E.
  destruct E as [_ ->]. reflexivity.
Qed.

Lemma lines_wf_tail (l : str) (ls : list str) :
  ls <> [] -> lines_wf (l :: ls) -> lines_wf ls.
Proof.
  intros Hne (H1 & H2 & H3). inversion H1; inversion H2; subst.
  repeat split; try assumption.
  destruct ls; [congruence | exact H3].
Qed.

Lemma lines_wf_nil : lines_wf [].
Proof. repeat split; constructor. Qed.

Lemma drop_body_wf (ls : list str) : lines_wf ls -> lines_wf (drop_body ls).
Proof.
  induction ls as [|l ls IH]; intros H; [exact H|]. simpl.
  destruct (is_delimiter_line l); [exact H|].
  destruct ls as [|l' ls']; [apply lines_wf_nil|].
  apply IH. eapply lines_wf_tail; [discriminate | exact H].
Qed.

Lemma drop_body_count (ls : list str) :
  length (filter is_delimiter_line (drop_body ls)) =
  length (filter is_delimiter_line ls).
Proof.
  induction ls as [|l ls IH]; [reflexivity|]. simpl.
  destruct (is_delimiter_line l) eqn:E; [simpl; now rewrite E | exact IH].
Qed.

Lemma drop_body_length (ls : list str) : length (drop_body ls) <= length ls.
Proof.
  induction ls as [|l ls IH]; simpl; [lia|].
  destruct (is_delimiter_line l); simpl; lia.
Qed.

Lemma lines_wf_single (l : str) : lines_wf [l] -> bracket_free l.
Proof.
  intros (_ & H2 & H3). inversion H2; subst. now apply line_ok_cases.
Qed.

Lemma lines_wf_head (l : str) (ls : list str) :
  lines_wf (l :: ls) -> is_delimiter_line l = false -> bracket_free l.
Proof.
  intros (_ & H2 & _) Hd. inversion H2; subst. now apply line_ok_cases.
Qed.

(** Skipping a body, on a well-formed list of lines, leads to the next
    delimiter line. *)
Lemma scan_lines (ls : list str) :
  lines_wf ls ->
  scan_to at_boundary (join [nl] ls) = join [nl] (drop_body ls).
Proof.
  induction ls as [|l ls IH]; intros Hwf; [reflexivity|].
  destruct ls as [|l' ls'].
  - assert (Hd : is_delimiter_line l = false) by apply Hwf.
    simpl. rewrite Hd. apply scan_last_line. now apply lines_wf_single.
  - rewrite (@join_cons [nl] l (l' :: ls')) by discriminate. cbn [app].
    cbn [drop_body]. destruct (is_delimiter_line l) eqn:Hd.
    + rewrite (@join_cons [nl] l (l' :: ls')) by discriminate. cbn [app].
      apply scan_to_here. apply at_boundary_iff. right.
      apply is_delimiter_line_iff in Hd.
      destruct Hd as (ts & au & Hts & _ & _ & ->).
      exists ts, (chr " " :: au ++ nl :: join [nl] (l' :: ls')).
      split; [exact Hts | list_flat; reflexivity].
    + rewrite scan_skip_line by (eapply lines_wf_head; eauto).
      apply IH. eapply lines_wf_tail; [discriminate | exact Hwf].
Qed.

Lemma count_lines (n : nat) : forall ls,
  length ls <= n -> lines_wf ls ->
  forall fuel off, length (join [nl] ls) < fuel ->
    length (finditer_from fuel message_re (join [nl] ls) off) =
    length (filter is_delimiter_line ls).
Proof.
  induction n as [|n IH]; intros ls Hn Hwf fuel off Hf;
    (destruct fuel as [|f]; [lia|]).
  - destruct ls; [|simpl in Hn; lia].
    rewrite finditer_unfold. simpl join.
    now rewrite (@search_last_line [] off bracket_free_nil).
  - destruct ls as [|l ls].
    { rewrite finditer_unfold. simpl join.
      now rewrite (@search_last_line [] off bracket_free_nil). }
    destruct ls as [|l' ls'].
    { assert (Hd : is_delimiter_line l = false) by apply Hwf.
      rewrite finditer_unfold. simpl join.
      rewrite (@search_last_line l off (lines_wf_single Hwf)).
      simpl. now rewrite Hd. }
    rewrite (@join_cons [nl] l (l' :: ls')) in * by discriminate.
    cbn [app] in *.
    set (rest := join [nl] (l' :: ls')) in *.
    assert (Hwf' : lines_wf (l' :: ls'))
      by (eapply lines_wf_tail; [discriminate | exact Hwf]).
    destruct (is_delimiter_line l) eqn:Hd.
    + destruct (@message_at_delimiter_line l rest Hd) as (ts & au & Hm).
      assert (Hh : match_here message_re (l ++ nl :: rest) =
                   Some (scan_to at_boundary rest,
                         [(3, consumed rest (scan_to at_boundary rest));
                          (2, au); (1, ts)]))
        by (now rewrite match_here_message, Hm).
      rewrite finditer_unfold, (@search_here message_re _ _ _ off Hh).
      cbn [m_text m_post m_start].
      destruct (scan_to_suffix at_boundary rest) as [q Hq].
      assert (Hc : consumed (l ++ nl :: rest) (scan_to at_boundary rest)
                   = l ++ nl :: q).
      { rewrite Hq at 1.
        replace (l ++ nl :: q ++ scan_to at_boundary rest)
          with ((l ++ nl :: q) ++ scan_to at_boundary rest)
          by (list_flat; reflexivity).
        apply consumed_app. }
      rewrite Hc.
      assert (Hlen : length (scan_to at_boundary rest) <= length rest)
        by (apply is_suffix_length; now exists q).
      destruct (l ++ nl :: q) as [|x tx] eqn:Ex;
        [destruct l; discriminate|].
      cbn [length filter]. rewrite Hd. cbn [length]. f_equal.
      unfold rest at 1. rewrite (scan_lines Hwf').
      rewrite IH.
      * apply drop_body_count.
      * pose proof (drop_body_length (l' :: ls')). simpl in *. lia.
      * now apply drop_body_wf.
      * rewrite <- (scan_lines Hwf'). fold rest.
        rewrite length_app in Hf. simpl in Hf. lia.
    + assert (Hbf : bracket_free l) by (eapply lines_wf_head; eauto).
      rewrite finditer_unfold, (@search_skip_line l rest off Hbf).
      rewrite <- finditer_unfold.
      cbn [filter]. rewrite Hd. unfold rest. apply IH.
      * simpl in *. lia.
      * exact Hwf'.
      * fold rest. rewrite length_app in Hf. simpl in Hf. lia.
Qed.

Lemma well_formed_lines (doc : str) :
  well_formed doc = true -> lines_wf (doc_lines doc).
Proof.
  unfold well_formed. intros H. apply andb_prop in H. destruct H as [H1 H2].
  split; [apply split_chr_nl_free|]. split.
  - apply Forall_forall. now apply forallb_forall.
  - now destruct (is_delimiter_line (last (doc_lines doc) [])).
Qed.

Lemma finditer_count (doc : str) :
  well_formed doc = true ->
  length (re_finditer message_re doc) = count_delimiter_lines doc.
Proof.
  intros H. apply well_formed_lines in H.
  unfold re_finditer, count_delimiter_lines.
  replace (finditer_from (S (length doc)) message_re doc 0)
    with (finditer_from (S (length doc)) message_re
                        (join [nl] (doc_lines doc)) 0)
    by (unfold doc_lines; now rewrite join_split).
  apply (count_lines (n := length (doc_lines doc))); [lia | exact H |].
  unfold doc_lines. rewrite join_split. lia.
Qed.

End Lines.
(** * Counting the records when the last line may be a delimiter line *)

Section TerminatedLines.

(** A message needs the newline that ends its delimiter line. *)
Lemma search_in_line (l : str) (off : nat) :
  nl_free l -> search_from message_re l off = None.
Proof.
  assert (H : forall s, nl_free s -> match_here message_re s = None).
  { intros s Hs. rewrite match_here_message.
    destruct (message_at s) as [[[[ts au] bd] post]|] eqn:E; [|reflexivity].
    exfalso. apply message_at_inv in E. destruct E as (-> & _).
    apply Hs. right. apply in_or_app. right. right. right.
    apply in_or_app. right. now left. }
  intros Hl. apply search_none.
  - intros p1 p2 E Hp2. rewrite app_nil_r. apply H.
    intros Hin. apply Hl. rewrite E. apply in_or_app. now right.
  - apply H. intros [].
Qed.

Lemma lines_stamped_tail (l : str) (ls : list str) :
  lines_stamped (l :: ls) -> lines_stamped ls.
Proof. intros [H1 H2]. inversion H1; inversion H2; subst. now split. Qed.

Lemma lines_stamped_head (l : str) (ls : list str) :
  lines_stamped (l :: ls) -> is_delimiter_line l = false -> bracket_free l.
Proof. intros [_ H2] Hd. inversion H2; subst. now apply line_ok_cases. Qed.

Lemma drop_body_stamped (ls : list str) :
  lines_stamped ls -> lines_stamped (drop_body ls).
Proof.
  induction ls as [|l ls IH]; intros H; [exact H|]. simpl.
  destruct (is_delimiter_line l); [exact H|].
  apply IH. now apply lines_stamped_tail in H.
Qed.

Lemma drop_body_terminated (ls : list str) :
  length (filter is_delimiter_line (removelast (drop_body ls))) =
  length (filter is_delimiter_line (removelast ls)).
Proof.
  induction ls as [|l ls IH]; [reflexivity|]. cbn [drop_body].
  destruct (is_delimiter_line l) eqn:E; [reflexivity|].
  rewrite IH. destruct ls as [|l' ls']; [reflexivity|].
  change (removelast (l :: l' :: ls')) with (l :: removelast (l' :: ls')).
  cbn [filter]. now rewrite E.
Qed.

(** Skipping a body leads to the next delimiter line, the last line
    included. *)
Lemma scan_stamped (ls : list str) :
  lines_stamped ls ->
  scan_to at_boundary (join [nl] ls) = join [nl] (drop_body ls).
Proof.
  induction ls as [|l ls IH]; intros Hwf; [reflexivity|].
  destruct ls as [|l' ls'].
  - cbn [join drop_body]. destruct (is_delimiter_line l) eqn:Hd.
    + apply scan_to_here. now apply delimiter_line_boundary.
    + apply scan_last_line. now apply (lines_stamped_head Hwf).
  - rewrite (@join_cons [nl] l (l' :: ls')) by discriminate. cbn [app].
    cbn [drop_body]. destruct (is_delimiter_line l) eqn:Hd.
    + rewrite (@join_cons [nl] l (l' :: ls')) by discriminate. cbn [app].
      apply scan_to_here. apply at_boundary_iff. right.
      apply is_delimiter_line_iff in Hd.
      destruct Hd as (ts & au & Hts & _ & _ & ->).
      exists ts, (chr " " :: au ++ nl :: join [nl] (l' :: ls')).
      split; [exact Hts | list_flat; reflexivity].
    + rewrite scan_skip_line by (now apply (lines_stamped_head Hwf)).
      apply IH. now apply lines_stamped_tail in Hwf.
Qed.

Lemma count_stamped (n : nat) : forall ls,
  length ls <= n -> lines_stamped ls ->
  forall fuel off, length (join [nl] ls) < fuel ->
    length (finditer_from fuel message_re (join [nl] ls) off) =
    length (filter is_delimiter_line (removelast ls)).
Proof.
  induction n as [|n IH]; intros ls Hn Hwf fuel off Hf;
    (destruct fuel as [|f]; [lia|]).
  - destruct ls; [|simpl in Hn; lia].
    rewrite finditer_unfold. simpl join.
    now rewrite (@search_last_line [] off bracket_free_nil).
  - destruct ls as [|l ls].
    { rewrite finditer_unfold. simpl join.
      now rewrite (@search_last_line [] off bracket_free_nil). }
    destruct ls as [|l' ls'].
    { rewrite finditer_unfold. cbn [join].
      rewrite search_in_line; [reflexivity|].
      destruct Hwf as [H1 _]. now inversion H1. }
    rewrite (@join_cons [nl] l (l' :: ls')) in * by discriminate.
    cbn [app] in *.
    change (removelast (l :: l' :: ls')) with (l :: removelast (l' :: ls')).
    set (rest := join [nl] (l' :: ls')) in *.
    assert (Hwf' : lines_stamped (l' :: ls'))
      by (now apply lines_stamped_tail in Hwf).
    destruct (is_delimiter_line l) eqn:Hd.
    + destruct (@message_at_delimiter_line l rest Hd) as (ts & au & Hm).
      assert (Hh : match_here message_re (l ++ nl :: rest) =
                   Some (scan_to at_boundary rest,
                         [(3, consumed rest (scan_to at_boundary rest));
                          (2, au); (1, ts)]))
        by (now rewrite match_here_message, Hm).
      rewrite finditer_unfold, (@search_here message_re _ _ _ off Hh).
      cbn [m_text m_post m_start].
      destruct (scan_to_suffix at_boundary rest) as [q Hq].
      assert (Hc : consumed (l ++ nl :: rest) (scan_to at_boundary rest)
                   = l ++ nl :: q).
      { rewrite Hq at 1.
        replace (l ++ nl :: q ++ scan_to at_boundary rest)
          with ((l ++ nl :: q) ++ scan_to at_boundary rest)
          by (list_flat; reflexivity).
        apply consumed_app. }
      rewrite Hc.
      assert (Hlen : length (scan_to at_boundary rest) <= length rest)
        by (apply is_suffix_length; now exists q).
      destruct (l ++ nl :: q) as [|x tx] eqn:Ex;
        [destruct l; discriminate|].
      cbn [length filter]. rewrite Hd. cbn [length]. f_equal.
      unfold rest at 1. rewrite (scan_stamped Hwf').
      rewrite IH.
      * apply drop_body_terminated.
      * pose proof (drop_body_length (l' :: ls')). simpl in *. lia.
      * now apply drop_body_stamped.
      * rewrite <- (scan_stamped Hwf'). fold rest.
        rewrite length_app in Hf. simpl in Hf. lia.
    + assert (Hbf : bracket_free l) by (now apply (lines_stamped_head Hwf)).
      rewrite finditer_unfold, (@search_skip_line l rest off Hbf).
      rewrite <- finditer_unfold.
      cbn [filter]. rewrite Hd. unfold rest. apply IH.
      * simpl in *. lia.
      * exact Hwf'.
      * fold rest. rewrite length_app in Hf. simpl in Hf. lia.
Qed.

Lemma stamped_lines (doc : str) :
  stamps_in_delimiter_lines doc = true -> lines_stamped (doc_lines doc).
Proof.
  intros H. split; [apply split_chr_nl_free|].
  apply Forall_forall. now apply forallb_forall.
Qed.

(** The records are as many as the delimiter lines that a newline ends. *)
Lemma finditer_count_terminated (doc : str) :
  stamps_in_delimiter_lines doc = true ->
  length (re_finditer message_re doc) = count_terminated_delimiter_lines doc.
Proof.
  intros H. apply stamped_lines in H.
  unfold re_finditer, count_terminated_delimiter_lines.
  assert (E := @count_stamped (length (doc_lines doc)) (doc_lines doc)
                 (le_n _) H (S (length doc)) 0).
  unfold doc_lines in *. rewrite !join_split in E. apply E. lia.
Qed.

(** All delimiter lines are ended by a newline, but for the last line. *)
Lemma count_last_line (doc : str) :
  count_delimiter_lines doc =
  count_terminated_delimiter_lines doc +
  (if is_delimiter_line (last (doc_lines doc) []) then 1 else 0).
Proof.
  unfold count_delimiter_lines, count_terminated_delimiter_lines.
  assert (Hne : doc_lines doc <> []) by apply split_chr_not_nil.
  rewrite (app_removelast_last [] Hne) at 1.
  rewrite filter_app, length_app. cbn [filter].
  f_equal.
  set (b := is_delimiter_line _) at 1. set (b' := is_delimiter_line _).
  change b' with b. now destruct b.
Qed.

End TerminatedLines.


(** * Occurrences of a string in a text *)

Section Substrings.

Lemma strip_prefix_iff (p s r : str) :
  strip_prefix p s = Some r <-> s = p ++ r.
Proof.
  revert s. induction p as [|x p IH]; intros s; simpl.
  - split; [now intros [= ->] | now intros ->].
  - destruct s as [|y s]; [split; discriminate|].
    destruct (Ascii.eqb y x) eqn:E.
    + apply Ascii.eqb_eq in E. subst y. rewrite IH.
      split; [now intros -> | now intros [= ->]].
    + split; [discriminate|]. intros [= -> _].
      now rewrite Ascii.eqb_refl in E.
Qed.

Lemma strip_prefix_app (p r : str) : strip_prefix p (p ++ r) = Some r.
Proof. now apply strip_prefix_iff. Qed.

Lemma starts_with_iff (p s : str) :
  starts_with p s = true <-> exists r, s = p ++ r.
Proof.
  unfold starts_with. split.
  - destruct (strip_prefix p s) as [r|] eqn:E; [|discriminate].
    intros _. exists r. now apply strip_prefix_iff.
  - intros [r ->]. now rewrite strip_prefix_app.
Qed.

Lemma contains_iff (p s : str) : contains p s = true <-> substring p s.
Proof.
  unfold substring. induction s as [|x s IH]; simpl.
  - rewrite orb_false_r, starts_with_iff. split.
    + intros [r E]. now exists [], r.
    + intros (a & b & E). destruct a; [now exists b|discriminate].
  - rewrite orb_true_iff, starts_with_iff, IH. split.
    + intros [[r E] | (a & b & E)].
      * now exists [], r.
      * exists (x :: a), b. now rewrite E.
    + intros (a & b & E). destruct a as [|y a].
      * left. now exists b.
      * right. injection E as _ E. now exists a, b.
Qed.

Lemma contains_false (p s : str) :
  contains p s = false <-> ~ substring p s.
Proof.
  rewrite <- contains_iff. now destruct (contains p s).
Qed.

Lemma substring_app_l (p a b : str) : substring p a -> substring p (a ++ b).
Proof.
  intros (x & y & ->). exists x, (y ++ b). now rewrite <- !app_assoc.
Qed.

Lemma substring_app_r (p a b : str) : substring p b -> substring p (a ++ b).
Proof.
  intros (x & y & ->). exists (a ++ x), y. now rewrite <- !app_assoc.
Qed.

Lemma substring_trans (p q s : str) :
  substring p q -> substring q s -> substring p s.
Proof.
  intros (a & b & ->) (c & d & ->).
  exists (c ++ a), (b ++ d). now rewrite <- !app_assoc.
Qed.

(** Two texts free of [p] stay free of [p] when joined at a newline, for
    [p] without newline. *)
Lemma junction (p a b : str) :
  nl_free p -> ~ substring p a -> ~ substring p b -> nl_led b ->
  ~ substring p (a ++ b).
Proof.
  intros Hp Ha Hb Hled (x & y & E).
  apply app_eq_app in E. destruct E as [l [[E1 E2] | [E1 E2]]].
  - (* the occurrence starts inside a *)
    apply app_eq_app in E2. destruct E2 as [l' [[E3 E4] | [E3 E4]]].
    + (* and ends inside b *)
      destruct l' as [|z l'].
      * apply Ha. exists x, []. rewrite E1, E3. now rewrite !app_nil_r.
      * rewrite E4 in Hled. simpl in Hled. subst z.
        apply Hp. rewrite E3. apply in_or_app. right. now left.
    + apply Ha. exists x, l'. now rewrite E1, E3.
  - apply Hb. exists l, y. exact E2.
Qed.

Lemma lstrip_suffix (s : str) : is_suffix (lstrip s) s.
Proof.
  induction s as [|x s IH]; simpl; [apply is_suffix_refl|].
  destruct (is_space x); [|apply is_suffix_refl].
  eapply is_suffix_trans; [exact IH | apply is_suffix_cons].
Qed.

Lemma strip_substring (s : str) : substring (strip s) s.
Proof.
  unfold strip, rstrip.
  destruct (lstrip_suffix s) as [a Ha].
  destruct (lstrip_suffix (rev (lstrip s))) as [b Hb].
  exists a, (rev b). rewrite Ha at 1. f_equal.
  apply (f_equal (@rev ascii)) in Hb.
  now rewrite rev_involutive, rev_app_distr in Hb.
Qed.

Lemma line_substring (l : str) (ls : list str) :
  In l ls -> substring l (join [nl] ls).
Proof.
  induction ls as [|l0 ls IH]; intros Hin; [contradiction|].
  destruct ls as [|l1 ls].
  - destruct Hin as [-> | []]. exists [], []. simpl. now rewrite app_nil_r.
  - rewrite join_cons by discriminate. destruct Hin as [-> | Hin].
    + exists [], ([nl] ++ join [nl] (l1 :: ls)). reflexivity.
    + apply substring_app_r, substring_app_r. now apply IH.
Qed.

Lemma join_free (p : str) (ls : list str) :
  nl_free p -> p <> [] ->
  Forall (fun l => ~ substring p l) ls -> ~ substring p (join [nl] ls).
Proof.
  intros Hp Hne. induction ls as [|l ls IH]; intros H.
  - intros (a & b & E). destruct a; destruct p; try discriminate; congruence.
  - inversion H as [|? ? Hl Hls]; subst.
    destruct ls as [|l1 ls]; [exact Hl|].
    rewrite join_cons by discriminate. apply junction; try assumption.
    + cbn [app]. intros (a & b & E). destruct a as [|z a].
      * destruct p as [|z p]; [congruence|]. simpl in E. injection E as E _.
        apply Hp. left. now symmetry.
      * simpl in E. injection E as _ E. apply (IH Hls). now exists a, b.
    + reflexivity.
Qed.

End Substrings.

(** * The cleaning patterns *)

Section Cleaning.

Lemma nl_free_check (s : str) : forallb not_nl s = true -> nl_free s.
Proof.
  intros H Hin. rewrite forallb_forall in H. apply H in Hin.
  unfold not_nl in Hin. now rewrite Ascii.eqb_refl in Hin.
Qed.

Lemma stop_clean_nl_led (s : str) : stop_clean s = true -> nl_led s.
Proof.
  destruct s as [|x t]; [intros _; exact I|].
  unfold stop_clean, starts_with. cbn [strip_prefix nl_led].
  destruct (Ascii.eqb x nl) eqn:E; [|discriminate].
  intros _. now apply Ascii.eqb_eq.
Qed.

Lemma m_ahead_clean (s : str) (c : caps) (k : cont) :
  m (Ahead ((Chr nl >> Chr nl) <|> (Chr nl >> Chr (chr "[")) <|> EndZ)) s c k =
  if stop_clean s then k s c else None.
Proof.
  rewrite m_Ahead. unfold stop_clean, starts_with.
  destruct s as [|x [|y t]];
    cbn [m orelse accept strip_prefix orb];
    repeat match goal with
           | |- context [Ascii.eqb ?a ?b] => destruct (Ascii.eqb a b)
           end; reflexivity.
Qed.

Lemma firstn_length_app (a b : str) : firstn (length a) (a ++ b) = a.
Proof.
  rewrite firstn_app, Nat.sub_diag, firstn_all. simpl. apply app_nil_r.
Qed.

Lemma sub_unfold (f : nat) (r : regex) (repl s : str) :
  sub_from (S f) r repl s =
  match re_search r s with
  | None => s
  | Some mt =>
      firstn (m_start mt) s ++ repl ++
      match m_text mt, m_post mt with
      | [], [] => []
      | [], x :: p => x :: sub_from f r repl p
      | _ :: _, p => sub_from f r repl p
      end
  end.
Proof. reflexivity. Qed.

Variable mk : str.
Hypothesis mk_ne : mk <> [].
Hypothesis mk_free : nl_free mk.

Lemma match_here_clean (s : str) :
  match_here (clean_re mk) s =
  match strip_prefix mk s with
  | Some r => Some (scan_to stop_clean r, [])
  | None => None
  end.
Proof.
  unfold match_here, clean_re. rewrite m_Cat, m_Lit.
  destruct (strip_prefix mk s) as [r|]; [|reflexivity].
  rewrite m_Cat, m_star_lazy, (lazy_any_scan stop_clean).
  - rewrite m_ahead_clean.
    now rewrite (scan_to_stops stop_clean r eq_refl).
  - intros u c Hu. now rewrite m_ahead_clean, Hu.
  - intros u c Hu. now rewrite m_ahead_clean, Hu.
Qed.

Lemma clean_matches_marker (y rest : str) :
  match_here (clean_re mk) ((mk ++ y) ++ rest) <> None.
Proof.
  rewrite match_here_clean, <- app_assoc, strip_prefix_app. discriminate.
Qed.

(** The first section found: the text before it holds no marker, it begins
    with the marker, and what follows it begins with a newline. *)
Lemma clean_search_some (s : str) (mt : re_match) :
  re_search (clean_re mk) s = Some mt ->
  exists pre q,
    s = pre ++ (mk ++ q) ++ m_post mt /\
    m_text mt = mk ++ q /\ m_start mt = length pre /\
    ~ substring mk pre /\ nl_led (m_post mt).
Proof.
  intros H. apply search_some in H.
  destruct H as (pre & Hs & Hst & Hno & Hm).
  rewrite match_here_clean in Hm.
  destruct (strip_prefix mk _) as [r|] eqn:E; [|discriminate].
  injection Hm as Hpost _. apply strip_prefix_iff in E.
  destruct (scan_to_split stop_clean r) as (q & Hq & _).
  assert (Hstop := scan_to_stops stop_clean r eq_refl).
  rewrite Hpost in Hq, Hstop.
  assert (Ht : m_text mt = mk ++ q).
  { apply (app_inv_tail (m_post mt)). rewrite E, Hq at 1.
    now rewrite app_assoc. }
  exists pre, q. rewrite <- Ht. split; [exact Hs|]. split; [reflexivity|].
  split; [exact Hst|]. split; [|now apply stop_clean_nl_led].
  intros (x & y & Hpre).
  apply (@clean_matches_marker y (m_text mt ++ m_post mt)).
  apply (Hno x (mk ++ y)).
  - now rewrite Hpre.
  - destruct mk; [congruence | discriminate].
Qed.

Lemma clean_search_none (s : str) :
  re_search (clean_re mk) s = None -> ~ substring mk s.
Proof.
  intros H (x & y & Hs). apply search_none_inv in H. destruct H as [Hno _].
  apply (@clean_matches_marker y []). apply (Hno x (mk ++ y)).
  - exact Hs.
  - destruct mk; [congruence | discriminate].
Qed.

(** Removing the sections of a marker leaves no occurrence of the marker,
    keeps a leading newline, and creates no occurrence of any string that
    has no newline. *)
Lemma sub_clean (fuel : nat) : forall s,
  length s < fuel ->
  ~ substring mk (sub_from fuel (clean_re mk) [] s) /\
  (nl_led s -> nl_led (sub_from fuel (clean_re mk) [] s)) /\
  (forall p, nl_free p -> ~ substring p s ->
             ~ substring p (sub_from fuel (clean_re mk) [] s)).
Proof.
  induction fuel as [|f IH]; intros s Hlen; [lia|].
  rewrite sub_unfold.
  destruct (re_search (clean_re mk) s) as [mt|] eqn:E.
  - apply clean_search_some in E.
    destruct E as (pre & q & Hs & Ht & Hst & Hpre & Hled).
    subst s. rewrite Hst, Ht, firstn_length_app.
    destruct (mk ++ q) as [|m0 mq] eqn:Emq;
      [destruct mk; [congruence | discriminate]|].
    cbn [app].
    assert (Hpl : length (m_post mt) < f)
      by (rewrite !length_app in Hlen; simpl in Hlen; lia).
    destruct (IH (m_post mt) Hpl) as (IH1 & IH2 & IH3).
    split; [|split].
    + apply junction; auto.
    + intros Hs0. destruct pre as [|x pre]; [|exact Hs0].
      exfalso. simpl in Hs0.
      destruct mk as [|z mk']; [congruence|].
      injection Emq as -> _. apply mk_free. left. now symmetry.
    + intros p Hp Hps. apply junction; auto.
      * intros Hx. apply Hps. now apply substring_app_l.
      * apply IH3; [exact Hp|]. intros Hx. apply Hps.
        apply substring_app_r. now apply (@substring_app_r p (m0 :: mq)).
  - split; [now apply clean_search_none|]. split; [auto|auto].
Qed.

Lemma re_sub_clean (s : str) :
  ~ substring mk (re_sub (clean_re mk) [] s) /\
  (forall p, nl_free p -> ~ substring p s ->
             ~ substring p (re_sub (clean_re mk) [] s)).
Proof.
  unfold re_sub.
  destruct (@sub_clean (S (length s)) s (Nat.lt_succ_diag_r _)) as (H1 & _ & H3).
  now split.
Qed.

End Cleaning.

Section CleanText.

Lemma marker_facts (M : str) :
  In M [marker_attachments; marker_embed; marker_reactions] ->
  M <> [] /\ nl_free M.
Proof.
  intros [<- | [<- | [<- | []]]];
    (split; [discriminate | apply nl_free_check; reflexivity]).
Qed.

Lemma filter_lines_free (p s : str) (f : str -> bool) :
  ~ substring p s ->
  Forall (fun l => ~ substring p l) (filter f (split_chr nl s)).
Proof.
  intros H. apply Forall_forall. intros l Hl Hsub.
  apply filter_In in Hl. destruct Hl as [Hl _].
  apply H. apply (substring_trans Hsub).
  rewrite <- (join_split s). now apply line_substring.
Qed.

(** The cleaned text of a body holds none of the three markers. *)
Lemma clean_free (body M : str) :
  In M [marker_attachments; marker_embed; marker_reactions] ->
  ~ substring M (clean body).
Proof.
  intros HM. destruct (@marker_facts M HM) as [Hne Hfree].
  destruct (@marker_facts marker_attachments (or_introl eq_refl)) as [Ha1 Ha2].
  destruct (@marker_facts marker_embed (or_intror (or_introl eq_refl)))
    as [He1 He2].
  destruct (@marker_facts marker_reactions
              (or_intror (or_intror (or_introl eq_refl)))) as [Hr1 Hr2].
  unfold clean. intros Hsub.
  apply (fun H => substring_trans H (strip_substring _)) in Hsub.
  revert Hsub. apply join_free; [exact Hfree | exact Hne |].
  apply filter_lines_free.
  set (c1 := re_sub (clean_re \"{Attachments}") [] body).
  set (c2 := re_sub (clean_re \"{Embed}") [] c1).
  destruct HM as [<- | [<- | [<- | []]]].
  - apply (proj2 (re_sub_clean Hr1 Hr2 c2)); [exact Ha2|].
    apply (proj2 (re_sub_clean He1 He2 c1)); [exact Ha2|].
    apply (proj1 (re_sub_clean Ha1 Ha2 body)).
  - apply (proj2 (re_sub_clean Hr1 Hr2 c2)); [exact He2|].
    apply (proj1 (re_sub_clean He1 He2 c1)).
  - apply (proj1 (re_sub_clean Hr1 Hr2 c2)).
Qed.

End CleanText.

(** * Embed and reaction sections *)

Section Markers.

Variable mk : str.
Hypothesis mk_unbordered : unbordered mk.

(** Before the first occurrence of the marker, the marker does not begin. *)
Lemma marker_first (pre tail : str) :
  ~ substring mk pre ->
  forall p1 p2, pre = p1 ++ p2 -> p2 <> [] ->
    strip_prefix mk (p2 ++ mk ++ tail) = None.
Proof.
  intros Hpre p1 p2 -> Hp2.
  destruct (strip_prefix mk (p2 ++ mk ++ tail)) as [r|] eqn:E; [|reflexivity].
  exfalso. apply strip_prefix_iff in E. apply app_eq_app in E.
  destruct E as [l [[E1 E2] | [E1 E2]]].
  - apply Hpre. exists p1, l. now rewrite E1.
  - destruct mk_unbordered as (c & m' & Hmk & Hc).
    destruct l as [|z l'].
    + apply Hpre. exists p1, []. rewrite E1. now rewrite !app_nil_r.
    + destruct p2 as [|y p2']; [congruence|].
      rewrite Hmk in E1, E2. simpl in E1, E2.
      injection E1 as -> E1. injection E2 as <- _.
      apply Hc. rewrite E1. apply in_or_app. right. now left.
Qed.

End Markers.

Section Sections.

Lemma m_ahead_section (s : str) (c : caps) (k : cont) :
  m (Ahead (Chr (chr "[") <|> EndZ)) s c k =
  if stop_section s then k s c else None.
Proof.
  rewrite m_Ahead. unfold stop_section.
  destruct s as [|x t]; cbn [m orelse accept]; [reflexivity|].
  now destruct (Ascii.eqb x (chr "[")).
Qed.

Lemma match_here_section (mk s : str) :
  match_here (section_re mk) s =
  match strip_prefix mk s with
  | Some r =>
      match eat_run is_space r with
      | Some r2 =>
          Some (scan_to stop_section r2,
                [(1, consumed r2 (scan_to stop_section r2))])
      | None => None
      end
  | None => None
  end.
Proof.
  unfold match_here, section_re. rewrite m_Cat, m_Lit.
  destruct (strip_prefix mk s) as [r|]; [|reflexivity].
  rewrite m_Cat.
  destruct (eat_run is_space r) as [r2|] eqn:E; [|now apply m_plus_none].
  eapply m_plus_first; [exact E|].
  rewrite m_Cat, m_Grp, m_star_lazy, (lazy_any_scan stop_section).
  - rewrite m_ahead_section.
    now rewrite (scan_to_stops stop_section r2 eq_refl).
  - intros u c Hu. now rewrite m_ahead_section, Hu.
  - intros u c Hu. now rewrite m_ahead_section, Hu.
Qed.

End Sections.

Section MarkerShapes.

Lemma not_in_check (c : ascii) (s : str) :
  existsb (Ascii.eqb c) s = false -> ~ In c s.
Proof.
  intros H Hin. assert (E : existsb (Ascii.eqb c) s = true).
  { apply existsb_exists. exists c. split; [exact Hin | apply Ascii.eqb_refl]. }
  congruence.
Qed.

Lemma unbordered_check (p : str) :
  match p with
  | [] => false
  | c :: p' => negb (existsb (Ascii.eqb c) p')
  end = true -> unbordered p.
Proof.
  destruct p as [|c p']; [discriminate|]. intros H.
  exists c, p'. split; [reflexivity|]. apply not_in_check.
  now destruct (existsb (Ascii.eqb c) p').
Qed.

Lemma unbordered_embed : unbordered marker_embed.
Proof. apply unbordered_check. reflexivity. Qed.

Lemma unbordered_reactions : unbordered marker_reactions.
Proof. apply unbordered_check. reflexivity. Qed.

Lemma unbordered_attachments : unbordered marker_attachments.
Proof. apply unbordered_check. reflexivity. Qed.

End MarkerShapes.

(** * Attachments *)

Section Shifting.

Variable r : regex.

Lemma shift_shift (a b : nat) (mt : re_match) :
  shift a (shift b mt) = shift (a + b) mt.
Proof. unfold shift. cbn [m_start m_text m_groups m_post]. f_equal. lia. Qed.

Lemma search_shift (s : str) : forall off,
  search_from r s off = option_map (shift off) (search_from r s 0).
Proof.
  induction s as [|a t IH]; intros off; cbn [search_from].
  - destruct (match_here r []) as [[s' c]|]; [|reflexivity].
    cbn [option_map]. unfold shift. cbn [m_start m_text m_groups m_post].
    now rewrite Nat.add_0_r.
  - destruct (match_here r (a :: t)) as [[s' c]|].
    + cbn [option_map]. unfold shift. cbn [m_start m_text m_groups m_post].
      now rewrite Nat.add_0_r.
    + rewrite (IH (S off)), (IH 1).
      destruct (search_from r t 0) as [mt|]; [|reflexivity].
      cbn [option_map]. rewrite shift_shift. do 2 f_equal. lia.
Qed.

Lemma finditer_shift (f : nat) : forall s off,
  finditer_from f r s off = map (shift off) (finditer_from f r s 0).
Proof.
  induction f as [|f IH]; intros s off; [reflexivity|].
  rewrite !finditer_unfold, (search_shift s off).
  destruct (search_from r s 0) as [[st tx gs po]|]; [|reflexivity].
  cbn [option_map map]. f_equal.
  change (shift off (MkMatch st tx gs po)) with (MkMatch (off + st) tx gs po).
  cbn [m_start m_text m_groups m_post].
  destruct tx as [|x tx].
  - destruct po as [|y p]; [reflexivity|].
    rewrite (IH p (S (off + st))), (IH p (S st)), map_map.
    apply map_ext. intros u. rewrite shift_shift. f_equal. lia.
  - rewrite (IH po (off + st + length (x :: tx))),
            (IH po (st + length (x :: tx))), map_map.
    apply map_ext. intros u. rewrite shift_shift. f_equal. lia.
Qed.

End Shifting.

Section Attachments.

Lemma space_not_h (x : ascii) (t : str) :
  is_space x = true -> strip_prefix \"https://" (x :: t) = None.
Proof.
  intros Hx. destruct (strip_prefix _ _) as [u|] eqn:E; [|reflexivity].
  apply strip_prefix_iff in E. injection E as -> _. discriminate.
Qed.

Lemma match_here_attachment (s : str) :
  match_here attachment_re s =
  match strip_prefix marker_attachments s with
  | Some r1 =>
      match eat_run is_space r1 with
      | Some r2 =>
          match strip_prefix \"https://" r2 with
          | Some r3 =>
              match eat_run not_nl r3 with
              | Some post => Some (post, [(1, consumed r2 post)])
              | None => None
              end
          | None => None
          end
      | None => None
      end
  | None => None
  end.
Proof.
  unfold match_here, attachment_re. fold marker_attachments.
  rewrite m_Cat, m_Lit.
  destruct (strip_prefix marker_attachments s) as [r1|]; [|reflexivity].
  rewrite m_Cat, m_plus_rejects.
  2:{ intros x t c Hx. now rewrite m_Grp, m_Cat, m_Lit, space_not_h. }
  destruct (eat_run is_space r1) as [r2|]; [|reflexivity].
  rewrite m_Grp, m_Cat, m_Lit.
  destruct (strip_prefix \"https://" r2) as [r3|]; [|reflexivity].
  destruct (eat_run not_nl r3) as [post|] eqn:E.
  - eapply m_plus_first; [exact E | reflexivity].
  - now apply m_plus_none.
Qed.

Lemma nl_free_not_nl (u : str) :
  nl_free u -> Forall (fun a => not_nl a = true) u.
Proof.
  intros H. apply Forall_forall. intros x Hx. unfold not_nl.
  destruct (Ascii.eqb x nl) eqn:E; [|reflexivity].
  apply Ascii.eqb_eq in E. subst. contradiction.
Qed.

(** Without marker there is no attachment. *)
Lemma attachments_none (body : str) :
  ~ substring marker_attachments body -> extract_attachments body = [].
Proof.
  intros H. unfold extract_attachments, re_finditer.
  rewrite finditer_unfold, search_none; [reflexivity | | reflexivity].
  intros p1 p2 E Hp2. rewrite match_here_attachment.
  destruct (strip_prefix marker_attachments (p2 ++ [])) as [u|] eqn:Eu;
    [|reflexivity].
  exfalso. apply strip_prefix_iff in Eu. apply H.
  exists p1, u. rewrite E. rewrite app_nil_r in Eu. now rewrite Eu.
Qed.

End Attachments.

(** * The header and the channel name *)

Section ChannelName.

Variable sep : str.
Hypothesis sep_ne : sep <> [].

Lemma strip_prefix_shorter (s r : str) :
  strip_prefix sep s = Some r -> length r < length s.
Proof.
  intros H. apply strip_prefix_iff in H. subst s. rewrite length_app.
  destruct sep; [congruence | simpl; lia].
Qed.

Lemma split_aux_not_nil (f : nat) : forall s cur,
  split_str_aux f sep s cur <> [].
Proof.
  induction f as [|f IH]; intros s cur; simpl; [discriminate|].
  destruct (strip_prefix sep s); [discriminate|].
  destruct s; [discriminate | apply IH].
Qed.

Lemma last_cons_ne (x : str) (l : list str) (d : str) :
  l <> [] -> last (x :: l) d = last l d.
Proof. destruct l; [congruence | reflexivity]. Qed.

(** The last piece of a split holds no separator; it is the whole string
    when no separator was found, and otherwise it is what follows a
    separator. *)
Lemma split_last (fuel : nat) : forall s cur,
  length s < fuel ->
  (forall c1 c2, rev cur = c1 ++ c2 -> c2 <> [] ->
                 strip_prefix sep (c2 ++ s) = None) ->
  let piece := last (split_str_aux fuel sep s cur) [] in
  ~ substring sep piece /\
  (piece = rev cur ++ s \/ exists pre, s = pre ++ sep ++ piece).
Proof.
  induction fuel as [|f IH]; intros s cur Hlen Hcur; [lia|].
  cbn [split_str_aux].
  destruct (strip_prefix sep s) as [rest|] eqn:E.
  - (* a separator here: the current piece is closed *)
    assert (Hr := strip_prefix_shorter _ E).
    destruct (IH rest [] ltac:(lia)) as [H1 H2].
    { intros c1 c2 Hc. symmetry in Hc. apply app_eq_nil in Hc. tauto. }
    apply strip_prefix_iff in E.
    cbv zeta. rewrite last_cons_ne by apply split_aux_not_nil. split; [exact H1|]. right.
    destruct H2 as [H2 | [pre H2]].
    + exists []. cbn [rev app] in H2. now rewrite H2, E.
    + exists (sep ++ pre). rewrite E, <- app_assoc. f_equal. exact H2.
  - destruct s as [|x s'].
    + (* the end of the string *)
      cbn [last]. rewrite app_nil_r. split; [|now left].
      intros (a & b & Hab).
      assert (Hb : strip_prefix sep ((sep ++ b) ++ []) = None).
      { apply (Hcur a); [exact Hab|]. destruct sep; [congruence|discriminate]. }
      now rewrite <- app_assoc, strip_prefix_app in Hb.
    + (* one more character of the current piece *)
      destruct (IH s' (x :: cur) ltac:(simpl in Hlen; lia)) as [H1 H2].
      { intros c1 c2 Hc Hne. simpl in Hc.
        destruct c2 as [|y c2'] using rev_ind; [congruence|]. clear IHc2'.
        rewrite app_assoc in Hc. apply app_inj_tail in Hc.
        destruct Hc as [Hc <-]. rewrite <- app_assoc. cbn [app].
        destruct c2' as [|z c2'']; [exact E|].
        apply (Hcur c1); [exact Hc | discriminate]. }
      split; [exact H1|].
      destruct H2 as [H2 | [pre H2]].
      * left. rewrite H2. simpl. now rewrite <- app_assoc.
      * right. exists (x :: pre). cbn [app]. f_equal. exact H2.
Qed.

End ChannelName.

Section Header.

(** The channel name holds no separator; it is the captured value when
    that holds none, and otherwise it is what follows a separator in the
    captured value. *)
Lemma channel_name_spec (g : str) :
  ~ substring \" / " (channel_name g) /\
  (channel_name g = g \/ exists pre, g = pre ++ \" / " ++ channel_name g).
Proof.
  unfold channel_name, split_str.
  apply (@split_last \" / " ltac:(discriminate) (S (length g)) g []).
  - lia.
  - intros c1 c2 Hc. symmetry in Hc. apply app_eq_nil in Hc. tauto.
Qed.

Lemma parse_metadata (doc : str) :
  snd (parse_discord_data doc) = extract_header doc.
Proof. reflexivity. Qed.

End Header.
(** * The pieces of a split *)

Section SplitPieces.

Variable sep : str.
Hypothesis sep_ne : sep <> [].

(** A separator at the head of a text that begins with [u], when [u] is long
    enough, lies in [u]. *)
Lemma prefix_window (u v r : str) :
  u ++ v = sep ++ r -> length sep <= length u -> exists r', u = sep ++ r'.
Proof.
  intros E Hlen. apply app_eq_app in E.
  destruct E as [l [[E1 E2] | [E1 E2]]].
  - now exists l.
  - exists []. rewrite app_nil_r.
    destruct l; [now rewrite app_nil_r in E1 |].
    rewrite E1, length_app in Hlen. simpl in Hlen. lia.
Qed.

Lemma join_last (ps : list str) (p name : str) :
  join sep ((p :: ps) ++ [name]) = p ++ sep ++ join sep (ps ++ [name]).
Proof.
  cbn [app]. apply join_cons. now destruct ps.
Qed.

(** What [split] returns: pieces that, joined by the separator, give the
    text back; each piece but the last is followed by the first separator
    that a reading from left to right meets, and the last holds none. *)
Lemma split_pieces (fuel : nat) : forall s cur,
  length s < fuel ->
  (forall c1 c2, rev cur = c1 ++ c2 -> c2 <> [] ->
                 strip_prefix sep (c2 ++ s) = None) ->
  exists pieces name,
    split_str_aux fuel sep s cur = pieces ++ [name] /\
    rev cur ++ s = join sep (pieces ++ [name]) /\
    Forall (first_at_end sep) pieces /\
    ~ substring sep name.
Proof.
  induction fuel as [|f IH]; intros s cur Hlen Hcur; [lia|].
  cbn [split_str_aux].
  destruct (strip_prefix sep s) as [rest|] eqn:E.
  - assert (Hr := strip_prefix_shorter sep_ne _ E).
    destruct (IH rest [] ltac:(lia)) as (pieces & name & H1 & H2 & H3 & H4).
    { intros c1 c2 Hc. symmetry in Hc. apply app_eq_nil in Hc. tauto. }
    apply strip_prefix_iff in E. subst s.
    exists (rev cur :: pieces), name. rewrite H1.
    split; [reflexivity|]. split; [|split; [|exact H4]].
    + rewrite join_last. cbn [rev app] in H2. now rewrite <- H2.
    + constructor; [|exact H3].
      intros a b Hab. apply app_eq_app in Hab.
      destruct Hab as [l [[E1 E2] | [E1 E2]]].
      * destruct l as [|l0 l]; [|exfalso].
        -- apply (f_equal (@length ascii)) in E2.
           rewrite length_app in E2. cbn [app] in E2.
           destruct b; [reflexivity | simpl in E2; lia].
        -- assert (Hn := Hcur a (l0 :: l) E1 ltac:(discriminate)).
           rewrite app_assoc, <- E2, <- app_assoc, strip_prefix_app in Hn.
           discriminate.
      * apply (f_equal (@length ascii)) in E2. rewrite !length_app in E2.
        destruct b; [reflexivity | simpl in E2; lia].
  - destruct s as [|x s'].
    + exists [], (rev cur). rewrite app_nil_r.
      split; [reflexivity|]. split; [reflexivity|]. split; [constructor|].
      intros (a & b & Hab).
      assert (Hb : strip_prefix sep ((sep ++ b) ++ []) = None).
      { apply (Hcur a); [exact Hab|]. destruct sep; [congruence|discriminate]. }
      now rewrite <- app_assoc, strip_prefix_app in Hb.
    + destruct (IH s' (x :: cur) ltac:(simpl in Hlen; lia))
        as (pieces & name & H1 & H2 & H3 & H4).
      { intros c1 c2 Hc Hne. simpl in Hc.
        destruct c2 as [|y c2'] using rev_ind; [congruence|]. clear IHc2'.
        rewrite app_assoc in Hc. apply app_inj_tail in Hc.
        destruct Hc as [Hc <-]. rewrite <- app_assoc. cbn [app].
        destruct c2' as [|z c2'']; [exact E|].
        apply (Hcur c1); [exact Hc | discriminate]. }
      exists pieces, name. split; [exact H1|]. split; [|now split].
      rewrite <- H2. cbn [rev]. now rewrite <- app_assoc.
Qed.

(** The pieces so described are the only ones. *)
Lemma pieces_unique (ps : list str) : forall name ps' name',
  join sep (ps ++ [name]) = join sep (ps' ++ [name']) ->
  Forall (first_at_end sep) ps -> ~ substring sep name ->
  Forall (first_at_end sep) ps' -> ~ substring sep name' ->
  ps = ps' /\ name = name'.
Proof.
  induction ps as [|p ps IH]; intros name ps' name' E Hps Hn Hps' Hn'.
  - destruct ps' as [|p' ps']; [now split|]. exfalso.
    rewrite join_last in E. cbn [app join] in E.
    apply Hn. now exists p', (join sep (ps' ++ [name'])).
  - destruct ps' as [|p' ps'].
    + exfalso. rewrite join_last in E. cbn [app join] in E.
      apply Hn'. now exists p, (join sep (ps ++ [name])).
    + rewrite !join_last in E.
      inversion Hps as [|? ? Hp Hps1]; subst.
      inversion Hps' as [|? ? Hp' Hps1']; subst.
      apply app_eq_app in E. destruct E as [l [[E1 E2] | [E1 E2]]].
      * assert (Hl : l = []).
        { destruct (@prefix_window (l ++ sep) (join sep (ps ++ [name]))
                      (join sep (ps' ++ [name'])))
            as (r' & Hr').
          - now rewrite <- app_assoc.
          - rewrite length_app. lia.
          - assert (Hb := Hp p' r'). rewrite E1, <- app_assoc, Hr' in Hb.
            specialize (Hb eq_refl). subst r'. rewrite app_nil_r in Hr'.
            apply (f_equal (@length ascii)) in Hr'. rewrite length_app in Hr'.
            destruct l; [reflexivity | simpl in Hr'; lia]. }
        subst l. rewrite app_nil_r in E1. subst p. cbn [app] in E2.
        apply app_inv_head in E2.
        destruct (IH name ps' name' (eq_sym E2) Hps1 Hn Hps1' Hn') as [-> ->].
        now split.
      * assert (Hl : l = []).
        { destruct (@prefix_window (l ++ sep) (join sep (ps' ++ [name']))
                      (join sep (ps ++ [name])))
            as (r' & Hr').
          - now rewrite <- app_assoc.
          - rewrite length_app. lia.
          - assert (Hb := Hp' p r'). rewrite E1, <- app_assoc, Hr' in Hb.
            specialize (Hb eq_refl). subst r'. rewrite app_nil_r in Hr'.
            apply (f_equal (@length ascii)) in Hr'. rewrite length_app in Hr'.
            destruct l; [reflexivity | simpl in Hr'; lia]. }
        subst l. rewrite app_nil_r in E1. subst p'. cbn [app] in E2.
        apply app_inv_head in E2.
        destruct (IH name ps' name' E2 Hps1 Hn Hps1' Hn') as [-> ->].
        now split.
Qed.

End SplitPieces.

(** The channel name is the last of the pieces of the captured value. *)
Lemma channel_name_pieces (g : str) :
  exists pieces,
    g = join \" / " (pieces ++ [channel_name g]) /\
    Forall (first_at_end \" / ") pieces /\
    ~ substring \" / " (channel_name g).
Proof.
  unfold channel_name, split_str.
  destruct (@split_pieces \" / " ltac:(discriminate) (S (length g)) g [])
    as (pieces & name & H1 & H2 & H3 & H4).
  - lia.
  - intros c1 c2 Hc. symmetry in Hc. apply app_eq_nil in Hc. tauto.
  - exists pieces. rewrite H1, last_last. now split.
Qed.


(** * strptime on well-written timestamps *)

Section Strptime.

Lemma consumed_1 (a : ascii) (s : str) : consumed (a :: s) s = [a].
Proof. apply (consumed_app [a] s). Qed.

Lemma consumed_2 (a b : ascii) (s : str) : consumed (a :: b :: s) s = [a; b].
Proof. apply (consumed_app [a; b] s). Qed.

Ltac field_case H k x :=
  rewrite m_Grp;
  match goal with
  | |- m _ _ _ ?K = _ =>
      let K' := fresh "K" in
      let HK := fresh "HK" in
      remember K as K' eqn:HK;
      cbv - [consumed] in HK; vm_compute;
      subst K'; cbn beta;
      rewrite ?consumed_1, ?consumed_2;
      match goal with
      | |- context [k ?a ?b] =>
          replace (k a b) with (Some x) by (symmetry; exact H)
      end;
      reflexivity
  end.

(** [%m] and [%I] accept the numbers 1..12, with or without leading zero. *)
Lemma m_1_12_ok (g n : nat) (sn : str) (sep : ascii) (rest : str)
      (c : caps) (k : cont) x :
  1 <= n <= 12 -> written n sn ->
  In sep [chr "/"; chr ":"] ->
  k (sep :: rest) ((g, sn) :: c) = Some x ->
  m (Grp g re_1_12) (sn ++ sep :: rest) c k = Some x.
Proof.
  intros Hn Hw Hsep H.
  destruct Hsep as [<- | [<- | []]];
    destruct Hw as [Hlt | Hlt];
    do 13 (destruct n as [|n]; [first [lia | field_case H k x]|]); lia.
Qed.

(** [%d] accepts the numbers 1..31, with or without leading zero. *)
Lemma m_day_ok (g n : nat) (sn : str) (rest : str) (c : caps) (k : cont) x :
  1 <= n <= 31 -> written n sn ->
  k (chr "/" :: rest) ((g, sn) :: c) = Some x ->
  m (Grp g re_day) (sn ++ chr "/" :: rest) c k = Some x.
Proof.
  intros Hn Hw H.
  destruct Hw as [Hlt | Hlt];
    do 32 (destruct n as [|n]; [first [lia | field_case H k x]|]); lia.
Qed.

(** [%M] accepts the numbers 0..59, with one or two digits. *)
Lemma m_minute_ok (g n : nat) (sn : str) (rest : str) (c : caps) (k : cont) x :
  n <= 59 -> written n sn ->
  k (chr " " :: rest) ((g, sn) :: c) = Some x ->
  m (Grp g re_minute) (sn ++ chr " " :: rest) c k = Some x.
Proof.
  intros Hn Hw H.
  destruct Hw as [Hlt | Hlt];
    do 60 (destruct n as [|n]; [first [lia | field_case H k x]|]); lia.
Qed.

Lemma int_of_written (n : nat) (sn : str) :
  n <= 59 -> written n sn -> int_of sn = n.
Proof.
  intros Hn Hw.
  destruct Hw as [Hlt | Hlt];
    do 60 (destruct n as [|n]; [first [lia | reflexivity]|]); lia.
Qed.

Lemma written_head (n : nat) (sn rest : str) :
  n <= 59 -> written n sn -> drop_while is_space (sn ++ rest) = sn ++ rest.
Proof.
  intros Hn Hw.
  destruct Hw as [Hlt | Hlt];
    do 60 (destruct n as [|n]; [first [lia | reflexivity]|]); lia.
Qed.

(** ** The four digits of the year *)

Lemma code_digit_chr (n : nat) : code (digit_chr n) = 48 + n mod 10.
Proof.
  unfold digit_chr, code. apply nat_ascii_embedding.
  pose proof (Nat.mod_upper_bound n 10). lia.
Qed.

Lemma is_digit_digit_chr (n : nat) : is_digit (digit_chr n) = true.
Proof.
  unfold is_digit, in_range. rewrite code_digit_chr.
  pose proof (Nat.mod_upper_bound n 10 ltac:(lia)).
  apply andb_true_intro. split; apply Nat.leb_le; lia.
Qed.

Lemma is_space_digit_chr (n : nat) : is_space (digit_chr n) = false.
Proof.
  unfold is_space, in_range. rewrite code_digit_chr.
  pose proof (Nat.mod_upper_bound n 10 ltac:(lia)).
  remember (n mod 10) as r eqn:Hr. clear Hr.
  do 10 (destruct r as [|r]; [reflexivity|]). lia.
Qed.

Lemma m_year (g y : nat) (rest : str) (c : caps) (k : cont) :
  m (Grp g re_year) (pad4 y ++ rest) c k = k rest ((g, pad4 y) :: c).
Proof.
  rewrite m_Grp. unfold re_year.
  assert (E := consumed_app (pad4 y) rest).
  unfold pad4 in *. cbn [app] in *.
  do 3 (rewrite m_Cat, m_Cls; cbn [eat_cls]; rewrite is_digit_digit_chr).
  rewrite m_Cls. cbn [eat_cls]. rewrite is_digit_digit_chr.
  now rewrite E.
Qed.

Lemma strip_pad4 (y : nat) : strip (pad4 y) = pad4 y.
Proof.
  unfold strip, rstrip, pad4. cbn [lstrip]. rewrite is_space_digit_chr.
  cbn [rev app lstrip]. rewrite is_space_digit_chr. reflexivity.
Qed.

Lemma int_of_pad4 (y : nat) : y <= 9999 -> int_of (pad4 y) = y.
Proof.
  intros H. unfold int_of. rewrite strip_pad4. unfold pad4.
  cbn [fold_left]. rewrite !code_digit_chr.
  assert (Hy : y < 1000 * 10).
  { eapply Nat.le_lt_trans; [exact H|]. apply Nat.ltb_lt. vm_compute.
    reflexivity. }
  clear H.
  pose proof (Nat.div_mod_eq y 10).
  pose proof (Nat.div_mod_eq (y / 10) 10).
  pose proof (Nat.div_mod_eq (y / 100) 10).
  pose proof (Nat.Div0.div_div y 10 10).
  pose proof (Nat.Div0.div_div y 100 10).
  change (10 * 10) with 100 in *. change (100 * 10) with 1000 in *.
  assert (y / 1000 < 10) by (apply Nat.Div0.div_lt_upper_bound; exact Hy).
  rewrite (Nat.mod_small (y / 1000) 10) by assumption.
  lia.
Qed.

Lemma ampm_cases (ap : ascii) :
  one_of "AP" ap = true -> ap = chr "A" \/ ap = chr "P".
Proof.
  unfold one_of. cbn [existsb s2l list_ascii_of_string].
  destruct (Ascii.eqb ap "A") eqn:EA; [apply Ascii.eqb_eq in EA; now left|].
  destruct (Ascii.eqb ap "P") eqn:EP; [apply Ascii.eqb_eq in EP; now right|].
  discriminate.
Qed.

Lemma m_ampm_ok (ap : ascii) (c : caps) :
  one_of "AP" ap = true ->
  m (Plus true (Cls is_space) >> Grp 6 re_ampm) (chr " " :: [ap; chr "M"]) c
    accept =
  Some ([], (6, [ap; chr "M"]) :: c).
Proof.
  intros H. destruct (ampm_cases _ H) as [-> | ->]; reflexivity.
Qed.

(** ** The whole literal *)

Lemma match_strptime (mo d y h mi : nat) (smo sd sh smi : str) (ap : ascii) :
  1 <= mo <= 12 -> 1 <= d <= 31 -> 1 <= h <= 12 -> mi <= 59 ->
  written mo smo -> written d sd -> written h sh -> written mi smi ->
  one_of "AP" ap = true ->
  match_here strptime_re (stamp_literal smo sd (pad4 y) sh smi ap) =
  Some ([], [(6, [ap; chr "M"]); (5, smi); (4, sh); (3, pad4 y);
             (2, sd); (1, smo)]).
Proof.
  intros Hmo Hd Hh Hmi Wmo Wd Wh Wmi Hap.
  unfold match_here, strptime_re, stamp_literal.
  assert (Hh59 : h <= 59) by lia.
  rewrite m_Cat. eapply m_1_12_ok; [exact Hmo | exact Wmo | now left |].
  rewrite m_Cat, m_Chr, eat_cons.
  rewrite m_Cat. eapply m_day_ok; [exact Hd | exact Wd |].
  rewrite m_Cat, m_Chr, eat_cons.
  rewrite m_Cat, m_year.
  rewrite m_Cat. eapply m_plus_first.
  { cbn [eat_run]. change (is_space (chr " ")) with true. cbv iota.
    now rewrite (@written_head h sh _ Hh59 Wh). }
  rewrite m_Cat. eapply m_1_12_ok; [exact Hh | exact Wh | right; now left |].
  rewrite m_Cat, m_Chr, eat_cons.
  rewrite m_Cat. eapply m_minute_ok; [exact Hmi | exact Wmi |].
  now apply m_ampm_ok.
Qed.

Lemma days_in_month_le (y mo : nat) : days_in_month y mo <= 31.
Proof.
  unfold days_in_month.
  do 12 (destruct mo as [|mo]; [try lia; destruct (is_leap y); lia|]). lia.
Qed.

(** A well-written timestamp of a day that exists is parsed to that day and
    minute, the hour read on the twelve-hour clock. *)
Lemma strptime_written (mo d y h mi : nat) (smo sd sh smi : str) (ap : ascii) :
  1 <= mo <= 12 -> 1 <= d <= days_in_month y mo -> 1 <= y <= 9999 ->
  1 <= h <= 12 -> mi <= 59 ->
  written mo smo -> written d sd -> written h sh -> written mi smi ->
  one_of "AP" ap = true ->
  strptime (stamp_literal smo sd (pad4 y) sh smi ap) =
  Some (MkDatetime y mo d (hour24 h ap) mi 0).
Proof.
  intros Hmo Hd Hy Hh Hmi Wmo Wd Wh Wmi Hap.
  pose proof (days_in_month_le y mo) as Hdm.
  unfold strptime.
  rewrite (@match_strptime mo d y h mi smo sd sh smi ap) by (assumption || lia).
  cbn [grp group Nat.eqb hd].
  rewrite int_of_pad4 by lia.
  rewrite (@int_of_written mo smo), (@int_of_written d sd),
          (@int_of_written h sh), (@int_of_written mi smi)
    by (assumption || lia).
  replace (1 <=? y) with true by (symmetry; apply Nat.leb_le; lia).
  replace (1 <=? d) with true by (symmetry; apply Nat.leb_le; lia).
  replace (d <=? days_in_month y mo) with true
    by (symmetry; apply Nat.leb_le; lia).
  cbn [andb]. unfold hour24.
  destruct (ampm_cases _ Hap) as [-> | ->]; reflexivity.
Qed.

Lemma format_written (mo d y h mi : nat) (smo sd sh smi : str) (ap : ascii) :
  1 <= mo <= 12 -> 1 <= d <= days_in_month y mo -> 1 <= y <= 9999 ->
  1 <= h <= 12 -> mi <= 59 ->
  written mo smo -> written d sd -> written h sh -> written mi smi ->
  one_of "AP" ap = true ->
  format_timestamp (stamp_literal smo sd (pad4 y) sh smi ap) =
  iso_8601 y mo d (hour24 h ap) mi.
Proof.
  intros. unfold format_timestamp.
  now rewrite (@strptime_written mo d y h mi smo sd sh smi ap).
Qed.

End Strptime.

(** * The banner *)

Section Banner.

Lemma star_greedy_chr (a : ascii) (k : cont) :
  forall n s c, length s <= n ->
    star_loop true (Chr a) k n s c = greedy_cls (fun x => Ascii.eqb x a) k s c.
Proof.
  induction n as [|n IH]; intros s c Hn.
  - destruct s; [reflexivity | simpl in Hn; lia].
  - destruct s as [|x t]; [reflexivity|].
    simpl. destruct (Ascii.eqb x a); [|reflexivity].
    rewrite IH by (simpl in Hn; lia).
    now rewrite (proj2 (Nat.ltb_lt _ _) (Nat.lt_succ_diag_r (length t))).
Qed.

(** [=+] followed by something that cannot start with [=]. *)
Lemma m_rule (s : str) (c : caps) (k : cont) :
  rejects is_eq k ->
  m (Chr (chr "=") >> Plus true (Chr (chr "="))) s c k =
  match eat_rule s with Some r => k r c | None => None end.
Proof.
  intros Hk. unfold eat_rule, Plus. rewrite m_Cat, m_Chr.
  destruct (eat (chr "=") s) as [s1|]; [|reflexivity]. cbn [bind].
  rewrite m_Cat, m_Chr.
  destruct s1 as [|x t]; [reflexivity|]. cbn [eat eat_run]. unfold is_eq.
  destruct (Ascii.eqb x (chr "=")); [|reflexivity].
  rewrite m_star_unfold, star_greedy_chr by apply le_n.
  now apply greedy_rejects.
Qed.

(** [=+] at the end of the pattern: the whole run is taken. *)
Lemma m_rule_last (s : str) (c : caps) :
  m (Chr (chr "=") >> Plus true (Chr (chr "="))) s c accept =
  match eat_rule s with Some r => Some (r, c) | None => None end.
Proof.
  unfold eat_rule, Plus. rewrite m_Cat, m_Chr.
  destruct (eat (chr "=") s) as [s1|]; [|reflexivity]. cbn [bind].
  rewrite m_Cat, m_Chr.
  destruct s1 as [|x t]; [reflexivity|]. cbn [eat eat_run]. unfold is_eq.
  destruct (Ascii.eqb x (chr "=")); [|reflexivity].
  rewrite m_star_unfold, star_greedy_chr by apply le_n.
  now apply greedy_first.
Qed.

Lemma consumed_drop_while (p : ascii -> bool) (s : str) :
  consumed s (drop_while p s) = take_while p s.
Proof.
  rewrite <- (take_drop_while p s) at 1. apply consumed_app.
Qed.

(** A labelled line; the dot excludes the newline. *)
Lemma m_field (label : str) (n : nat) (r : regex) (s : str) (c : caps) (k : cont) :
  m (Lit label >> Grp n (Star true (Cls not_nl)) >> Chr nl >> r) s c k =
  match eat_field label s with
  | Some (v, s') => m r s' ((n, v) :: c) k
  | None => None
  end.
Proof.
  unfold eat_field. rewrite m_Cat, m_Lit.
  destruct (strip_prefix label s) as [s1|]; [|reflexivity].
  rewrite m_Cat, m_Grp, m_star_greedy, greedy_rejects.
  - rewrite m_Cat, m_Chr, consumed_drop_while.
    now destruct (eat nl (drop_while not_nl s1)).
  - intros a t c' Ha. rewrite m_Cat, m_Chr. cbn [eat].
    unfold not_nl in Ha. apply negb_true_iff in Ha. now rewrite Ha.
Qed.

Lemma m_rule_then (r : regex) (s : str) (c : caps) (k : cont) :
  rejects is_eq (fun s' c' => m r s' c' k) ->
  m (Chr (chr "=") >> Plus true (Chr (chr "=")) >> r) s c k =
  match eat_rule s with Some s1 => m r s1 c k | None => None end.
Proof.
  intros Hk.
  change (m (Chr (chr "=") >> Plus true (Chr (chr "=")) >> r) s c k)
    with (m (Chr (chr "=") >> Plus true (Chr (chr "="))) s c
            (fun s' c' => m r s' c' k)).
  now rewrite m_rule.
Qed.

Lemma match_here_header (s : str) :
  match_here header_re s =
  match header_at s with
  | Some (g, c, t, post) => Some (post, [(3, t); (2, c); (1, g)])
  | None => None
  end.
Proof.
  unfold match_here, header_re, header_at.
  rewrite m_rule_then.
  2:{ intros a t c Ha. rewrite m_Cat, m_Chr. cbn [eat].
      unfold is_eq in Ha. apply Ascii.eqb_eq in Ha. now subst a. }
  destruct (eat_rule s) as [s0|]; [|reflexivity]. cbn [bind].
  rewrite m_Cat, m_Chr.
  destruct (eat nl s0) as [s1|]; [|reflexivity].
  rewrite m_field. destruct (eat_field _ s1) as [[g s2]|]; [|reflexivity].
  rewrite m_field. destruct (eat_field _ s2) as [[c s3]|]; [|reflexivity].
  rewrite m_field. destruct (eat_field _ s3) as [[t s4]|]; [|reflexivity].
  rewrite m_rule_last. now destruct (eat_rule s4).
Qed.

Lemma eat_rule_inv (s r : str) :
  eat_rule s = Some r ->
  exists eqs, s = chr "=" :: chr "=" :: eqs ++ r /\
              Forall (fun a => is_eq a = true) eqs /\
              match r with [] => True | y :: _ => is_eq y = false end.
Proof.
  unfold eat_rule. intros H.
  destruct (eat (chr "=") s) as [s1|] eqn:E1; [|discriminate].
  apply eat_inv in E1. cbn [bind] in H. apply eat_run_inv in H.
  destruct H as (run & -> & Hne & Hall & Hr).
  destruct run as [|x run]; [congruence|].
  inversion Hall as [|? ? Hx Hall']; subst.
  unfold is_eq in Hx. apply Ascii.eqb_eq in Hx. subst x.
  exists run. repeat split; assumption.
Qed.

Lemma eat_rule_app (eqs r : str) :
  Forall (fun a => is_eq a = true) eqs ->
  match r with [] => True | y :: _ => is_eq y = false end ->
  eat_rule (chr "=" :: chr "=" :: eqs ++ r) = Some r.
Proof.
  intros Hall Hr. unfold eat_rule. cbn [eat]. rewrite Ascii.eqb_refl. cbn [bind].
  apply (@eat_run_app is_eq (chr "=" :: eqs) r); [discriminate | | exact Hr].
  constructor; [reflexivity | exact Hall].
Qed.

Lemma take_while_nl_free (s : str) : nl_free (take_while not_nl s).
Proof.
  intros Hin. assert (H := take_while_all not_nl s).
  rewrite Forall_forall in H. apply H in Hin. discriminate.
Qed.

Lemma eat_field_inv (label s v r : str) :
  eat_field label s = Some (v, r) -> s = label ++ v ++ nl :: r /\ nl_free v.
Proof.
  unfold eat_field. intros H.
  destruct (strip_prefix label s) as [s1|] eqn:E1; [|discriminate].
  apply strip_prefix_iff in E1.
  destruct (eat nl (drop_while not_nl s1)) as [r'|] eqn:E2; [|discriminate].
  injection H as <- <-. apply eat_inv in E2. split.
  - rewrite E1. f_equal. rewrite <- E2. symmetry. apply take_drop_while.
  - apply take_while_nl_free.
Qed.

Lemma take_while_app (p : ascii -> bool) (run rest : str) :
  Forall (fun a => p a = true) run ->
  match rest with [] => True | y :: _ => p y = false end ->
  take_while p (run ++ rest) = run.
Proof.
  intros Hall Hr. induction Hall as [|x run Hx _ IH].
  - destruct rest as [|y rest]; [reflexivity | simpl; now rewrite Hr].
  - simpl. now rewrite Hx, IH.
Qed.

Lemma eat_field_app (label v r : str) :
  nl_free v -> eat_field label (label ++ v ++ nl :: r) = Some (v, r).
Proof.
  intros Hv. unfold eat_field. rewrite strip_prefix_app.
  assert (Hall := nl_free_not_nl Hv).
  rewrite (@drop_while_app not_nl v (nl :: r) Hall eq_refl).
  rewrite (@take_while_app not_nl v (nl :: r) Hall eq_refl).
  cbn [eat]. now rewrite Ascii.eqb_refl.
Qed.

Lemma header_at_inv (s g c t post : str) :
  header_at s = Some (g, c, t, post) ->
  nl_free g /\ nl_free c /\ nl_free t /\
  exists e1 e2,
    Forall (fun a => is_eq a = true) e1 /\ Forall (fun a => is_eq a = true) e2 /\
    s = \"==" ++ e1 ++ nl :: \"Guild: " ++ g ++ nl :: \"Channel: " ++ c ++
        nl :: \"Topic: " ++ t ++ nl :: \"==" ++ e2 ++ post.
Proof.
  unfold header_at. intros H.
  destruct (eat_rule s >>= eat nl) as [s1|] eqn:E0; [|discriminate].
  destruct (eat_field _ s1) as [[g' s2]|] eqn:E1; [|discriminate].
  destruct (eat_field _ s2) as [[c' s3]|] eqn:E2; [|discriminate].
  destruct (eat_field _ s3) as [[t' s4]|] eqn:E3; [|discriminate].
  destruct (eat_rule s4) as [post'|] eqn:E4; [|discriminate].
  injection H as -> -> -> ->.
  destruct (eat_rule s) as [s0|] eqn:E; [|discriminate]. cbn [bind] in E0.
  apply eat_inv in E0. apply eat_rule_inv in E. destruct E as (e1 & Hs & He1 & _).
  apply eat_rule_inv in E4. destruct E4 as (e2 & Hs4 & He2 & _).
  apply eat_field_inv in E1, E2, E3.
  destruct E1 as [H1 Hg], E2 as [H2 Hc], E3 as [H3 Ht].
  repeat split; try assumption.
  exists e1, e2. repeat split; try assumption.
  rewrite Hs, E0, H1, H2, H3, Hs4. list_flat. reflexivity.
Qed.

(** A banner at the head of the text is read as it is written. *)
Lemma header_at_banner (e1 g c t rest : str) :
  Forall (fun a => is_eq a = true) e1 ->
  nl_free g -> nl_free c -> nl_free t ->
  exists post,
    header_at (\"==" ++ e1 ++ nl :: \"Guild: " ++ g ++ nl :: \"Channel: " ++ c ++
               nl :: \"Topic: " ++ t ++ nl :: \"==" ++ rest) =
    Some (g, c, t, post).
Proof.
  intros He1 Hg Hc Ht. unfold header_at.
  change (\"==" ++ e1 ++ ?x) with (chr "=" :: chr "=" :: e1 ++ x).
  rewrite eat_rule_app; [|exact He1|reflexivity]. cbn [bind eat].
  rewrite Ascii.eqb_refl.
  rewrite (@eat_field_app \"Guild: " g _ Hg).
  rewrite (@eat_field_app \"Channel: " c _ Hc).
  rewrite (@eat_field_app \"Topic: " t _ Ht).
  change (\"==" ++ rest) with (chr "=" :: chr "=" :: rest).
  rewrite <- (take_drop_while is_eq rest).
  rewrite eat_rule_app.
  - eexists. reflexivity.
  - apply take_while_all.
  - apply drop_while_head.
Qed.

(** The leftmost banner begins at the first equals sign that starts one. *)
Lemma no_header_without_eq (pre rest : str) :
  ~ In (chr "=") pre -> no_match_in header_re pre rest.
Proof.
  intros Hpre p1 p2 E Hne. rewrite match_here_header. unfold header_at, eat_rule.
  destruct p2 as [|x p2]; [congruence|]. cbn [app eat].
  destruct (Ascii.eqb x (chr "=")) eqn:Ex; [|reflexivity].
  exfalso. apply Hpre. rewrite E. apply in_or_app. right. left.
  symmetry. now apply Ascii.eqb_eq.
Qed.

Lemma extract_header_banner (pre e1 g c t rest : str) :
  ~ In (chr "=") pre ->
  Forall (fun a => is_eq a = true) e1 ->
  nl_free g -> nl_free c -> nl_free t ->
  extract_header
    (pre ++ \"==" ++ e1 ++ nl :: \"Guild: " ++ g ++ nl :: \"Channel: " ++ c ++
     nl :: \"Topic: " ++ t ++ nl :: \"==" ++ rest) =
  MkMetadata (Some g) (Some (channel_name c)) (Some t).
Proof.
  intros Hpre He1 Hg Hc Ht.
  destruct (@header_at_banner e1 g c t rest He1 Hg Hc Ht) as (post & Hh).
  unfold extract_header, re_search.
  rewrite (@search_skip header_re pre _ 0 (@no_header_without_eq pre _ Hpre)).
  rewrite (@search_here header_re _ post [(3, t); (2, c); (1, g)]);
    [reflexivity|].
  now rewrite match_here_header, Hh.
Qed.

Lemma extract_header_fields (doc : str) :
  extract_header doc = MkMetadata None None None \/
  exists g c t,
    extract_header doc = MkMetadata (Some g) (Some (channel_name c)) (Some t) /\
    nl_free g /\ nl_free c /\ nl_free t /\
    substring (nl :: \"Guild: " ++ g ++ nl :: \"Channel: " ++ c ++
               nl :: \"Topic: " ++ t ++ nl :: \"==") doc.
Proof.
  unfold extract_header.
  destruct (re_search header_re doc) as [h|] eqn:E; [right | now left].
  apply search_some in E. destruct E as (pre & Hdoc & _ & _ & Hm).
  rewrite match_here_header in Hm.
  destruct (header_at _) as [[[[g c] t] post]|] eqn:Eh; [|discriminate].
  injection Hm as Hpost Hg. rewrite <- Hg. cbn [grp group Nat.eqb].
  apply header_at_inv in Eh.
  destruct Eh as (Hng & Hnc & Hnt & e1 & e2 & _ & _ & Hs).
  exists g, c, t. repeat split; try assumption.
  exists (pre ++ \"==" ++ e1), (e2 ++ post).
  rewrite Hdoc, Hs. list_flat. reflexivity.
Qed.

Lemma channel_name_plain (g : str) :
  ~ substring \" / " g -> channel_name g = g.
Proof.
  intros Hno. destruct (channel_name_spec g) as [_ [H | (pre & H)]]; [exact H|].
  exfalso. apply Hno. now exists pre, (channel_name g).
Qed.

End Banner.

(** * Stripping and blank lines *)

Section Stripping.

Lemma lstrip_drop (s : str) : lstrip s = drop_while is_space s.
Proof.
  induction s as [|x s IH]; simpl; [reflexivity|].
  now destruct (is_space x).
Qed.

Lemma lstrip_head (s : str) :
  match lstrip s with [] => True | x :: _ => is_space x = false end.
Proof. rewrite lstrip_drop. apply drop_while_head. Qed.

Lemma lstrip_fixed (x : ascii) (s : str) :
  is_space x = false -> lstrip (x :: s) = x :: s.
Proof. intros H. simpl. now rewrite H. Qed.

Lemma lstrip_idem (s : str) : lstrip (lstrip s) = lstrip s.
Proof.
  assert (H := lstrip_head s). destruct (lstrip s) as [|x t]; [reflexivity|].
  now apply (@lstrip_fixed x t).
Qed.

Lemma lstrip_nil (s : str) : lstrip s = [] <-> has_nonspace s = false.
Proof.
  induction s as [|x s IH]; simpl; [tauto|].
  destruct (is_space x); simpl; [exact IH|]. split; discriminate.
Qed.

(** What is stripped on the left, and what on the right. *)
Lemma lstrip_split (s : str) :
  exists a, s = a ++ lstrip s /\ Forall (fun c => is_space c = true) a.
Proof.
  exists (take_while is_space s). rewrite lstrip_drop. split.
  - symmetry. apply take_drop_while.
  - apply take_while_all.
Qed.

Lemma rstrip_split (s : str) :
  exists b, s = rstrip s ++ b /\ Forall (fun c => is_space c = true) b.
Proof.
  unfold rstrip. destruct (lstrip_split (rev s)) as (a & Ha & Hall).
  exists (rev a). split.
  - rewrite <- rev_app_distr, <- Ha. symmetry. apply rev_involutive.
  - apply Forall_rev. exact Hall.
Qed.

(** Stripping on the right keeps a first character that is not white space. *)
Lemma rstrip_keeps_head (x : ascii) (s : str) :
  is_space x = false -> exists u, rstrip (x :: s) = x :: u.
Proof.
  intros Hx. unfold rstrip. simpl rev.
  assert (H : exists v, lstrip (rev s ++ [x]) = v ++ [x]).
  { induction (rev s) as [|y r IH]; simpl.
    - rewrite Hx. now exists [].
    - destruct (is_space y); [exact IH|]. now exists (y :: r). }
  destruct H as (v & ->). exists (rev v). now rewrite rev_app_distr.
Qed.

Lemma rstrip_idem (s : str) : rstrip (rstrip s) = rstrip s.
Proof. unfold rstrip. now rewrite rev_involutive, lstrip_idem. Qed.

Lemma strip_head (s : str) :
  match strip s with [] => True | x :: _ => is_space x = false end.
Proof.
  unfold strip. assert (H := lstrip_head s).
  destruct (lstrip s) as [|x t]; [exact I|].
  destruct (@rstrip_keeps_head x t H) as (u & ->). exact H.
Qed.

(** [s.strip().strip() == s.strip()] *)
Lemma strip_idem (s : str) : strip (strip s) = strip s.
Proof.
  assert (H := strip_head s). unfold strip at 1.
  destruct (strip s) as [|x t] eqn:E; [reflexivity|].
  rewrite (@lstrip_fixed x t H), <- E. unfold strip. apply rstrip_idem.
Qed.

Lemma nonblank_has_nonspace (l : str) : nonblank l = has_nonspace l.
Proof.
  unfold nonblank, strip. destruct (has_nonspace l) eqn:E.
  - assert (H := lstrip_head l). destruct (lstrip l) as [|x t] eqn:El.
    + apply lstrip_nil in El. congruence.
    + destruct (@rstrip_keeps_head x t H) as (u & ->). reflexivity.
  - apply lstrip_nil in E. now rewrite E.
Qed.

(** [lines_ok] on the lines of a text. *)
Lemma lines_ok_split (s : str) : forall seen,
  lines_ok seen s =
  match split_chr nl s with
  | l :: ls => (seen || nonblank l) && forallb nonblank ls
  | [] => false
  end.
Proof.
  induction s as [|x s IH]; intros seen.
  - cbn. now rewrite orb_false_r, andb_true_r.
  - cbn [lines_ok split_chr]. destruct (Ascii.eqb x nl) eqn:Ex.
    + rewrite IH. destruct (split_chr nl s) as [|l ls] eqn:El.
      * now destruct (split_chr_not_nil nl s).
      * cbn [forallb]. change (nonblank []) with false.
        now rewrite orb_false_r.
    + rewrite IH. destruct (split_chr nl s) as [|l ls] eqn:El.
      * now destruct (split_chr_not_nil nl s).
      * rewrite !nonblank_has_nonspace. cbn [has_nonspace existsb].
        now rewrite orb_assoc.
Qed.

Lemma lines_ok_lines (s : str) :
  lines_ok false s = true <->
  Forall (fun l => nonblank l = true) (split_chr nl s).
Proof.
  rewrite lines_ok_split.
  destruct (split_chr nl s) as [|l ls] eqn:E;
    [now destruct (split_chr_not_nil nl s)|].
  simpl. rewrite andb_true_iff, forallb_forall, Forall_forall. split.
  - intros [Hl Hls] x [<- | Hx]; [exact Hl | now apply Hls].
  - intros H. split; [apply H; now left|]. intros x Hx. apply H. now right.
Qed.

Lemma lines_ok_drop_head (x : ascii) (s : str) :
  is_space x = true -> lines_ok false (x :: s) = true -> lines_ok false s = true.
Proof.
  intros Hx. simpl. destruct (Ascii.eqb x nl); [discriminate|].
  now rewrite Hx.
Qed.

Lemma lines_ok_drop_last (x : ascii) (s : str) : forall seen,
  is_space x = true -> lines_ok seen (s ++ [x]) = true -> lines_ok seen s = true.
Proof.
  induction s as [|y s IH]; intros seen Hx; simpl.
  - destruct (Ascii.eqb x nl); [now rewrite andb_false_r|].
    now rewrite Hx, orb_false_r.
  - destruct (Ascii.eqb y nl).
    + rewrite !andb_true_iff. intros [H1 H2]. split; [exact H1|]. now apply IH.
    + now apply IH.
Qed.

Lemma lines_ok_lstrip (a s : str) :
  Forall (fun c => is_space c = true) a ->
  lines_ok false (a ++ s) = true -> lines_ok false s = true.
Proof.
  induction 1 as [|x a Hx _ IH]; [trivial|].
  intros H. apply IH. now apply (@lines_ok_drop_head x (a ++ s) Hx).
Qed.

Lemma lines_ok_rstrip (b s : str) :
  Forall (fun c => is_space c = true) b ->
  lines_ok false (s ++ b) = true -> lines_ok false s = true.
Proof.
  induction b as [|x b IH] using rev_ind; intros Hall H.
  - now rewrite app_nil_r in H.
  - apply Forall_app in Hall. destruct Hall as [Hb Hx].
    inversion Hx as [|? ? Hx' _]; subst.
    apply IH; [exact Hb|]. apply (@lines_ok_drop_last x (s ++ b) false Hx').
    now rewrite <- app_assoc.
Qed.

Lemma lines_ok_strip (s : str) :
  lines_ok false s = true -> lines_ok false (strip s) = true.
Proof.
  intros H. unfold strip.
  destruct (lstrip_split s) as (a & Ha & Hall).
  destruct (rstrip_split (lstrip s)) as (b & Hb & Hallb).
  apply (@lines_ok_rstrip b _ Hallb). rewrite <- Hb.
  apply (@lines_ok_lstrip a _ Hall). now rewrite <- Ha.
Qed.

Lemma split_chr_line (l : str) : nl_free l -> split_chr nl l = [l].
Proof.
  induction l as [|x l IH]; intros Hl; [reflexivity|].
  apply nl_free_cons in Hl. destruct Hl as [Hx Hl]. simpl.
  destruct (Ascii.eqb x nl) eqn:Ex; [apply Ascii.eqb_eq in Ex; congruence|].
  now rewrite (IH Hl).
Qed.

Lemma split_chr_line_app (l s : str) :
  nl_free l -> split_chr nl (l ++ nl :: s) = l :: split_chr nl s.
Proof.
  induction l as [|x l IH]; intros Hl.
  - reflexivity.
  - apply nl_free_cons in Hl. destruct Hl as [Hx Hl]. simpl.
    destruct (Ascii.eqb x nl) eqn:Ex; [apply Ascii.eqb_eq in Ex; congruence|].
    now rewrite (IH Hl).
Qed.

(** [sep.join(ls).split(sep) == ls] for lines without newline. *)
Lemma split_join (ls : list str) :
  ls <> [] -> Forall nl_free ls -> split_chr nl (join [nl] ls) = ls.
Proof.
  intros Hne Hfree. induction ls as [|l ls IH]; [congruence|].
  inversion Hfree as [|? ? Hl Hls]; subst.
  destruct ls as [|l' ls]; [now apply split_chr_line|].
  rewrite join_cons by discriminate. cbn [app].
  rewrite (split_chr_line_app _ Hl). f_equal. apply IH; [discriminate | exact Hls].
Qed.

(** Non-blank lines, joined, are a text whose lines are not blank. *)
Lemma lines_ok_join (ls : list str) :
  ls <> [] -> Forall nl_free ls -> Forall (fun l => nonblank l = true) ls ->
  lines_ok false (join [nl] ls) = true.
Proof.
  intros Hne Hfree Hnb. apply lines_ok_lines. now rewrite split_join.
Qed.

End Stripping.

(** * The cleaned text *)

Section CleanedText.

(** A pattern that begins with a literal finds nothing in a text that does
    not hold the literal. *)
Lemma search_needs (r : regex) (mk s : str) (off : nat) :
  mk <> [] ->
  (forall x, strip_prefix mk x = None -> match_here r x = None) ->
  ~ substring mk s -> search_from r s off = None.
Proof.
  intros Hne Hr Hs. apply search_none.
  - intros p1 p2 E _. apply Hr.
    destruct (strip_prefix mk (p2 ++ [])) as [u|] eqn:Eu; [|reflexivity].
    exfalso. apply strip_prefix_iff in Eu. apply Hs.
    exists p1, u. rewrite E. rewrite app_nil_r in Eu. now rewrite Eu.
  - apply Hr. destruct mk; [congruence | reflexivity].
Qed.

Lemma clean_needs (mk x : str) :
  strip_prefix mk x = None -> match_here (clean_re mk) x = None.
Proof. intros H. now rewrite match_here_clean, H. Qed.

Lemma section_needs (mk x : str) :
  strip_prefix mk x = None -> match_here (section_re mk) x = None.
Proof. intros H. now rewrite match_here_section, H. Qed.

(** Nothing is removed from a text that does not hold the marker. *)
Lemma sub_none (mk s : str) :
  mk <> [] -> ~ substring mk s -> re_sub (clean_re mk) [] s = s.
Proof.
  intros Hne Hs. unfold re_sub. rewrite sub_unfold. unfold re_search.
  now rewrite (@search_needs (clean_re mk) mk s 0 Hne (clean_needs mk) Hs).
Qed.

Lemma section_none (mk s : str) :
  mk <> [] -> ~ substring mk s -> re_search (section_re mk) s = None.
Proof.
  intros Hne Hs.
  exact (@search_needs (section_re mk) mk s 0 Hne (section_needs mk) Hs).
Qed.

Lemma filter_nonblank_lines (s : str) :
  Forall nl_free (filter nonblank (split_chr nl s)) /\
  Forall (fun l => nonblank l = true) (filter nonblank (split_chr nl s)).
Proof.
  split; apply Forall_forall; intros l Hl; apply filter_In in Hl.
  - destruct Hl as [Hl _]. assert (H := split_chr_nl_free s).
    rewrite Forall_forall in H. now apply H.
  - now destruct Hl.
Qed.

(** The last two steps of the cleaning: the blank lines are dropped and the
    result is stripped. *)
Lemma tidy_lines (s : str) :
  let t := strip (join [nl] (filter nonblank (split_chr nl s))) in
  strip t = t /\
  (t = [] \/ Forall (fun l => nonblank l = true) (split_chr nl t)).
Proof.
  intros t. split; [apply strip_idem|].
  destruct (filter_nonblank_lines s) as [Hfree Hnb].
  destruct (filter nonblank (split_chr nl s)) as [|l ls] eqn:E.
  - left. reflexivity.
  - right. apply lines_ok_lines. apply lines_ok_strip.
    apply lines_ok_join; [discriminate | exact Hfree | exact Hnb].
Qed.

Lemma clean_tidy (body : str) :
  strip (clean body) = clean body /\
  (clean body = [] \/
   Forall (fun l => nonblank l = true) (split_chr nl (clean body))).
Proof. unfold clean. apply tidy_lines. Qed.

(** A body without marker is only tidied. *)
Lemma clean_plain (body : str) :
  ~ substring marker_attachments body -> ~ substring marker_embed body ->
  ~ substring marker_reactions body ->
  clean body = strip (join [nl] (filter nonblank (split_chr nl body))).
Proof.
  intros Ha He Hr. unfold clean.
  fold marker_attachments marker_embed marker_reactions.
  rewrite (@sub_none marker_attachments body) by (discriminate || exact Ha).
  rewrite (@sub_none marker_embed body) by (discriminate || exact He).
  rewrite (@sub_none marker_reactions body) by (discriminate || exact Hr).
  reflexivity.
Qed.

(** A text already tidied is left as it is. *)
Lemma tidy_fixed (t : str) :
  strip t = t ->
  (t = [] \/ Forall (fun l => nonblank l = true) (split_chr nl t)) ->
  strip (join [nl] (filter nonblank (split_chr nl t))) = t.
Proof.
  intros Hs [-> | Hl]; [reflexivity|].
  assert (E : filter nonblank (split_chr nl t) = split_chr nl t).
  { apply forallb_filter_id. apply forallb_forall.
    rewrite Forall_forall in Hl. exact Hl. }
  now rewrite E, join_split.
Qed.

(** Cleaning a cleaned text changes nothing. *)
Lemma clean_idem (body : str) : clean (clean body) = clean body.
Proof.
  destruct (clean_tidy body) as [Hs Hl].
  rewrite clean_plain.
  - now apply tidy_fixed.
  - apply clean_free. simpl. auto.
  - apply clean_free. simpl. auto.
  - apply clean_free. simpl. auto.
Qed.

(** Cleaning creates no occurrence of a string without newline. *)
Lemma clean_keeps_absent (p body : str) :
  nl_free p -> p <> [] -> ~ substring p body -> ~ substring p (clean body).
Proof.
  intros Hfree Hne Hb.
  destruct (@marker_facts marker_attachments (or_introl eq_refl)) as [Ha1 Ha2].
  destruct (@marker_facts marker_embed (or_intror (or_introl eq_refl)))
    as [He1 He2].
  destruct (@marker_facts marker_reactions
              (or_intror (or_intror (or_introl eq_refl)))) as [Hr1 Hr2].
  unfold clean. intros Hsub.
  apply (fun H => substring_trans H (strip_substring _)) in Hsub.
  revert Hsub. apply join_free; [exact Hfree | exact Hne |].
  apply filter_lines_free.
  apply (proj2 (re_sub_clean Hr1 Hr2 _)); [exact Hfree|].
  apply (proj2 (re_sub_clean He1 He2 _)); [exact Hfree|].
  apply (proj2 (re_sub_clean Ha1 Ha2 _)); [exact Hfree|].
  exact Hb.
Qed.

Lemma clean_pieces (p body : str) :
  nl_free p -> substring p (clean body) -> substring p body.
Proof.
  intros Hfree Hsub. destruct p as [|x p]; [now exists [], body|].
  destruct (contains (x :: p) body) eqn:E; [now apply contains_iff|].
  apply contains_false in E. exfalso.
  revert Hsub. apply clean_keeps_absent; [exact Hfree | discriminate | exact E].
Qed.

End CleanedText.
(** * The usual layout: sections after the text, up to the end *)

Section UsualLayout.

Lemma unbroken_substring (p s : str) : substring p s -> unbroken s -> unbroken p.
Proof.
  intros Hp [H1 H2]. split; intros H.
  - apply H1. exact (substring_trans H Hp).
  - apply H2. exact (substring_trans H Hp).
Qed.

(** In an unbroken text the lazy scan of a cleaning pattern runs to the end. *)
Lemma scan_unbroken (s : str) : unbroken s -> scan_to stop_clean s = [].
Proof.
  induction s as [|x s IH]; intros Hs; [reflexivity|].
  assert (Hstop : stop_clean (x :: s) = false).
  { unfold stop_clean. destruct Hs as [H1 H2].
    destruct (starts_with [nl; nl] (x :: s)) eqn:E1.
    { exfalso. apply H1. apply starts_with_iff in E1. destruct E1 as (r & E1).
      exists [], r. exact E1. }
    destruct (starts_with [nl; chr "["] (x :: s)) eqn:E2; [|reflexivity].
    exfalso. apply H2. apply starts_with_iff in E2. destruct E2 as (r & E2).
    exists [], r. exact E2. }
  cbn [scan_to]. rewrite Hstop. apply IH.
  apply (@unbroken_substring s (x :: s)); [|exact Hs].
  exists [x], []. cbn [app]. now rewrite app_nil_r.
Qed.

Lemma sub_from_nil (mk : str) (fuel : nat) :
  mk <> [] -> sub_from fuel (clean_re mk) [] [] = [].
Proof.
  intros Hne. destruct fuel as [|f]; [reflexivity|]. rewrite sub_unfold.
  unfold re_search. cbn [search_from]. rewrite match_here_clean.
  destruct mk; [congruence | reflexivity].
Qed.

Lemma consumed_nil (s : str) : consumed s [] = s.
Proof. rewrite <- (app_nil_r s) at 1. apply consumed_app. Qed.

(** A section that begins where no earlier one does and is followed by
    unbroken text is removed with all that follows it. *)
Lemma sub_to_end (mk a b : str) :
  mk <> [] -> no_match_in (clean_re mk) a (mk ++ b) -> unbroken b ->
  re_sub (clean_re mk) [] (a ++ mk ++ b) = a.
Proof.
  intros Hne Hno Hb. unfold re_sub. rewrite sub_unfold. unfold re_search.
  rewrite (search_skip 0 Hno).
  rewrite (@search_here (clean_re mk) (mk ++ b) [] [] (0 + length a)).
  - cbn [m_start m_text m_post]. rewrite consumed_nil.
    change (0 + length a) with (length a). rewrite firstn_length_app.
    destruct (mk ++ b) as [|x t] eqn:E; [destruct mk; [congruence | discriminate]|].
    rewrite sub_from_nil by exact Hne. now rewrite app_nil_r.
  - now rewrite match_here_clean, strip_prefix_app, (scan_unbroken Hb).
Qed.

Lemma no_clean_match (mk a rest : str) :
  (forall p1 p2, a = p1 ++ p2 -> p2 <> [] -> strip_prefix mk (p2 ++ rest) = None) ->
  no_match_in (clean_re mk) a rest.
Proof.
  intros H p1 p2 E Hne. rewrite match_here_clean. now rewrite (H p1 p2 E Hne).
Qed.

(** The section of the first marker of its kind, followed by unbroken text. *)
Lemma sub_first_marker (mk pre rest : str) :
  unbordered mk -> ~ substring mk pre -> unbroken rest ->
  re_sub (clean_re mk) [] (pre ++ mk ++ rest) = pre.
Proof.
  intros Hu Hpre Hrest. apply sub_to_end; [| |exact Hrest].
  - destruct Hu as (c & p' & -> & _). discriminate.
  - apply no_clean_match. now apply marker_first.
Qed.

(** Where a marker occurs in a text that begins, after [pre], with another
    marker: not before the end of that marker. *)
Lemma marker_position (c : ascii) (k' m' pre r pre' u : str) :
  ~ In c k' -> ~ In c m' ->
  (forall x y, (c :: k') ++ x <> (c :: m') ++ y) ->
  ~ substring (c :: k') pre ->
  pre ++ (c :: m') ++ r = pre' ++ (c :: k') ++ u ->
  exists x, pre' = pre ++ (c :: m') ++ x /\ r = x ++ (c :: k') ++ u.
Proof.
  intros Hk Hm Hdiff Hpre E. apply app_eq_app in E.
  destruct E as [l [[E1 E2] | [E1 E2]]].
  - (* the occurrence would begin before [pre] ends *)
    exfalso. destruct l as [|z l].
    + cbn [app] in E2. now apply (Hdiff u r).
    + cbn [app] in E2. injection E2 as <- E2. apply app_eq_app in E2.
      destruct E2 as [y [[E3 E4] | [E3 E4]]].
      * destruct y as [|y0 y].
        -- rewrite app_nil_r in E3. subst l.
           apply Hpre. exists pre', []. rewrite E1. now rewrite !app_nil_r.
        -- cbn [app] in E4. injection E4 as <- _.
           apply Hk. rewrite E3. apply in_or_app. right. now left.
      * apply Hpre. exists pre', y. rewrite E1, E3. list_flat. reflexivity.
  - apply app_eq_app in E2.
    destruct E2 as [y [[E3 E4] | [E3 E4]]].
    + destruct y as [|y0 y].
      * exists []. rewrite app_nil_r in E3. cbn [app] in *.
        split; [now rewrite E1, <- E3, app_nil_r | now symmetry].
      * exfalso. destruct l as [|l0 l].
        -- cbn [app] in E3. rewrite <- E3 in E4.
           now apply (Hdiff u r).
        -- cbn [app] in E3, E4. injection E3 as _ E3. injection E4 as Hc _.
           apply Hm. rewrite E3, Hc. apply in_or_app. right. now left.
    + exists y. split; [now rewrite E1, E3 | exact E4].
Qed.

(** Removing the sections of one marker from a text that begins, after
    [pre], with another marker and goes on unbroken: that other marker
    stays, and what follows it stays unbroken. *)
Lemma sub_other_marker (c : ascii) (k' m' pre rest : str) :
  ~ In c k' -> ~ In c m' -> nl_free (c :: k') ->
  (forall x y, (c :: k') ++ x <> (c :: m') ++ y) ->
  ~ substring (c :: k') pre -> unbroken rest ->
  exists rest',
    re_sub (clean_re (c :: k')) [] (pre ++ (c :: m') ++ rest) =
      pre ++ (c :: m') ++ rest' /\
    unbroken rest'.
Proof.
  intros Hk Hm Hfree Hdiff Hpre Hrest. unfold re_sub. rewrite sub_unfold.
  destruct (re_search (clean_re (c :: k')) (pre ++ (c :: m') ++ rest))
    as [mt|] eqn:E; [|now exists rest].
  assert (Hs := E). apply search_some in Hs.
  destruct Hs as (pre' & Hs & Hst & _ & Hm0).
  apply clean_search_some in E; [|discriminate|exact Hfree].
  destruct E as (pre2 & q & Hs2 & Ht & Hst2 & Hpre2 & _).
  assert (Epre : pre' = pre2).
  { cbn [Nat.add] in Hst. rewrite Hst in Hst2.
    rewrite Hs in Hs2. clear - Hs2 Hst2.
    apply (f_equal (firstn (length pre'))) in Hs2.
    rewrite firstn_length_app, Hst2, firstn_length_app in Hs2. exact Hs2. }
  subst pre2. rewrite match_here_clean in Hm0.
  destruct (strip_prefix (c :: k') (m_text mt ++ m_post mt)) as [r0|] eqn:E0;
    [|discriminate].
  injection Hm0 as Hpost _. apply strip_prefix_iff in E0.
  rewrite E0 in Hs.
  destruct (@marker_position c k' m' pre rest pre' r0 Hk Hm Hdiff Hpre Hs)
    as (x & Hx & Hr).
  assert (Hr0 : unbroken r0).
  { apply (@unbroken_substring r0 rest); [|exact Hrest].
    exists (x ++ c :: k'), []. rewrite Hr, app_nil_r, <- app_assoc.
    reflexivity. }
  rewrite (scan_unbroken Hr0) in Hpost.
  exists x. split.
  - rewrite Hst. cbn [Nat.add]. rewrite Hs, firstn_length_app, Ht, <- Hpost.
    cbn [app]. rewrite sub_from_nil by discriminate.
    rewrite Hx. apply app_nil_r.
  - apply (@unbroken_substring x rest); [|exact Hrest].
    exists [], ((c :: k') ++ r0). now rewrite Hr.
Qed.

(** When the first marker of a body is followed by unbroken text to the
    end of the body, the text of the record is what comes before that
    marker, without its blank lines, stripped. *)
Lemma clean_usual (pre M rest : str) :
  In M [marker_attachments; marker_embed; marker_reactions] ->
  ~ substring marker_attachments pre -> ~ substring marker_embed pre ->
  ~ substring marker_reactions pre -> unbroken rest ->
  clean (pre ++ M ++ rest) =
  strip (join [nl] (filter nonblank (split_chr nl pre))).
Proof.
  intros HM Ha He Hr Hrest. unfold clean.
  fold marker_attachments marker_embed marker_reactions.
  assert (E : re_sub (clean_re marker_reactions) []
                (re_sub (clean_re marker_embed) []
                   (re_sub (clean_re marker_attachments) []
                      (pre ++ M ++ rest))) = pre); [|now rewrite E].
  assert (Hskip : forall K M' r,
            In (K, M') [(marker_attachments, marker_embed);
                        (marker_attachments, marker_reactions);
                        (marker_embed, marker_reactions)] ->
            ~ substring K pre -> unbroken r ->
            exists r', re_sub (clean_re K) [] (pre ++ M' ++ r) =
                         pre ++ M' ++ r' /\ unbroken r').
  { intros K M' r HK HKpre Hu.
    destruct HK as [HK | [HK | [HK | []]]]; injection HK as <- <-;
      (apply sub_other_marker;
       [apply not_in_check; reflexivity | apply not_in_check; reflexivity
       | apply nl_free_check; reflexivity | intros x y H; discriminate H
       | exact HKpre | exact Hu]). }
  destruct HM as [<- | [<- | [<- | []]]].
  - rewrite (sub_first_marker unbordered_attachments Ha Hrest).
    rewrite (@sub_none marker_embed pre) by (discriminate || exact He).
    now rewrite (@sub_none marker_reactions pre) by (discriminate || exact Hr).
  - destruct (Hskip marker_attachments marker_embed rest)
      as (r1 & -> & Hr1); [now left | exact Ha | exact Hrest |].
    rewrite (sub_first_marker unbordered_embed He Hr1).
    now rewrite (@sub_none marker_reactions pre) by (discriminate || exact Hr).
  - destruct (Hskip marker_attachments marker_reactions rest)
      as (r1 & -> & Hr1); [now right; left | exact Ha | exact Hrest |].
    destruct (Hskip marker_embed marker_reactions r1)
      as (r2 & -> & Hr2); [now right; right; left | exact He | exact Hr1 |].
    now rewrite (sub_first_marker unbordered_reactions Hr Hr2).
Qed.

End UsualLayout.


(** * Order of the matches, text before the first match *)

Section Order.
Variable r : regex.

(** The matches of [re.finditer] come in the order of the text, none
    overlapping the one before, all inside the text. *)
Lemma finditer_ordered (fuel : nat) : forall s off,
  StronglySorted (fun a b => m_start a + length (m_text a) <= m_start b)
                 (finditer_from fuel r s off) /\
  Forall (fun a => off <= m_start a /\
                   m_start a + length (m_text a) <= off + length s)
         (finditer_from fuel r s off).
Proof.
  induction fuel as [|f IH]; intros s off; [split; constructor|].
  rewrite finditer_unfold.
  destruct (search_from r s off) as [mt|] eqn:E; [|split; constructor].
  apply search_some in E. destruct E as (pre & Hs & Hst & _).
  apply (f_equal (@length ascii)) in Hs. rewrite !length_app in Hs.
  destruct (m_text mt) as [|x t] eqn:Et; [destruct (m_post mt) as [|y p] eqn:Ep|];
    cbv beta iota.
  - split; repeat constructor; rewrite ?Et; simpl in *; lia.
  - destruct (IH p (S (m_start mt))) as [Hsorted Hall]. simpl in Hs. split.
    + constructor; [exact Hsorted|].
      eapply Forall_impl; [|exact Hall]. intros a [Ha _]. rewrite Et. simpl. lia.
    + constructor; [rewrite Et; simpl; lia|].
      eapply Forall_impl; [|exact Hall]. intros a [Ha Hb]. lia.
  - destruct (IH (m_post mt) (m_start mt + length (x :: t))) as [Hsorted Hall].
    split.
    + constructor; [exact Hsorted|].
      eapply Forall_impl; [|exact Hall]. intros a [Ha _]. rewrite Et. lia.
    + constructor; [rewrite Et; lia|].
      eapply Forall_impl; [|exact Hall]. intros a [Ha Hb]. lia.
Qed.

(** A prefix in which no match begins only moves the matches. *)
Lemma finditer_skip (pre s : str) :
  no_match_in r pre s ->
  re_finditer r (pre ++ s) = map (shift (length pre)) (re_finditer r s).
Proof.
  intros Hno. unfold re_finditer.
  rewrite (@finditer_fuel r (S (length s)) (S (length (pre ++ s))) s 0)
    by (rewrite ?length_app; lia).
  generalize (length (pre ++ s)). intros f.
  rewrite !finditer_unfold, (search_skip 0 Hno), search_shift.
  destruct (search_from r s 0) as [[st tx gs po]|]; [|reflexivity].
  cbn [option_map shift m_start m_text m_groups m_post map]. f_equal.
  destruct tx as [|x tx]; [destruct po as [|y po]|].
  - reflexivity.
  - rewrite (finditer_shift r f po (S (0 + length pre + st))).
    rewrite (finditer_shift r f po (S st)), map_map.
    apply map_ext. intros a. rewrite shift_shift. f_equal. lia.
  - rewrite (finditer_shift r f po (0 + length pre + st + length (x :: tx))).
    rewrite (finditer_shift r f po (st + length (x :: tx))), map_map.
    apply map_ext. intros a. rewrite shift_shift. f_equal. lia.
Qed.

End Order.

Section Prefix.

Lemma eat_bracket_needs (x : ascii) (s : str) :
  x <> chr "[" -> eat_bracket (x :: s) = None.
Proof.
  intros Hx. unfold eat_bracket. cbn [eat].
  destruct (Ascii.eqb x (chr "[")) eqn:E; [|reflexivity].
  apply Ascii.eqb_eq in E. congruence.
Qed.

Lemma no_message_without_bracket (pre rest : str) :
  ~ In (chr "[") pre -> no_match_in message_re pre rest.
Proof.
  intros Hpre p1 p2 E Hne. apply message_needs_bracket.
  destruct p2 as [|x p2]; [congruence|]. apply eat_bracket_needs.
  intros ->. apply Hpre. rewrite E. apply in_or_app. right. now left.
Qed.

(** Text without an opening bracket in front of a document changes no
    record, the header fields apart. *)
Lemma records_prefix (pre doc : str) :
  ~ In (chr "[") pre ->
  records (pre ++ doc) =
  map (record_of (extract_header (pre ++ doc))) (re_finditer message_re doc).
Proof.
  intros Hpre. rewrite records_map.
  rewrite (finditer_skip (@no_message_without_bracket pre doc Hpre)), map_map.
  reflexivity.
Qed.

End Prefix.

(** * The entries of the three sections *)

Section Entries.

Lemma substring_refl (s : str) : substring s s.
Proof. exists [], []. now rewrite app_nil_r. Qed.

Lemma substring_in (c : ascii) (p s : str) : substring p s -> In c p -> In c s.
Proof.
  intros (a & b & ->) H. apply in_or_app. right. apply in_or_app. now left.
Qed.

Lemma substring_nl_free (p s : str) : substring p s -> nl_free s -> nl_free p.
Proof. intros Hs Hf Hin. apply Hf. exact (@substring_in nl p s Hs Hin). Qed.

(** Every attachment is a piece of the body that starts with https://, has
    something after it and runs to the end of its line. *)
Lemma attachment_entries (body : str) :
  Forall (fun u => exists url a b,
            u = \"https://" ++ url /\ url <> [] /\ nl_free u /\
            body = a ++ u ++ b /\ nl_led b)
         (extract_attachments body).
Proof.
  apply Forall_forall. intros u Hu. unfold extract_attachments in Hu.
  apply in_map_iff in Hu. destruct Hu as (mt & <- & Hin).
  apply finditer_in in Hin. destruct Hin as (pre & Hbody & _ & Hm).
  rewrite match_here_attachment in Hm.
  destruct (strip_prefix marker_attachments _) as [r1|] eqn:E1; [|discriminate].
  destruct (eat_run is_space r1) as [r2|] eqn:E2; [|discriminate].
  destruct (strip_prefix \"https://" r2) as [r3|] eqn:E3; [|discriminate].
  destruct (eat_run not_nl r3) as [post|] eqn:E4; [|discriminate].
  injection Hm as Hpost Hg. rewrite <- Hg. cbn [grp group Nat.eqb].
  apply strip_prefix_iff in E1, E3. apply eat_run_inv in E2, E4.
  destruct E2 as (ws & Hr1 & _). destruct E4 as (run & Hr3 & Hne & Hall & Hend).
  assert (Hc : consumed r2 post = \"https://" ++ run).
  { rewrite E3, Hr3, app_assoc. apply consumed_app. }
  rewrite Hc. exists run, (pre ++ marker_attachments ++ ws), post.
  split; [reflexivity|]. split; [exact Hne|]. split; [|split].
  - apply nl_free_app. split; [apply nl_free_check; reflexivity|].
    intros Hin. rewrite Forall_forall in Hall. apply Hall in Hin. discriminate.
  - rewrite Hbody, E1, Hr1, E3, Hr3, Hpost. list_flat. reflexivity.
  - destruct post as [|y post]; [exact I|]. simpl.
    unfold not_nl in Hend. apply negb_false_iff in Hend.
    now apply Ascii.eqb_eq.
Qed.

(** The section that the embed and reaction patterns capture: a piece of
    the body without opening bracket. *)
Lemma section_found (mk body : str) (mt : re_match) :
  re_search (section_re mk) body = Some mt ->
  substring (grp 1 (m_groups mt)) body /\ ~ In (chr "[") (grp 1 (m_groups mt)).
Proof.
  intros H. apply search_some in H. destruct H as (pre & Hbody & _ & _ & Hm).
  rewrite match_here_section in Hm.
  destruct (strip_prefix mk _) as [r1|] eqn:E1; [|discriminate].
  destruct (eat_run is_space r1) as [r2|] eqn:E2; [|discriminate].
  injection Hm as Hpost Hg. rewrite <- Hg. cbn [grp group Nat.eqb].
  apply strip_prefix_iff in E1. apply eat_run_inv in E2.
  destruct E2 as (ws & Hr1 & _).
  destruct (scan_to_split stop_section r2) as (q & Hq & Hmin).
  assert (Hc : consumed r2 (scan_to stop_section r2) = q).
  { rewrite Hq at 1. apply consumed_app. }
  rewrite Hc. split.
  - exists (pre ++ mk ++ ws), (scan_to stop_section r2).
    rewrite Hbody, E1, Hr1, Hq at 1. list_flat. reflexivity.
  - intros Hin. apply in_split in Hin. destruct Hin as (b1 & b2 & Hb).
    specialize (Hmin b1 (chr "[" :: b2) Hb ltac:(discriminate)).
    discriminate.
Qed.

(** The entries made of the lines of a section. *)
Lemma stripped_lines_entries (sec : str) :
  Forall (fun e => e <> [] /\ nl_free e /\ strip e = e /\ substring e sec)
         (stripped_lines sec).
Proof.
  apply Forall_forall. intros e He. unfold stripped_lines in He.
  apply in_map_iff in He. destruct He as (l & <- & Hl).
  apply filter_In in Hl. destruct Hl as [Hl Hnb].
  assert (Hsub : substring l sec)
    by (rewrite <- (join_split sec); now apply line_substring).
  assert (Hfree : nl_free l).
  { assert (H := split_chr_nl_free sec). rewrite Forall_forall in H.
    now apply H. }
  split; [|split; [|split]].
  - unfold nonblank in Hnb. now destruct (strip l).
  - exact (@substring_nl_free (strip l) l (strip_substring l) Hfree).
  - apply strip_idem.
  - exact (substring_trans (strip_substring l) Hsub).
Qed.

Lemma section_entries (mk body : str) (trim : str -> str) :
  (forall s, substring (trim s) s) ->
  Forall (fun e => e <> [] /\ nl_free e /\ ~ In (chr "[") e /\ strip e = e /\
                   substring e body)
         match re_search (section_re mk) body with
         | Some found => stripped_lines (trim (grp 1 (m_groups found)))
         | None => []
         end.
Proof.
  intros Htrim.
  destruct (re_search (section_re mk) body) as [mt|] eqn:E; [|constructor].
  apply section_found in E. destruct E as [Hsub Hbr].
  eapply Forall_impl; [|apply stripped_lines_entries].
  intros e (Hne & Hfree & Hstrip & He).
  assert (Hs : substring e (grp 1 (m_groups mt)))
    by exact (substring_trans He (Htrim _)).
  repeat split; try assumption.
  - intros Hin. apply Hbr. exact (@substring_in (chr "[") e _ Hs Hin).
  - exact (substring_trans Hs Hsub).
Qed.

Lemma embed_entries (body : str) :
  Forall (fun e => e <> [] /\ nl_free e /\ ~ In (chr "[") e /\ strip e = e /\
                   substring e body)
         (extract_embeds body).
Proof. exact (@section_entries \"{Embed}" body strip strip_substring). Qed.

Lemma reaction_entries (body : str) :
  Forall (fun e => e <> [] /\ nl_free e /\ ~ In (chr "[") e /\ strip e = e /\
                   substring e body)
         (extract_reactions body).
Proof.
  exact (@section_entries \"{Reactions}" body (fun s => s) substring_refl).
Qed.

(** Without marker there is no entry. *)
Lemma embeds_none (body : str) :
  ~ substring marker_embed body -> extract_embeds body = [].
Proof.
  intros H. unfold extract_embeds, embed_re. fold marker_embed.
  now rewrite section_none by (discriminate || exact H).
Qed.

Lemma reactions_none (body : str) :
  ~ substring marker_reactions body -> extract_reactions body = [].
Proof.
  intros H. unfold extract_reactions, reaction_re. fold marker_reactions.
  now rewrite section_none by (discriminate || exact H).
Qed.

End Entries.

(** * What strptime accepts *)

Section StrptimeInversion.

Lemma orelse_inv (a b : answer) x :
  orelse a b = Some x -> a = Some x \/ b = Some x.
Proof. destruct a; simpl; auto. Qed.

Lemma m_Chr_inv (a : ascii) (s : str) (c : caps) (k : cont) x :
  m (Chr a) s c k = Some x -> exists s', s = a :: s' /\ k s' c = Some x.
Proof.
  rewrite m_Chr. destruct (eat a s) as [r|] eqn:E; [|discriminate].
  apply eat_inv in E. intros H. now exists r.
Qed.

Lemma m_Cls_inv (p : ascii -> bool) (s : str) (c : caps) (k : cont) x :
  m (Cls p) s c k = Some x ->
  exists a s', s = a :: s' /\ p a = true /\ k s' c = Some x.
Proof.
  rewrite m_Cls. destruct (eat_cls p s) as [r|] eqn:E; [|discriminate].
  apply eat_cls_inv in E. destruct E as (a & -> & Ha). intros H. now exists a, r.
Qed.

(** A greedy run may give characters back, never all of them. *)
Lemma m_plus_inv (p : ascii -> bool) (s : str) (c : caps) (k : cont) x :
  m (Plus true (Cls p)) s c k = Some x ->
  exists run s', s = run ++ s' /\ run <> [] /\
                 Forall (fun a => p a = true) run /\ k s' c = Some x.
Proof.
  rewrite m_plus_unfold. destruct s as [|a t]; [discriminate|].
  destruct (p a) eqn:Ha; [|discriminate].
  assert (G : forall t, greedy_cls p k t c = Some x ->
              exists run s', t = run ++ s' /\
                Forall (fun a => p a = true) run /\ k s' c = Some x).
  { clear t. induction t as [|b t IH]; simpl; intros H.
    - now exists [], [].
    - destruct (p b) eqn:Hb; [|now exists [], (b :: t)].
      apply orelse_inv in H. destruct H as [H | H]; [|now exists [], (b :: t)].
      destruct (IH H) as (run & s' & -> & Hall & Hk).
      exists (b :: run), s'. repeat split; [constructor|]; assumption. }
  intros H. destruct (G t H) as (run & s' & -> & Hall & Hk).
  exists (a :: run), s'. repeat split; [discriminate | constructor |]; assumption.
Qed.

(** ** Digits *)

Lemma code_digit (j : nat) : j < 10 -> code (digit j) = 48 + j.
Proof. intros H. unfold digit, code. apply nat_ascii_embedding. lia. Qed.

Lemma in_range_digit (lo hi : nat) (a : ascii) :
  hi < 10 -> in_range (48 + lo) (48 + hi) a = true ->
  exists j, lo <= j <= hi /\ a = digit j.
Proof.
  intros Hhi H. unfold in_range in H. apply andb_true_iff in H.
  destruct H as [H1 H2]. apply Nat.leb_le in H1, H2.
  exists (code a - 48). split; [lia|].
  unfold digit. replace (48 + (code a - 48)) with (code a) by lia.
  unfold code. symmetry. apply ascii_nat_embedding.
Qed.

Lemma is_digit_digit (a : ascii) :
  is_digit a = true -> exists j, j < 10 /\ a = digit j.
Proof.
  intros H. destruct (@in_range_digit 0 9 a ltac:(lia) H) as (j & Hj & ->).
  exists j. split; [lia | reflexivity].
Qed.

Lemma digit_is_digit (j : nat) : j < 10 -> is_digit (digit j) = true.
Proof.
  intros H. unfold is_digit, in_range. rewrite (code_digit H).
  apply andb_true_intro. split; apply Nat.leb_le; lia.
Qed.

Lemma digit_not_space (j : nat) : j < 10 -> is_space (digit j) = false.
Proof.
  intros H. do 10 (destruct j as [|j]; [reflexivity|]). lia.
Qed.

Lemma written_one (j : nat) : j < 10 -> written j [digit j].
Proof. apply written_plain. Qed.

Lemma written_two (a b : nat) :
  a < 10 -> b < 10 -> written (10 * a + b) [digit a; digit b].
Proof.
  intros Ha Hb.
  assert (E1 : (10 * a + b) / 10 = a)
    by (symmetry; apply (Nat.div_unique _ 10 a b); lia).
  assert (E2 : (10 * a + b) mod 10 = b)
    by (symmetry; apply (Nat.mod_unique _ 10 a b); lia).
  rewrite <- E1 at 2. rewrite <- E2 at 3. apply written_padded. lia.
Qed.

Lemma written_digits (n : nat) (sn : str) :
  written n sn -> Forall (fun a => is_digit a = true) sn /\ sn <> [].
Proof.
  intros [H | H]; (split; [|discriminate]).
  - repeat constructor. now apply digit_is_digit.
  - repeat constructor; apply digit_is_digit.
    + apply Nat.Div0.div_lt_upper_bound. lia.
    + apply Nat.mod_upper_bound. lia.
Qed.

Lemma strip_1 (x : ascii) : is_space x = false -> strip [x] = [x].
Proof. intros H. unfold strip, rstrip. simpl. rewrite H. simpl. now rewrite H. Qed.

Lemma strip_2 (x y : ascii) :
  is_space x = false -> is_space y = false -> strip [x; y] = [x; y].
Proof.
  intros Hx Hy. unfold strip, rstrip. simpl. rewrite Hx. simpl. now rewrite Hy.
Qed.

(** [int] reads back what is written. *)
Lemma int_of_number (n : nat) (sn : str) : written n sn -> int_of sn = n.
Proof.
  intros [H | H]; unfold int_of.
  - rewrite strip_1 by now apply digit_not_space.
    cbn [fold_left]. rewrite (code_digit H). lia.
  - assert (H1 : n / 10 < 10) by (apply Nat.Div0.div_lt_upper_bound; lia).
    assert (H2 : n mod 10 < 10) by (apply Nat.mod_upper_bound; lia).
    rewrite strip_2 by now apply digit_not_space.
    cbn [fold_left]. rewrite (code_digit H1), (code_digit H2).
    pose proof (Nat.div_mod_eq n 10). lia.
Qed.

Lemma strip_blank (y : ascii) :
  is_space y = false -> strip [chr " "; y] = [y].
Proof.
  intros Hy. unfold strip. cbn [lstrip].
  change (is_space (chr " ")) with true. cbv iota. rewrite Hy.
  unfold rstrip. simpl. now rewrite Hy.
Qed.

Lemma int_of_blank_digit (j : nat) :
  j < 10 -> int_of [chr " "; digit j] = j.
Proof.
  intros H. unfold int_of. rewrite strip_blank by now apply digit_not_space.
  cbn [fold_left]. rewrite (code_digit H). lia.
Qed.

(** ** The fields *)

Lemma m_1_12_inv (g : nat) (s : str) (c : caps) (k : cont) x :
  m (Grp g re_1_12) s c k = Some x ->
  exists n sn s', s = sn ++ s' /\ 1 <= n <= 12 /\ written n sn /\
                  k s' ((g, sn) :: c) = Some x.
Proof.
  rewrite m_Grp. unfold re_1_12, rng.
  change (code (chr "0")) with (48 + 0). change (code (chr "1")) with (48 + 1).
  change (code (chr "2")) with (48 + 2). change (code (chr "9")) with (48 + 9).
  rewrite !m_Alt. intros H.
  apply orelse_inv in H. destruct H as [H | H];
    [|apply orelse_inv in H; destruct H as [H | H]].
  - rewrite m_Cat in H. apply m_Chr_inv in H. destruct H as (s1 & -> & H).
    apply m_Cls_inv in H. destruct H as (b & s2 & -> & Hb & H).
    rewrite consumed_2 in H.
    apply in_range_digit in Hb; [|lia]. destruct Hb as (j & Hj & ->).
    exists (10 * 1 + j), [chr "1"; digit j], s2.
    split; [reflexivity|]. split; [lia|]. split; [|exact H].
    apply (@written_two 1 j); lia.
  - rewrite m_Cat in H. apply m_Chr_inv in H. destruct H as (s1 & -> & H).
    apply m_Cls_inv in H. destruct H as (b & s2 & -> & Hb & H).
    rewrite consumed_2 in H.
    apply in_range_digit in Hb; [|lia]. destruct Hb as (j & Hj & ->).
    exists (10 * 0 + j), [chr "0"; digit j], s2.
    split; [reflexivity|]. split; [lia|]. split; [|exact H].
    apply (@written_two 0 j); lia.
  - apply m_Cls_inv in H. destruct H as (b & s2 & -> & Hb & H).
    rewrite consumed_1 in H.
    apply in_range_digit in Hb; [|lia]. destruct Hb as (j & Hj & ->).
    exists j, [digit j], s2.
    split; [reflexivity|]. split; [lia|]. split; [|exact H].
    apply written_one. lia.
Qed.

Lemma m_day_inv (g : nat) (s : str) (c : caps) (k : cont) x :
  m (Grp g re_day) s c k = Some x ->
  exists n sn s', s = sn ++ s' /\ 1 <= n <= 31 /\
                  (written n sn \/ sn = [chr " "; digit n] /\ n < 10) /\
                  k s' ((g, sn) :: c) = Some x.
Proof.
  rewrite m_Grp. unfold re_day, rng.
  change (code (chr "0")) with (48 + 0). change (code (chr "1")) with (48 + 1).
  change (code (chr "2")) with (48 + 2). change (code (chr "9")) with (48 + 9).
  rewrite !m_Alt. intros H.
  apply orelse_inv in H. destruct H as [H | H];
    [|apply orelse_inv in H; destruct H as [H | H];
      [|apply orelse_inv in H; destruct H as [H | H];
        [|apply orelse_inv in H; destruct H as [H | H]]]].
  - rewrite m_Cat in H. apply m_Chr_inv in H. destruct H as (s1 & -> & H).
    apply m_Cls_inv in H. destruct H as (b & s2 & -> & Hb & H).
    rewrite consumed_2 in H.
    apply in_range_digit in Hb; [|lia]. destruct Hb as (j & Hj & ->).
    exists (10 * 3 + j), [chr "3"; digit j], s2.
    split; [reflexivity|]. split; [lia|]. split; [|exact H].
    left. apply (@written_two 3 j); lia.
  - rewrite m_Cat in H. apply m_Cls_inv in H.
    destruct H as (a & s1 & -> & Ha & H).
    apply m_Cls_inv in H. destruct H as (b & s2 & -> & Hb & H).
    rewrite consumed_2 in H.
    apply in_range_digit in Ha; [|lia]. destruct Ha as (i & Hi & ->).
    apply is_digit_digit in Hb. destruct Hb as (j & Hj & ->).
    exists (10 * i + j), [digit i; digit j], s2.
    split; [reflexivity|]. split; [lia|]. split; [|exact H].
    left. apply written_two; lia.
  - rewrite m_Cat in H. apply m_Chr_inv in H. destruct H as (s1 & -> & H).
    apply m_Cls_inv in H. destruct H as (b & s2 & -> & Hb & H).
    rewrite consumed_2 in H.
    apply in_range_digit in Hb; [|lia]. destruct Hb as (j & Hj & ->).
    exists (10 * 0 + j), [chr "0"; digit j], s2.
    split; [reflexivity|]. split; [lia|]. split; [|exact H].
    left. apply (@written_two 0 j); lia.
  - apply m_Cls_inv in H. destruct H as (b & s2 & -> & Hb & H).
    rewrite consumed_1 in H.
    apply in_range_digit in Hb; [|lia]. destruct Hb as (j & Hj & ->).
    exists j, [digit j], s2.
    split; [reflexivity|]. split; [lia|]. split; [|exact H].
    left. apply written_one. lia.
  - rewrite m_Cat in H. apply m_Chr_inv in H. destruct H as (s1 & -> & H).
    apply m_Cls_inv in H. destruct H as (b & s2 & -> & Hb & H).
    rewrite consumed_2 in H.
    apply in_range_digit in Hb; [|lia]. destruct Hb as (j & Hj & ->).
    exists j, [chr " "; digit j], s2.
    split; [reflexivity|]. split; [lia|]. split; [|exact H].
    right. split; [reflexivity | lia].
Qed.

Lemma m_minute_inv (g : nat) (s : str) (c : caps) (k : cont) x :
  m (Grp g re_minute) s c k = Some x ->
  exists n sn s', s = sn ++ s' /\ n <= 59 /\ written n sn /\
                  k s' ((g, sn) :: c) = Some x.
Proof.
  rewrite m_Grp. unfold re_minute, rng.
  change (code (chr "0")) with (48 + 0). change (code (chr "5")) with (48 + 5).
  rewrite !m_Alt. intros H.
  apply orelse_inv in H. destruct H as [H | H].
  - rewrite m_Cat in H. apply m_Cls_inv in H.
    destruct H as (a & s1 & -> & Ha & H).
    apply m_Cls_inv in H. destruct H as (b & s2 & -> & Hb & H).
    rewrite consumed_2 in H.
    apply in_range_digit in Ha; [|lia]. destruct Ha as (i & Hi & ->).
    apply is_digit_digit in Hb. destruct Hb as (j & Hj & ->).
    exists (10 * i + j), [digit i; digit j], s2.
    split; [reflexivity|]. split; [lia|]. split; [|exact H].
    apply written_two; lia.
  - apply m_Cls_inv in H. destruct H as (b & s2 & -> & Hb & H).
    rewrite consumed_1 in H.
    apply is_digit_digit in Hb. destruct Hb as (j & Hj & ->).
    exists j, [digit j], s2.
    split; [reflexivity|]. split; [lia|]. split; [|exact H].
    apply written_one. lia.
Qed.

Lemma m_year_inv (g : nat) (s : str) (c : caps) (k : cont) x :
  m (Grp g re_year) s c k = Some x ->
  exists a b d e s', s = [digit a; digit b; digit d; digit e] ++ s' /\
                     a < 10 /\ b < 10 /\ d < 10 /\ e < 10 /\
                     k s' ((g, [digit a; digit b; digit d; digit e]) :: c) = Some x.
Proof.
  rewrite m_Grp. unfold re_year. intros H.
  rewrite m_Cat in H. apply m_Cls_inv in H. destruct H as (a & s1 & -> & Ha & H).
  rewrite m_Cat in H. apply m_Cls_inv in H. destruct H as (b & s2 & -> & Hb & H).
  rewrite m_Cat in H. apply m_Cls_inv in H. destruct H as (d & s3 & -> & Hd & H).
  apply m_Cls_inv in H. destruct H as (e & s4 & -> & He & H).
  assert (E := consumed_app [a; b; d; e] s4). cbn [app] in E. rewrite E in H.
  apply is_digit_digit in Ha, Hb, Hd, He.
  destruct Ha as (ja & Hja & ->), Hb as (jb & Hjb & ->),
           Hd as (jd & Hjd & ->), He as (je & Hje & ->).
  exists ja, jb, jd, je, s4. repeat split; assumption.
Qed.

Lemma m_ampm_inv (g : nat) (s : str) (c : caps) (k : cont) x :
  m (Grp g re_ampm) s c k = Some x ->
  exists a b s', s = [a; b] ++ s' /\ one_of "aApP" a = true /\
                 one_of "mM" b = true /\ k s' ((g, [a; b]) :: c) = Some x.
Proof.
  rewrite m_Grp. unfold re_ampm. rewrite m_Alt. intros H.
  apply orelse_inv in H. destruct H as [H | H];
    rewrite m_Cat in H; apply m_Cls_inv in H;
    destruct H as (a & s1 & -> & Ha & H);
    apply m_Cls_inv in H; destruct H as (b & s2 & -> & Hb & H);
    rewrite consumed_2 in H; exists a, b, s2;
    (split; [reflexivity|]); (split; [|split; [exact Hb | exact H]]);
    unfold one_of in *; cbn [existsb s2l list_ascii_of_string] in *.
  - rewrite !orb_false_r in Ha. apply orb_true_iff in Ha.
    destruct Ha as [-> | ->]; now rewrite ?orb_true_r.
  - rewrite !orb_false_r in Ha. apply orb_true_iff in Ha.
    destruct Ha as [-> | ->]; now rewrite ?orb_true_r.
Qed.

End StrptimeInversion.

(** * The whole literal *)

Section StrptimeLiteral.

Lemma strip_4 (a b d e : ascii) :
  is_space a = false -> is_space e = false -> strip [a; b; d; e] = [a; b; d; e].
Proof.
  intros Ha He. unfold strip. rewrite (@lstrip_fixed a [b; d; e] Ha).
  unfold rstrip. simpl. now rewrite He.
Qed.

Lemma int_of_year (a b d e : nat) :
  a < 10 -> b < 10 -> d < 10 -> e < 10 ->
  int_of [digit a; digit b; digit d; digit e] = 1000 * a + 100 * b + 10 * d + e.
Proof.
  intros Ha Hb Hd He. unfold int_of.
  rewrite strip_4 by now apply digit_not_space.
  cbn [fold_left].
  rewrite (code_digit Ha), (code_digit Hb), (code_digit Hd), (code_digit He).
  lia.
Qed.

Lemma digit_chr_digit (n j : nat) : j < 10 -> n mod 10 = j -> digit_chr n = digit j.
Proof. intros _ H. unfold digit_chr, digit. now rewrite H. Qed.

Lemma pad4_year (a b d e : nat) :
  a < 10 -> b < 10 -> d < 10 -> e < 10 ->
  pad4 (1000 * a + 100 * b + 10 * d + e) = [digit a; digit b; digit d; digit e].
Proof.
  intros Ha Hb Hd He.
  remember (1000 * a + 100 * b + 10 * d + e) as y eqn:Ey.
  assert (E1 : y / 1000 = a)
    by (symmetry; apply (Nat.div_unique y 1000 a (100 * b + 10 * d + e)); lia).
  assert (E2 : y / 100 = 10 * a + b)
    by (symmetry; apply (Nat.div_unique y 100 (10 * a + b) (10 * d + e)); lia).
  assert (E3 : y / 10 = 100 * a + 10 * b + d)
    by (symmetry; apply (Nat.div_unique y 10 (100 * a + 10 * b + d) e); lia).
  unfold pad4. rewrite E1, E2, E3.
  rewrite (@digit_chr_digit a a Ha) by now apply Nat.mod_small.
  rewrite (@digit_chr_digit (10 * a + b) b Hb)
    by (symmetry; apply (Nat.mod_unique _ 10 a b); lia).
  rewrite (@digit_chr_digit (100 * a + 10 * b + d) d Hd)
    by (symmetry; apply (Nat.mod_unique _ 10 (10 * a + b) d); lia).
  rewrite (@digit_chr_digit y e He)
    by (symmetry; apply (Nat.mod_unique _ 10 (100 * a + 10 * b + d) e); lia).
  reflexivity.
Qed.

(** The shape of every text that the regular expression of the format
    matches, and the groups it captures. *)
Lemma match_strptime_inv (lit rest : str) (found : caps) :
  match_here strptime_re lit = Some (rest, found) ->
  exists mo smo d sd a b e f ws1 h sh mi smi ws2 p q,
    lit = smo ++ chr "/" :: sd ++ chr "/" ::
          [digit a; digit b; digit e; digit f] ++ ws1 ++
          sh ++ chr ":" :: smi ++ ws2 ++ [p; q] ++ rest /\
    found = [(6, [p; q]); (5, smi); (4, sh);
             (3, [digit a; digit b; digit e; digit f]); (2, sd); (1, smo)] /\
    1 <= mo <= 12 /\ written mo smo /\
    1 <= d <= 31 /\ (written d sd \/ sd = [chr " "; digit d] /\ d < 10) /\
    a < 10 /\ b < 10 /\ e < 10 /\ f < 10 /\
    ws1 <> [] /\ Forall (fun c => is_space c = true) ws1 /\
    1 <= h <= 12 /\ written h sh /\
    mi <= 59 /\ written mi smi /\
    ws2 <> [] /\ Forall (fun c => is_space c = true) ws2 /\
    one_of "aApP" p = true /\ one_of "mM" q = true.
Proof.
  unfold match_here, strptime_re. intros H.
  rewrite m_Cat in H. apply m_1_12_inv in H.
  destruct H as (mo & smo & s1 & -> & Hmo & Wmo & H).
  rewrite m_Cat in H. apply m_Chr_inv in H. destruct H as (s2 & -> & H).
  rewrite m_Cat in H. apply m_day_inv in H.
  destruct H as (d & sd & s3 & -> & Hd & Wd & H).
  rewrite m_Cat in H. apply m_Chr_inv in H. destruct H as (s4 & -> & H).
  rewrite m_Cat in H. apply m_year_inv in H.
  destruct H as (a & b & e & f & s5 & -> & Ha & Hb & He & Hf & H).
  rewrite m_Cat in H. apply m_plus_inv in H.
  destruct H as (ws1 & s6 & -> & Hne1 & Hws1 & H).
  rewrite m_Cat in H. apply m_1_12_inv in H.
  destruct H as (h & sh & s7 & -> & Hh & Wh & H).
  rewrite m_Cat in H. apply m_Chr_inv in H. destruct H as (s8 & -> & H).
  rewrite m_Cat in H. apply m_minute_inv in H.
  destruct H as (mi & smi & s9 & -> & Hmi & Wmi & H).
  rewrite m_Cat in H. apply m_plus_inv in H.
  destruct H as (ws2 & s10 & -> & Hne2 & Hws2 & H).
  apply m_ampm_inv in H. destruct H as (p & q & s11 & -> & Hp & Hq & H).
  injection H as -> <-.
  exists mo, smo, d, sd, a, b, e, f, ws1, h, sh, mi, smi, ws2, p, q.
  repeat split; try assumption; try lia.
Qed.

(** Whatever the literal, a moment that strptime returns exists: month,
    day of that month, hour and minute are in range, the second is 0. *)
Lemma strptime_valid (lit : str) (dt : datetime) :
  strptime lit = Some dt ->
  1 <= year dt <= 9999 /\ 1 <= month dt <= 12 /\
  1 <= day dt <= days_in_month (year dt) (month dt) /\
  hour dt <= 23 /\ minute dt <= 59 /\ second dt = 0.
Proof.
  unfold strptime. intros H.
  destruct (match_here strptime_re lit) as [[rest found]|] eqn:E; [|discriminate].
  destruct rest as [|? ?]; [|discriminate].
  apply match_strptime_inv in E.
  destruct E as (mo & smo & d & sd & a & b & e & f & ws1 & h & sh & mi & smi &
                 ws2 & p & q & _ & -> & Hmo & Wmo & Hd & Wd & Ha & Hb & He & Hf &
                 _ & _ & Hh & Wh & Hmi & Wmi & _).
  cbn [grp group Nat.eqb hd] in H.
  rewrite (int_of_year Ha Hb He Hf), (int_of_number Wmo),
          (int_of_number Wh), (int_of_number Wmi) in H.
  assert (Ed : int_of sd = d).
  { destruct Wd as [Wd | [-> Hd9]]; [now apply int_of_number|].
    now apply int_of_blank_digit. }
  rewrite Ed in H.
  assert (Hy : 1000 * a + 100 * b + 10 * e + f <= 9999).
  { apply Nat.lt_succ_r.
    replace (S 9999) with (1000 * 10) by (vm_compute; reflexivity). lia. }
  remember (1000 * a + 100 * b + 10 * e + f) as y eqn:Ey. clear Ey.
  destruct ((1 <=? y) && (1 <=? d) && (d <=? days_in_month y mo)) eqn:Ec;
    [|discriminate].
  apply andb_true_iff in Ec. destruct Ec as [Ec Ec3].
  apply andb_true_iff in Ec. destruct Ec as [Ec1 Ec2].
  apply Nat.leb_le in Ec1, Ec2, Ec3.
  injection H as <-. cbn [year month day hour minute second].
  split; [split; assumption|]. split; [exact Hmo|].
  split; [split; assumption|]. split; [|split; [exact Hmi | reflexivity]].
  clear Hy Ec1 Ec3.
  destruct (one_of "pP" p); destruct (h =? 12) eqn:E12;
    try apply Nat.eqb_neq in E12; lia.
Qed.

(** Two runs of the same class that end at the same place are the same run. *)
Lemma run_unique (p : ascii -> bool) (r1 r2 : str) (x1 x2 : ascii) (t1 t2 : str) :
  Forall (fun a => p a = true) r1 -> Forall (fun a => p a = true) r2 ->
  p x1 = false -> p x2 = false ->
  r1 ++ x1 :: t1 = r2 ++ x2 :: t2 -> r1 = r2 /\ x1 = x2 /\ t1 = t2.
Proof.
  intros H1. revert r2. induction H1 as [|a r1 Ha _ IH]; intros r2 H2 Hx1 Hx2 E.
  - destruct r2 as [|b r2]; simpl in E.
    + injection E as -> ->. auto.
    + injection E as -> _. inversion H2; congruence.
  - destruct r2 as [|b r2]; simpl in E.
    + injection E as -> _. congruence.
    + injection E as -> E. inversion H2 as [|? ? _ H2']; subst.
      destruct (IH r2 H2' Hx1 Hx2 E) as (-> & -> & ->). auto.
Qed.

Lemma digit_run_digits (d : str) :
  digit_run d -> Forall (fun a => is_digit a = true) d /\ d <> [].
Proof. intros [H1 H2]. now split. Qed.

Lemma space_not_digit (a : ascii) : is_space a = true -> is_digit a = false.
Proof.
  intros H. destruct (is_digit a) eqn:E; [|reflexivity].
  apply is_digit_digit in E. destruct E as (j & Hj & ->).
  rewrite (digit_not_space Hj) in H. discriminate.
Qed.

End StrptimeLiteral.

Section StrptimeShaped.

(** Among the literals that the message pattern captures, strptime reads
    exactly the well-written ones. *)
Lemma strptime_shaped (lit : str) (dt : datetime) :
  stamp_shaped lit -> strptime lit = Some dt ->
  exists mo d y h mi smo sd sh smi ap,
    1 <= mo <= 12 /\ 1 <= d <= days_in_month y mo /\ 1 <= y <= 9999 /\
    1 <= h <= 12 /\ mi <= 59 /\
    written mo smo /\ written d sd /\ written h sh /\ written mi smi /\
    one_of "AP" ap = true /\
    lit = stamp_literal smo sd (pad4 y) sh smi ap /\
    dt = MkDatetime y mo d (hour24 h ap) mi 0.
Proof.
  intros (MO & D & Y & HH & MI & ap & Rmo & Rd & Ry & Rh & Rmi & Hap & Hlit) H.
  assert (Hv := strptime_valid _ H).
  unfold strptime in H.
  destruct (match_here strptime_re lit) as [[rest found]|] eqn:E; [|discriminate].
  destruct rest as [|? ?]; [|discriminate].
  apply match_strptime_inv in E.
  destruct E as (mo & smo & d & sd & a & b & e & f & ws1 & h & sh & mi & smi &
                 ws2 & p & q & Elit & -> & Hmo & Wmo & Hd & Wd & Ha & Hb & He & Hf &
                 Hne1 & Hws1 & Hh & Wh & Hmi & Wmi & Hne2 & Hws2 & Hp & Hq).
  apply digit_run_digits in Rmo, Rd, Ry, Rh, Rmi.
  destruct Rmo as [Rmo Nmo], Rd as [Rd Nd], Ry as [Ry Ny], Rh as [Rh Nh],
           Rmi as [Rmi Nmi].
  rewrite Hlit in Elit.
  (* the month *)
  destruct (@run_unique is_digit MO smo (chr "/") (chr "/") _ _ Rmo (proj1 (written_digits Wmo))
              eq_refl eq_refl Elit) as (-> & _ & E2).
  (* the day *)
  assert (Wd' : written d sd).
  { destruct Wd as [Wd | [-> _]]; [exact Wd|]. exfalso.
    destruct D as [|x D]; [congruence|]. injection E2 as -> _.
    inversion Rd as [|? ? Hx _]. discriminate. }
  destruct (@run_unique is_digit D sd (chr "/") (chr "/") _ _ Rd (proj1 (written_digits Wd'))
              eq_refl eq_refl E2) as (-> & _ & E3).
  (* the year *)
  destruct ws1 as [|w ws1]; [congruence|].
  inversion Hws1 as [|? ? Hw Hws1']; subst.
  assert (Hyd : Forall (fun c => is_digit c = true)
                       [digit a; digit b; digit e; digit f])
    by (repeat constructor; now apply digit_is_digit).
  destruct (@run_unique is_digit Y [digit a; digit b; digit e; digit f]
              (chr " ") w _ (ws1 ++ sh ++ chr ":" :: smi ++ ws2 ++ [p; q] ++ [])
              Ry Hyd eq_refl (space_not_digit _ Hw) E3) as (-> & <- & E4).
  (* the hour *)
  destruct ws1 as [|w' ws1].
  2:{ exfalso. destruct HH as [|x HH]; [congruence|]. injection E4 as -> _.
      inversion Hws1' as [|? ? Hw' _]. inversion Rh as [|? ? Hx _].
      rewrite (space_not_digit _ Hw') in Hx. discriminate. }
  cbn [app] in E4.
  destruct (@run_unique is_digit HH sh (chr ":") (chr ":") _ _ Rh (proj1 (written_digits Wh))
              eq_refl eq_refl E4) as (-> & _ & E5).
  (* the minute and the half of the day *)
  destruct ws2 as [|w2 ws2]; [congruence|].
  inversion Hws2 as [|? ? Hw2 _]; subst.
  destruct (@run_unique is_digit MI smi (chr " ") w2 _ (ws2 ++ [p; q] ++ [])
              Rmi (proj1 (written_digits Wmi)) eq_refl
              (space_not_digit _ Hw2) E5) as (-> & <- & E6).
  destruct ws2 as [|w3 ws2].
  2:{ exfalso. apply (f_equal (@length ascii)) in E6.
      simpl in E6. rewrite length_app in E6. simpl in E6. lia. }
  injection E6 as <- <-.
  (* the moment *)
  cbn [grp group Nat.eqb hd] in H.
  rewrite (int_of_year Ha Hb He Hf), (int_of_number Wmo), (int_of_number Wd'),
          (int_of_number Wh), (int_of_number Wmi) in H.
  remember (1000 * a + 100 * b + 10 * e + f) as y eqn:Ey.
  destruct ((1 <=? y) && (1 <=? d) && (d <=? days_in_month y mo)) eqn:Ec;
    [|discriminate].
  injection H as <-. cbn [year month day hour minute second] in Hv.
  destruct Hv as (Hy & _ & Hdm & _).
  exists mo, d, y, h, mi, smo, sd, sh, smi, ap.
  repeat (split; [assumption || lia|]). split.
  - rewrite Ey, (pad4_year Ha Hb He Hf). reflexivity.
  - unfold hour24. destruct (ampm_cases _ Hap) as [-> | ->]; reflexivity.
Qed.

Lemma isoformat_iso (dt : datetime) :
  second dt = 0 ->
  isoformat dt = iso_8601 (year dt) (month dt) (day dt) (hour dt) (minute dt).
Proof. intros H. unfold isoformat, iso_8601. now rewrite H. Qed.

End StrptimeShaped.

(** * The chunks of a well-formed document, line by line *)

Section WellFormed.

Lemma message_at_delimiter (l rest : str) :
  is_delimiter_line l = true ->
  exists ts au,
    l = chr "[" :: ts ++ chr "]" :: chr " " :: au /\
    message_at (l ++ nl :: rest) =
    Some (ts, au, consumed rest (scan_to at_boundary rest),
          scan_to at_boundary rest).
Proof.
  intros H. apply is_delimiter_line_iff in H.
  destruct H as (ts & au & Hts & Hne & Hfree & ->).
  exists ts, au. split; [reflexivity|]. unfold message_at.
  replace ((chr "[" :: ts ++ chr "]" :: chr " " :: au) ++ nl :: rest)
    with (chr "[" :: ts ++ chr "]" :: chr " " :: au ++ nl :: rest)
    by (list_flat; reflexivity).
  now rewrite delim_at_shaped.
Qed.

Lemma drop_body_filter (ls : list str) :
  filter is_delimiter_line (drop_body ls) = filter is_delimiter_line ls.
Proof.
  induction ls as [|l ls IH]; [reflexivity|]. simpl.
  destruct (is_delimiter_line l) eqn:E; [simpl; now rewrite E | exact IH].
Qed.

Lemma drop_body_idem (ls : list str) : drop_body (drop_body ls) = drop_body ls.
Proof.
  induction ls as [|l ls IH]; [reflexivity|]. cbn [drop_body].
  destruct (is_delimiter_line l) eqn:E; [|exact IH].
  cbn [drop_body]. now rewrite E.
Qed.

(** What a body skips is whole lines. *)
Lemma drop_body_split (ls : list str) :
  exists q,
    join [nl] ls = q ++ join [nl] (drop_body ls) /\
    (drop_body ls = [] \/ q = [] \/ exists q', q = q' ++ [nl]).
Proof.
  induction ls as [|l ls IH]; [exists []; auto|].
  cbn [drop_body]. destruct (is_delimiter_line l); [exists []; auto|].
  destruct ls as [|l' ls'].
  - exists l. split; [now rewrite app_nil_r | now left].
  - destruct IH as (q & Hq & Hcases).
    rewrite (@join_cons [nl] l (l' :: ls')) by discriminate. cbn [app].
    exists (l ++ nl :: q). split; [rewrite Hq; list_flat; reflexivity|].
    destruct Hcases as [H | [-> | (q' & ->)]]; [now left | right; right..].
    + now exists l.
    + exists (l ++ nl :: q'). list_flat. reflexivity.
Qed.

Lemma at_line_start_app (q s : str) (k : nat) :
  (k = 0 -> q = [] \/ exists q', q = q' ++ [nl]) ->
  at_line_start s k = true -> at_line_start (q ++ s) (length q + k) = true.
Proof.
  intros Hq Hk. destruct k as [|j].
  - rewrite Nat.add_0_r. destruct (Hq eq_refl) as [-> | (q' & ->)]; [reflexivity|].
    rewrite length_app, Nat.add_comm. cbn [length Nat.add at_line_start].
    rewrite <- app_assoc, nth_error_app2, Nat.sub_diag by apply le_n.
    reflexivity.
  - rewrite <- plus_n_Sm. cbn [at_line_start] in *.
    rewrite nth_error_app2 by lia.
    now replace (length q + j - length q) with j by lia.
Qed.

Lemma no_message_in_nil (fuel off : nat) :
  finditer_from fuel message_re [] off = [].
Proof.
  destruct fuel as [|f]; [reflexivity|].
  now rewrite finditer_unfold, (@search_last_line [] off bracket_free_nil).
Qed.

(** On well-formed lines the chunks begin with the delimiter lines, in
    order, each at the start of its line, and put end to end they are the
    text from the first delimiter line on. *)
Lemma chunks_lines (n : nat) : forall ls,
  length ls <= n -> lines_wf ls ->
  forall fuel off, length (join [nl] ls) < fuel ->
    map delimiter_of (finditer_from fuel message_re (join [nl] ls) off) =
      filter is_delimiter_line ls /\
    Forall (fun mt => off <= m_start mt /\
                      at_line_start (join [nl] ls) (m_start mt - off) = true)
           (finditer_from fuel message_re (join [nl] ls) off) /\
    concat (map m_text (finditer_from fuel message_re (join [nl] ls) off)) =
      join [nl] (drop_body ls).
Proof.
  induction n as [|n IH]; intros ls Hn Hwf fuel off Hf;
    (destruct fuel as [|f]; [lia|]).
  - destruct ls; [|simpl in Hn; lia].
    cbn [join]. rewrite no_message_in_nil. repeat split; constructor.
  - destruct ls as [|l ls].
    { cbn [join]. rewrite no_message_in_nil. repeat split; constructor. }
    destruct ls as [|l' ls'].
    { assert (Hd : is_delimiter_line l = false) by apply Hwf.
      rewrite finditer_unfold. cbn [join].
      rewrite (@search_last_line l off (lines_wf_single Hwf)).
      cbn [filter map drop_body]. rewrite Hd. repeat split; constructor. }
    rewrite (@join_cons [nl] l (l' :: ls')) in * by discriminate.
    cbn [app] in *.
    set (rest := join [nl] (l' :: ls')) in *.
    assert (Hwf' : lines_wf (l' :: ls'))
      by (eapply lines_wf_tail; [discriminate | exact Hwf]).
    destruct (is_delimiter_line l) eqn:Hd.
    + destruct (@message_at_delimiter l rest Hd) as (ts & au & Hl & Hm).
      assert (Hh : match_here message_re (l ++ nl :: rest) =
                   Some (scan_to at_boundary rest,
                         [(3, consumed rest (scan_to at_boundary rest));
                          (2, au); (1, ts)]))
        by (now rewrite match_here_message, Hm).
      rewrite finditer_unfold, (@search_here message_re _ _ _ off Hh).
      cbn [m_text m_post m_start].
      destruct (drop_body_split (l' :: ls')) as (q & Hq & Hcases).
      fold rest in Hq.
      assert (Hscan : scan_to at_boundary rest = join [nl] (drop_body (l' :: ls')))
        by (unfold rest; now apply scan_lines).
      assert (Hc : consumed (l ++ nl :: rest) (scan_to at_boundary rest)
                   = l ++ nl :: q).
      { rewrite Hscan, Hq.
        replace (l ++ nl :: q ++ join [nl] (drop_body (l' :: ls')))
          with ((l ++ nl :: q) ++ join [nl] (drop_body (l' :: ls')))
          by (list_flat; reflexivity).
        apply consumed_app. }
      rewrite Hc, Hscan.
      assert (Hlen : length (join [nl] (drop_body (l' :: ls'))) <= length rest)
        by (rewrite Hq, length_app; lia).
      remember (l ++ nl :: q) as Q eqn:EQ.
      destruct Q as [|x tx]; [destruct l; discriminate|]. cbv iota.
      destruct (IH (drop_body (l' :: ls'))
                   ltac:(pose proof (drop_body_length (l' :: ls'));
                         simpl in *; lia)
                   (drop_body_wf Hwf') f (off + length (x :: tx))
                   ltac:(rewrite length_app in Hf; simpl in Hf; lia))
        as (IH1 & IH2 & IH3).
      split; [|split].
      * cbn [map filter]. rewrite Hd, IH1, drop_body_filter. f_equal.
        unfold delimiter_of. cbn [m_groups grp group Nat.eqb]. now rewrite Hl.
      * constructor.
        -- cbn [m_start]. split; [apply le_n|]. now rewrite Nat.sub_diag.
        -- destruct Hcases as [Hnil | Hends].
           { rewrite Hnil. cbn [join]. rewrite no_message_in_nil. constructor. }
           eapply Forall_impl; [|exact IH2]. intros mt [Hoff Hline].
           split; [lia|].
           replace (m_start mt - off)
             with (length (x :: tx) + (m_start mt - (off + length (x :: tx))))
             by lia.
           replace (l ++ nl :: rest)
             with ((x :: tx) ++ join [nl] (drop_body (l' :: ls')))
             by (rewrite EQ, Hq; list_flat; reflexivity).
           apply at_line_start_app; [|exact Hline].
           intros _. right. rewrite EQ. destruct Hends as [-> | (q' & ->)].
           ++ now exists l.
           ++ exists (l ++ nl :: q'). list_flat. reflexivity.
      * cbn [map concat m_text]. rewrite IH3, drop_body_idem.
        change (drop_body (l :: l' :: ls'))
          with (if is_delimiter_line l then l :: l' :: ls'
                else drop_body (l' :: ls')).
        rewrite Hd, (@join_cons [nl] l (l' :: ls')) by discriminate.
        fold rest. rewrite EQ, Hq. list_flat. reflexivity.
    + assert (Hbf : bracket_free l) by (eapply lines_wf_head; eauto).
      rewrite finditer_unfold, (@search_skip_line l rest off Hbf).
      rewrite <- finditer_unfold.
      destruct (IH (l' :: ls') ltac:(simpl in *; lia) Hwf' (S f)
                   (off + length l + 1)
                   ltac:(fold rest; rewrite length_app in Hf; simpl in Hf; lia))
        as (IH1 & IH2 & IH3).
      fold rest in IH1, IH2, IH3. split; [|split].
      * cbn [filter]. now rewrite Hd.
      * eapply Forall_impl; [|exact IH2]. intros mt [Hoff Hline].
        split; [lia|].
        replace (m_start mt - off)
          with (length (l ++ [nl]) + (m_start mt - (off + length l + 1)))
          by (rewrite length_app; simpl; lia).
        replace (l ++ nl :: rest) with ((l ++ [nl]) ++ rest)
          by (list_flat; reflexivity).
        apply at_line_start_app; [|exact Hline].
        intros _. right. now exists l.
      * change (drop_body (l :: l' :: ls'))
          with (if is_delimiter_line l then l :: l' :: ls'
                else drop_body (l' :: ls')).
        now rewrite Hd.
Qed.

Lemma chunks_of_well_formed (doc : str) :
  well_formed doc = true ->
  map delimiter_of (re_finditer message_re doc) =
    filter is_delimiter_line (doc_lines doc) /\
  Forall (fun mt => at_line_start doc (m_start mt) = true)
         (re_finditer message_re doc) /\
  concat (map m_text (re_finditer message_re doc)) =
    join [nl] (drop_body (doc_lines doc)).
Proof.
  intros H. apply well_formed_lines in H. unfold re_finditer.
  destruct (@chunks_lines (length (doc_lines doc)) (doc_lines doc) (le_n _) H
              (S (length doc)) 0) as (H1 & H2 & H3).
  - unfold doc_lines. rewrite join_split. lia.
  - unfold doc_lines in *. rewrite join_split in *.
    split; [exact H1|]. split; [|exact H3].
    eapply Forall_impl; [|exact H2]. intros mt [_ Hl].
    now rewrite Nat.sub_0_r in Hl.
Qed.

End WellFormed.

(** * The serialised text *)

Section Escapes.

Ltac each_char a := destruct a as [[] [] [] [] [] [] [] []]; vm_compute; reflexivity.

Lemma escape_chr_ascii (a : ascii) :
  forallb (in_range 32 126) (escape_chr a) = true.
Proof. each_char a. Qed.

Lemma read_escape_chr (a : ascii) (t : str) :
  read_escape (escape_chr a ++ t) = Some (a, t).
Proof. each_char a. Qed.

Lemma printable_not_nl (a : ascii) : in_range 32 126 a = true -> a <> nl.
Proof. intros H ->. discriminate. Qed.

Lemma printable_json_char (s : str) :
  forallb (in_range 32 126) s = true -> forallb json_char s = true.
Proof.
  intros H. apply forallb_forall. intros a Ha.
  rewrite forallb_forall in H. unfold json_char. rewrite (H a Ha).
  apply orb_true_r.
Qed.

Lemma printable_nl_free (s : str) :
  forallb (in_range 32 126) s = true -> nl_free s.
Proof.
  intros H Hin. rewrite forallb_forall in H. now apply (printable_not_nl (H _ Hin)).
Qed.

Lemma forallb_flat_map (A : Type) (p : ascii -> bool) (f : A -> str) (l : list A) :
  (forall x, In x l -> forallb p (f x) = true) -> forallb p (flat_map f l) = true.
Proof.
  induction l as [|x l IH]; intros H; [reflexivity|].
  simpl. rewrite forallb_app, (H x (or_introl eq_refl)). apply IH.
  intros y Hy. apply H. now right.
Qed.

Lemma encode_string_ascii (s : str) :
  forallb (in_range 32 126) (encode_basestring_ascii s) = true.
Proof.
  unfold encode_basestring_ascii. cbn [forallb]. rewrite forallb_app.
  rewrite forallb_flat_map by (intros; apply escape_chr_ascii). reflexivity.
Qed.

(** The encoding of a string tells where it ends and which string it was. *)
Lemma encode_string_delimits (s : str) : self_delimiting encode_basestring_ascii s.
Proof.
  unfold self_delimiting, encode_basestring_ascii. intros s2 t1 t2 H.
  injection H as H. rewrite <- !app_assoc in H. cbn [app] in H.
  revert s2 H. induction s as [|a s IH]; intros [|b s2] H; cbn [flat_map app] in H.
  - injection H as ->. auto.
  - exfalso. apply (f_equal read_escape) in H.
    rewrite <- app_assoc, read_escape_chr in H. discriminate.
  - exfalso. apply (f_equal read_escape) in H.
    rewrite <- app_assoc, read_escape_chr in H. discriminate.
  - rewrite <- !app_assoc in H. apply (f_equal read_escape) in H.
    rewrite !read_escape_chr in H. injection H as -> H.
    destruct (IH s2 H) as [-> ->]. auto.
Qed.

End Escapes.

Section JsonInduction.
Variable P : json -> Prop.
Hypothesis Hnull : P JNull.
Hypothesis Hstr : forall s, P (JStr s).
Hypothesis Harr : forall items, Forall P items -> P (JArr items).
Hypothesis Hobj :
  forall members, Forall (fun kv => P (snd kv)) members -> P (JObj members).

(** Induction on the values, the items of a list and the values of a
    dictionary included. *)
Fixpoint json_induction (o : json) : P o :=
  match o with
  | JNull => Hnull
  | JStr s => Hstr s
  | JArr items =>
      Harr ((fix all (l : list json) : Forall P l :=
               match l with
               | [] => Forall_nil P
               | x :: l' => Forall_cons x (json_induction x) (all l')
               end) items)
  | JObj members =>
      Hobj ((fix all (l : list (str * json))
               : Forall (fun kv => P (snd kv)) l :=
               match l with
               | [] => Forall_nil _
               | kv :: l' =>
                   Forall_cons kv (json_induction (snd kv)) (all l')
               end) members)
  end.
End JsonInduction.

Section EncoderLaws.
Variable indent : option nat.

Lemma forallb_join (p : ascii -> bool) (sep : str) (parts : list str) :
  forallb p sep = true -> Forall (fun s => forallb p s = true) parts ->
  forallb p (join sep parts) = true.
Proof.
  intros Hsep H. induction H as [|s parts Hs _ IH]; [reflexivity|].
  destruct parts as [|s' parts]; [exact Hs|].
  rewrite join_cons by discriminate. now rewrite !forallb_app, Hs, Hsep, IH.
Qed.

Lemma newline_indent_chars (level : nat) :
  forallb json_char (newline_indent indent level) = true.
Proof.
  unfold newline_indent. destruct indent as [n|]; [|reflexivity].
  cbn [forallb]. apply andb_true_intro. split; [reflexivity|].
  induction (n * level) as [|k IH]; [reflexivity | exact IH].
Qed.

Lemma item_separator_chars : forallb json_char (item_separator indent) = true.
Proof. unfold item_separator. now destruct indent. Qed.

(** The encoder writes printable ASCII characters and, between the items of
    the indented form, newlines. *)
Lemma iterencode_chars (o : json) : forall level,
  forallb json_char (iterencode indent level o) = true.
Proof.
  induction o as [|s|items IH|members IH] using json_induction; intros level.
  - reflexivity.
  - apply printable_json_char, encode_string_ascii.
  - destruct items as [|x items]; [reflexivity|].
    cbn [iterencode]. cbn [forallb app s2l list_ascii_of_string].
    change (json_char "[") with true. cbv iota beta.
    rewrite !forallb_app, !newline_indent_chars. cbn [andb forallb].
    rewrite andb_true_r. apply forallb_join.
    + now rewrite forallb_app, item_separator_chars, newline_indent_chars.
    + apply Forall_map. eapply Forall_impl; [|exact IH]. intros o Ho. apply Ho.
  - destruct members as [|kv members]; [reflexivity|].
    cbn [iterencode]. cbn [forallb app s2l list_ascii_of_string].
    change (json_char "{") with true. cbv iota beta.
    rewrite !forallb_app, !newline_indent_chars. cbn [andb forallb].
    rewrite andb_true_r. apply forallb_join.
    + now rewrite forallb_app, item_separator_chars, newline_indent_chars.
    + apply Forall_map. eapply Forall_impl; [|exact IH].
      intros [k v] Hv. cbn [snd] in Hv.
      rewrite !forallb_app, (printable_json_char _ (encode_string_ascii k)), Hv.
      reflexivity.
Qed.

End EncoderLaws.

Section Compact.

(** The compact form has no newline. *)
Lemma dumps_printable (o : json) : forall level,
  forallb (in_range 32 126) (iterencode None level o) = true.
Proof.
  induction o as [|s|items IH|members IH] using json_induction; intros level.
  - reflexivity.
  - apply encode_string_ascii.
  - destruct items as [|x items]; [reflexivity|].
    cbn [iterencode newline_indent app s2l list_ascii_of_string forallb].
    rewrite app_nil_r, forallb_app. cbn [andb forallb].
    rewrite andb_true_r. apply forallb_join; [reflexivity|].
    apply Forall_map. eapply Forall_impl; [|exact IH]. intros o Ho. apply Ho.
  - destruct members as [|kv members]; [reflexivity|].
    cbn [iterencode newline_indent app s2l list_ascii_of_string forallb].
    rewrite app_nil_r, forallb_app. cbn [andb forallb].
    rewrite andb_true_r. apply forallb_join; [reflexivity|].
    apply Forall_map. eapply Forall_impl; [|exact IH].
    intros [k v] Hv. cbn [snd] in Hv.
    now rewrite !forallb_app, encode_string_ascii, Hv.
Qed.

Lemma dumps_nl_free (o : json) : nl_free (dumps o).
Proof. apply printable_nl_free, dumps_printable. Qed.

(** Lines that end with a newline, one after the other, split back into
    those lines and an empty rest. *)
Lemma split_terminated (A : Type) (f : A -> str) (l : list A) :
  (forall x, nl_free (f x)) ->
  split_chr nl (flat_map (fun x => f x ++ [nl]) l) = map f l ++ [[]].
Proof.
  intros Hf. induction l as [|x l IH]; [reflexivity|].
  cbn [flat_map map app]. rewrite <- app_assoc. cbn [app].
  now rewrite (split_chr_line_app _ (Hf x)), IH.
Qed.

End Compact.

Section Delimiting.
Variable indent : option nat.

Lemma join_first (sep e : str) (es : list str) :
  exists t, join sep (e :: es) = e ++ t.
Proof.
  destruct es as [|e' es]; [exists []; simpl; now rewrite app_nil_r|].
  rewrite join_cons by discriminate. now eexists.
Qed.

(** Every encoded value opens with n, a double quote, a bracket or a brace. *)
Lemma iterencode_opens (level : nat) (o : json) :
  exists a t, iterencode indent level o = a :: t /\ opens_value a = true.
Proof.
  destruct o as [|s|[|x items]|[|kv members]]; cbn [iterencode];
    eexists; eexists; (split; [reflexivity|reflexivity]).
Qed.

(** A list of encoded items, separated by the item separator and closed by
    [close], tells its items and where it ends. *)
Lemma items_delimit (A : Type) (f : A -> str) (level : nat) (close : ascii) :
  close <> nl -> close <> chr "," ->
  forall l1 l2 t1 t2,
    l1 <> [] -> l2 <> [] ->
    Forall (self_delimiting f) l1 ->
    join (item_separator indent ++ newline_indent indent (S level)) (map f l1) ++
      newline_indent indent level ++ close :: t1 =
    join (item_separator indent ++ newline_indent indent (S level)) (map f l2) ++
      newline_indent indent level ++ close :: t2 ->
    l1 = l2 /\ t1 = t2.
Proof.
  intros Hc1 Hc2.
  set (sep := item_separator indent ++ newline_indent indent (S level)).
  assert (Hsep : exists u, sep = chr "," :: u).
  { unfold sep, item_separator. destruct indent; eexists; reflexivity. }
  assert (Hclose : forall t, exists c u,
             newline_indent indent level ++ close :: t = c :: u /\ c <> chr ",").
  { intros t. unfold newline_indent. destruct indent as [n|].
    - exists nl. eexists. split; [reflexivity | discriminate].
    - exists close, t. split; [reflexivity | exact Hc2]. }
  destruct Hsep as (u & Hu).
  induction l1 as [|x l1 IH]; intros l2 t1 t2 Hn1 Hn2 Hall H; [congruence|].
  destruct l2 as [|y l2]; [congruence|].
  inversion Hall as [|? ? Hx Hall']; subst.
  destruct l1 as [|x' l1]; destruct l2 as [|y' l2]; cbn [map] in H.
  - change (join sep [f x]) with (f x) in H.
    change (join sep [f y]) with (f y) in H.
    apply Hx in H. destruct H as [-> H].
    apply app_inv_head in H. injection H as ->. auto.
  - exfalso. change (join sep [f x]) with (f x) in H.
    rewrite (@join_cons sep (f y) (f y' :: map f l2)) in H by discriminate.
    rewrite <- !app_assoc in H. apply Hx in H. destruct H as [_ H].
    destruct (Hclose t1) as (c & v & Hv & Hne). rewrite Hv, Hu in H.
    injection H as -> _. now apply Hne.
  - exfalso. change (join sep [f y]) with (f y) in H.
    rewrite (@join_cons sep (f x) (f x' :: map f l1)) in H by discriminate.
    rewrite <- !app_assoc in H. apply Hx in H. destruct H as [_ H].
    destruct (Hclose t2) as (c & v & Hv & Hne). rewrite Hv, Hu in H.
    injection H as <- _. now apply Hne.
  - rewrite (@join_cons sep (f x) (f x' :: map f l1)) in H by discriminate.
    rewrite (@join_cons sep (f y) (f y' :: map f l2)) in H by discriminate.
    rewrite <- !app_assoc in H. apply Hx in H. destruct H as [-> H].
    apply app_inv_head in H.
    destruct (IH (y' :: l2) t1 t2 ltac:(discriminate) ltac:(discriminate)
                 Hall' H) as [E ->].
    rewrite E. auto.
Qed.

Lemma member_delimits (level : nat) (kv : str * json) :
  self_delimiting (iterencode indent (S level)) (snd kv) ->
  self_delimiting
    (fun kv : str * json =>
       let '(key, value) := kv in
       encode_basestring_ascii key ++ key_separator ++
       iterencode indent (S level) value) kv.
Proof.
  destruct kv as [k v]. cbn [snd]. intros Hv [k2 v2] t1 t2 H.
  rewrite <- !app_assoc in H. apply encode_string_delimits in H.
  destruct H as [-> H]. apply app_inv_head in H. apply Hv in H.
  destruct H as [-> ->]. auto.
Qed.

Lemma iterencode_arr (level : nat) (x : json) (l : list json) :
  iterencode indent level (JArr (x :: l)) =
  chr "[" :: newline_indent indent (S level) ++
  join (item_separator indent ++ newline_indent indent (S level))
       (map (iterencode indent (S level)) (x :: l)) ++
  newline_indent indent level ++ [chr "]"].
Proof. reflexivity. Qed.

Lemma iterencode_obj (level : nat) (kv : str * json) (l : list (str * json)) :
  iterencode indent level (JObj (kv :: l)) =
  chr "{" :: newline_indent indent (S level) ++
  join (item_separator indent ++ newline_indent indent (S level))
       (map (fun kv : str * json =>
               let '(key, value) := kv in
               encode_basestring_ascii key ++ key_separator ++
               iterencode indent (S level) value) (kv :: l)) ++
  newline_indent indent level ++ [chr "}"].
Proof. reflexivity. Qed.

(** After the opening bracket or brace of a list or dictionary that is not
    empty comes a newline or the first item, never the closing character. *)
Lemma items_open (level : nat) (sep e : str) (es : list str) (rest : str) :
  (exists a t, e = a :: t /\ opens_value a = true) ->
  exists c u,
    newline_indent indent (S level) ++ join sep (e :: es) ++ rest = c :: u /\
    c <> chr "]" /\ c <> chr "}".
Proof.
  intros (a & t & -> & Ha). unfold newline_indent. destruct indent as [n|].
  - exists nl. eexists. split; [reflexivity|]. split; discriminate.
  - destruct (join_first sep (a :: t) es) as (v & ->).
    exists a. eexists. split; [reflexivity|].
    split; intros ->; discriminate Ha.
Qed.

Lemma member_opens (level : nat) (kv : str * json) :
  exists a t,
    (let '(key, value) := kv in
     encode_basestring_ascii key ++ key_separator ++
     iterencode indent (S level) value) = a :: t /\ opens_value a = true.
Proof. destruct kv as [k v]. eexists. eexists. split; reflexivity. Qed.

(** The encoding of a value tells where it ends and which value it was. *)
Lemma iterencode_delimits (o : json) : forall level,
  self_delimiting (iterencode indent level) o.
Proof.
  induction o as [|s|items IH|members IH] using json_induction;
    intros level o2 t1 t2 H.
  - destruct o2 as [|s2|[|y l2]|[|y l2]]; try discriminate H.
    injection H as ->. auto.
  - destruct o2 as [|s2|[|y l2]|[|y l2]]; try discriminate H.
    cbn [iterencode] in H. apply encode_string_delimits in H.
    destruct H as [-> ->]. auto.
  - destruct o2 as [|s2|items2|[|y l2]];
      try (destruct items as [|x l1]; discriminate H).
    destruct items as [|x l1]; destruct items2 as [|y l2].
    + injection H as ->. auto.
    + exfalso. rewrite iterencode_arr in H.
      change (map (iterencode indent (S level)) (y :: l2))
        with (iterencode indent (S level) y ::
              map (iterencode indent (S level)) l2) in H.
      rewrite <- app_comm_cons, <- !app_assoc in H.
      destruct (@items_open level
                  (item_separator indent ++ newline_indent indent (S level))
                  (iterencode indent (S level) y)
                  (map (iterencode indent (S level)) l2)
                  (newline_indent indent level ++ [chr "]"] ++ t2)
                  (iterencode_opens (S level) y)) as (c & u & Hu & Hc & _).
      rewrite Hu in H. injection H as <- _. now apply Hc.
    + exfalso. rewrite iterencode_arr in H.
      change (map (iterencode indent (S level)) (x :: l1))
        with (iterencode indent (S level) x ::
              map (iterencode indent (S level)) l1) in H.
      rewrite <- app_comm_cons, <- !app_assoc in H.
      destruct (@items_open level
                  (item_separator indent ++ newline_indent indent (S level))
                  (iterencode indent (S level) x)
                  (map (iterencode indent (S level)) l1)
                  (newline_indent indent level ++ [chr "]"] ++ t1)
                  (iterencode_opens (S level) x)) as (c & u & Hu & Hc & _).
      rewrite Hu in H. injection H as -> _. now apply Hc.
    + rewrite !iterencode_arr in H.
      rewrite <- !app_comm_cons, <- !app_assoc in H.
      apply (f_equal (@tl ascii)) in H. cbn [tl] in H. apply app_inv_head in H.
      cbn [app] in H.
      destruct (@items_delimit json (iterencode indent (S level)) level (chr "]")
                  ltac:(discriminate) ltac:(discriminate)
                  (x :: l1) (y :: l2) t1 t2
                  ltac:(discriminate) ltac:(discriminate)) as [E ->];
        [| exact H | rewrite E; auto].
      eapply Forall_impl; [|exact IH]. intros o Ho. apply Ho.
  - destruct o2 as [|s2|[|y l2]|members2];
      try (destruct members as [|x l1]; discriminate H).
    destruct members as [|x l1]; destruct members2 as [|y l2].
    + injection H as ->. auto.
    + exfalso. rewrite iterencode_obj in H.
      match type of H with
      | context [map ?f (y :: l2)] =>
          change (map f (y :: l2)) with (f y :: map f l2) in H
      end.
      cbv beta in H.
      rewrite <- app_comm_cons, <- !app_assoc in H.
      match type of H with
      | _ = _ :: _ ++ join ?sep (?e :: ?es) ++ ?rest =>
          destruct (@items_open level sep e es rest (member_opens level y))
            as (c & u & Hu & _ & Hc)
      end.
      assert (H2 := eq_trans H (f_equal (cons (chr "{")) Hu)).
      injection H2 as <- _. now apply Hc.
    + exfalso. rewrite iterencode_obj in H.
      match type of H with
      | context [map ?f (x :: l1)] =>
          change (map f (x :: l1)) with (f x :: map f l1) in H
      end.
      cbv beta in H.
      rewrite <- app_comm_cons, <- !app_assoc in H.
      match type of H with
      | _ :: _ ++ join ?sep (?e :: ?es) ++ ?rest = _ =>
          destruct (@items_open level sep e es rest (member_opens level x))
            as (c & u & Hu & _ & Hc)
      end.
      assert (H2 := eq_trans (eq_sym H) (f_equal (cons (chr "{")) Hu)).
      injection H2 as <- _. now apply Hc.
    + rewrite !iterencode_obj in H.
      rewrite <- !app_comm_cons, <- !app_assoc in H.
      apply (f_equal (@tl ascii)) in H. cbn [tl] in H. apply app_inv_head in H.
      cbn [app] in H.
      match type of H with
      | context [map ?f (x :: l1)] =>
          destruct (@items_delimit (str * json) f level (chr "}")
                      ltac:(discriminate) ltac:(discriminate)
                      (x :: l1) (y :: l2) t1 t2
                      ltac:(discriminate) ltac:(discriminate)) as [E ->];
            [| exact H | rewrite E; auto]
      end.
      eapply Forall_impl; [|exact IH]. intros kv Hkv.
      apply member_delimits. apply Hkv.
Qed.

Lemma iterencode_injective (level : nat) (o1 o2 : json) :
  iterencode indent level o1 = iterencode indent level o2 -> o1 = o2.
Proof.
  intros H. apply (f_equal (fun s => s ++ [])) in H.
  now apply iterencode_delimits in H.
Qed.

End Delimiting.

Section MessageDict.

Lemma map_JStr_injective (l1 l2 : list str) : map JStr l1 = map JStr l2 -> l1 = l2.
Proof.
  revert l2. induction l1 as [|x l1 IH]; intros [|y l2] H; try discriminate.
  - reflexivity.
  - injection H as -> H. now rewrite (IH _ H).
Qed.

Lemma json_of_option_injective (o1 o2 : option str) :
  json_of_option o1 = json_of_option o2 -> o1 = o2.
Proof. destruct o1, o2; simpl; congruence. Qed.

(** Two messages with the same dictionary are the same message. *)
Lemma message_dict_injective (m1 m2 : message) :
  message_dict m1 = message_dict m2 -> m1 = m2.
Proof.
  destruct m1, m2. unfold message_dict. cbn. intros H.
  injection H as -> -> -> Ha He Hr Hc Hg.
  apply map_JStr_injective in Ha, He, Hr.
  apply json_of_option_injective in Hc, Hg. congruence.
Qed.

Lemma map_injective (A B : Type) (f : A -> B) (l1 l2 : list A) :
  (forall x y, f x = f y -> x = y) -> map f l1 = map f l2 -> l1 = l2.
Proof.
  intros Hf. revert l2. induction l1 as [|x l1 IH]; intros [|y l2] H;
    try discriminate.
  - reflexivity.
  - injection H as Hx H. now rewrite (Hf _ _ Hx), (IH _ H).
Qed.

(** ** The two texts *)

Lemma jsonl_lines (messages : list message) :
  split_chr nl (save_to_jsonl_text messages) =
  map (fun message => dumps (message_dict message)) messages ++ [[]].
Proof.
  unfold save_to_jsonl_text.
  apply (@split_terminated message (fun message => dumps (message_dict message))).
  intros x. apply dumps_nl_free.
Qed.

Lemma jsonl_injective (ms1 ms2 : list message) :
  save_to_jsonl_text ms1 = save_to_jsonl_text ms2 -> ms1 = ms2.
Proof.
  intros H. apply (f_equal (split_chr nl)) in H. rewrite !jsonl_lines in H.
  apply app_inv_tail in H. revert H. apply map_injective.
  intros x y E. apply message_dict_injective.
  exact (iterencode_injective _ _ _ _ E).
Qed.

Lemma array_injective (ms1 ms2 : list message) :
  save_for_label_studio_text ms1 = save_for_label_studio_text ms2 -> ms1 = ms2.
Proof.
  unfold save_for_label_studio_text, dump_indent_2. intros H.
  apply iterencode_injective in H. injection H as H.
  revert H. apply map_injective. exact message_dict_injective.
Qed.

End MessageDict.

(** * The files that main reads and writes *)

Section Main.

(** What a run of main does when the input can be read and the output can
    be opened. *)
Lemma main_returns (args : args_t) (w : world) (doc : str) :
  files w (input_file args) = Some doc ->
  writable w (output args) = true ->
  main args w =
  Returned
    (MkWorld
       (file_of w)
       (fun f => if f =? file_of w (output args)
                 then Some (output_text (format args) (records doc))
                 else file_text w f)
       (writable w)
       (stdout w ++
        [\"Extracted " ++ str_of_nat (length (records doc)) ++
         \" messages from Discord data";
         \"Saved processed data to " ++ output args])).
Proof.
  intros Hin Hout. unfold main, parse_discord_file. rewrite Hin.
  unfold records. destruct (parse_discord_data doc) as [messages metadata].
  cbn [fst]. unfold save_to_jsonl, save_for_label_studio, write_text.
  cbn [print writable file_of file_text stdout]. rewrite Hout.
  destruct (format args);
    [change (same_path (format_name format_json) \"jsonl") with false
    |change (same_path (format_name format_jsonl) \"jsonl") with true];
    cbv iota; unfold print, output_text;
    cbn [writable file_of file_text stdout]; now rewrite <- app_assoc.
Qed.

Lemma main_returned_inv (args : args_t) (w w1 : world) :
  main args w = Returned w1 ->
  exists doc, files w (input_file args) = Some doc /\
              writable w (output args) = true.
Proof.
  unfold main, parse_discord_file.
  destruct (files w (input_file args)) as [doc|]; [|discriminate].
  destruct (parse_discord_data doc) as [messages metadata].
  unfold save_to_jsonl, save_for_label_studio, write_text.
  cbn [print writable file_of file_text stdout].
  destruct (writable w (output args)) eqn:E.
  - intros _. now exists doc.
  - now destruct (same_path (format_name (format args)) \"jsonl").
Qed.

Lemma main_raised (args : args_t) (w : world) :
  files w (input_file args) = None \/ writable w (output args) = false ->
  exists w', main args w = Raised w' /\ file_of w' = file_of w /\
             file_text w' = file_text w /\ writable w' = writable w.
Proof.
  unfold main, parse_discord_file.
  destruct (files w (input_file args)) as [doc|]; [|now exists w].
  intros [H | H]; [discriminate|].
  destruct (parse_discord_data doc) as [messages metadata].
  unfold save_to_jsonl, save_for_label_studio, write_text.
  cbn [print writable file_of file_text stdout]. rewrite H.
  destruct (same_path (format_name (format args)) \"jsonl"); eexists;
    (split; [reflexivity|]); repeat split; reflexivity.
Qed.

End Main.


(** * The claims of the specification *)

(** C6.  Scenario A: the banner with Guild TestGuild, Channel
    "General / chat" and Topic none, followed by the message of Alice, gives
    exactly one record, with author Alice, text "hello world", guild
    TestGuild, channel "chat" and timestamp 2023-01-02T15:04:00; the
    metadata returned beside the records carries the same guild and channel
    and the topic. *)
Theorem C6_scenario_A :
  parse_discord_data scenario_A =
  ([MkMessage \"2023-01-02T15:04:00" \"Alice" \"hello world" [] [] []
              (Some \"chat") (Some \"TestGuild")],
   MkMetadata (Some \"TestGuild") (Some \"chat") (Some \"none")).
Proof. vm_compute. reflexivity. Qed.

(** C1, as stated, fails: were the embed and reaction extraction a scan of
    the text of the whole file, every record of [two_messages] would carry
    the embed and the reaction of the first message; the record of Bob
    carries none. *)
Lemma C1_counterexample :
  ~ (forall r, In r (records two_messages) ->
       embeds r = extract_embeds two_messages /\
       reactions r = extract_reactions two_messages).
Proof.
  intros H.
  assert (Hin : In (MkMessage \"2023-01-02T15:05:00" \"Bob" \"nice" [] [] []
                              None None) (records two_messages)).
  { vm_compute. right. left. reflexivity. }
  apply H in Hin. destruct Hin as [Hin _]. vm_compute in Hin. discriminate.
Qed.

(** C1, amended.  The tuple assignment at the top of each iteration binds
    [content] to the third group of the current match, the body of that
    chunk; embeds and reactions of the i-th record are extracted from the
    body of the i-th chunk, and that body is the tail of the chunk's text. *)
Theorem C1_extraction_is_per_chunk (doc : str) :
  map embeds (records doc) =
    map (fun mt => extract_embeds (grp 3 (m_groups mt)))
        (re_finditer message_re doc) /\
  map reactions (records doc) =
    map (fun mt => extract_reactions (grp 3 (m_groups mt)))
        (re_finditer message_re doc) /\
  Forall (fun mt => is_suffix (grp 3 (m_groups mt)) (m_text mt))
         (re_finditer message_re doc) /\
  (forall md st mt, content (loop_body md st mt) = grp 3 (m_groups mt)).
Proof.
  rewrite records_map, !map_map. split; [reflexivity|].
  split; [reflexivity|]. split; [|exact loop_body_content].
  apply Forall_forall. intros mt Hin.
  apply finditer_in in Hin. destruct Hin as (pre & _ & _ & Hm).
  rewrite match_here_message in Hm.
  destruct (message_at _) as [[[[ts au] bd] post]|] eqn:E; [|discriminate].
  injection Hm as Hpost Hg. rewrite <- Hg. cbn [grp group Nat.eqb].
  apply message_at_inv in E. destruct E as (Hs & _).
  exists (chr "[" :: ts ++ chr "]" :: chr " " :: au ++ [nl]).
  apply (app_inv_tail (m_post mt)). rewrite Hs, Hpost.
  list_flat. reflexivity.
Qed.

(** C8, as stated, fails: in [quoted_stamp] the delimiter pattern occurs in
    the middle of the first line, no line of the document is a delimiter
    line, and yet a chunk begins at that occurrence. *)
Lemma C8_counterexample :
  count_delimiter_lines quoted_stamp = 0 /\
  ~ (forall mt, In mt (re_finditer message_re quoted_stamp) ->
       at_line_start quoted_stamp (m_start mt) = true).
Proof.
  split; [vm_compute; reflexivity|].
  intros H.
  specialize (H (hd (MkMatch 0 [] [] []) (re_finditer message_re quoted_stamp))).
  vm_compute in H. specialize (H (or_introl eq_refl)). discriminate.
Qed.

(** C8, amended.  Every chunk of the segmenter sits in the document at its
    offset and consists of a bracketed timestamp, a blank, a non-empty
    author free of newlines, a newline and a body; the three groups are the
    timestamp, the author and the body.  The chunk may begin anywhere, on a
    line start or not.  It ends where the document ends or where the next
    bracketed timestamp begins, and no bracketed timestamp begins inside the
    body. *)
Theorem C8_chunk_shape (doc : str) (mt : re_match) :
  In mt (re_finditer message_re doc) ->
  exists ts au bd,
    skipn (m_start mt) doc = m_text mt ++ m_post mt /\
    m_text mt = chr "[" :: ts ++ chr "]" :: chr " " :: au ++ nl :: bd /\
    stamp_shaped ts /\ au <> [] /\ nl_free au /\
    m_groups mt = [(3, bd); (2, au); (1, ts)] /\
    (m_post mt = [] \/ starts_with_bracket (m_post mt)) /\
    (forall b1 b2, bd = b1 ++ b2 -> b2 <> [] ->
       ~ starts_with_bracket (b2 ++ m_post mt)).
Proof.
  intros Hin. apply chunk_inv in Hin.
  destruct Hin as (pre & ts & au & bd & Hdoc & Hst & Htext & Hg & Hm).
  apply message_at_inv in Hm.
  destruct Hm as (_ & Hts & Hne & Hfree & Hstop & Hmin).
  exists ts, au, bd.
  split; [rewrite Hst, Hdoc; apply skipn_length_app|].
  split; [exact Htext|]. split; [exact Hts|]. split; [exact Hne|].
  split; [exact Hfree|]. split; [exact Hg|].
  split; [now apply at_boundary_iff|].
  intros b1 b2 Hb Hb2 Hbr.
  assert (Hf := Hmin b1 b2 Hb Hb2).
  assert (Ht : at_boundary (b2 ++ m_post mt) = true)
    by (apply at_boundary_iff; now right).
  congruence.
Qed.

Lemma C8_chunk_shape_witness :
  let mt := hd (MkMatch 0 [] [] []) (re_finditer message_re quoted_stamp) in
  exists ts au bd,
    skipn (m_start mt) quoted_stamp = m_text mt ++ m_post mt /\
    m_text mt = chr "[" :: ts ++ chr "]" :: chr " " :: au ++ nl :: bd /\
    stamp_shaped ts /\ au <> [] /\ nl_free au /\
    m_groups mt = [(3, bd); (2, au); (1, ts)] /\
    (m_post mt = [] \/ starts_with_bracket (m_post mt)) /\
    (forall b1 b2, bd = b1 ++ b2 -> b2 <> [] ->
       ~ starts_with_bracket (b2 ++ m_post mt)).
Proof.
  intros mt. apply (C8_chunk_shape quoted_stamp mt).
  vm_compute. left. reflexivity.
Defined.

(** C10.  When the document ends with a delimiter line that no newline
    follows, every chunk ends before that line begins: no chunk, hence no
    record, is made of the final message. *)
Theorem C10_unterminated_delimiter_dropped (pre d : str) (mt : re_match) :
  is_delimiter_line d = true ->
  In mt (re_finditer message_re (pre ++ d)) ->
  m_start mt + length (m_text mt) <= length pre.
Proof.
  intros Hd Hin. apply delimiter_line_boundary in Hd. destruct Hd as [Hb Hfree].
  apply chunk_inv in Hin.
  destruct Hin as (p & ts & au & bd & Hdoc & Hst & Htext & _ & Hm).
  apply message_at_inv in Hm. destruct Hm as (_ & _ & _ & _ & _ & Hmin).
  rewrite Hst.
  destruct (Nat.le_gt_cases (length d) (length (m_post mt))) as [Hle|Hlt].
  - apply (f_equal (@length ascii)) in Hdoc. rewrite !length_app in Hdoc. lia.
  - exfalso. rewrite app_assoc in Hdoc. apply app_eq_app in Hdoc.
    destruct Hdoc as [x [[Hpre Hpost] | [Hp Hd]]].
    + rewrite Hpost, length_app in Hlt. lia.
    + (* d = x ++ post with x a non-empty piece of the chunk *)
      assert (Hx : x <> []) by (intros ->; simpl in Hd; subst d; lia).
      rewrite Hd in Hfree. apply nl_free_app in Hfree. destruct Hfree as [Hfx _].
      rewrite Htext in Hp.
      change (chr "[" :: ts ++ chr "]" :: chr " " :: au ++ nl :: bd)
        with ((chr "[" :: ts) ++ chr "]" :: chr " " :: au ++ nl :: bd) in Hp.
      replace ((chr "[" :: ts) ++ chr "]" :: chr " " :: au ++ nl :: bd)
        with (((chr "[" :: ts) ++ chr "]" :: chr " " :: au ++ [nl]) ++ bd) in Hp
        by (list_flat; reflexivity).
      rewrite app_assoc in Hp. apply app_eq_app in Hp.
      destruct Hp as [y [[H1 H2] | [H1 H2]]].
      * (* x = y ++ bd with the newline of the delimiter inside y *)
        destruct y as [|y0 y] using rev_ind.
        -- simpl in H2. subst x.
           destruct bd as [|b0 bd]; [congruence|].
           specialize (Hmin [] (b0 :: bd) eq_refl ltac:(discriminate)).
           rewrite <- Hd in Hmin. congruence.
        -- exfalso.
           assert (E : (p ++ chr "[" :: ts ++ chr "]" :: chr " " :: au) ++ [nl]
                       = (pre ++ y) ++ [y0])
             by (etransitivity; [|etransitivity; [exact H1|]];
                 list_flat; reflexivity).
           apply app_inj_tail in E. destruct E as [_ <-].
           apply Hfx. rewrite H2. apply in_or_app. left.
           apply in_or_app. right. now left.
      * (* bd = y ++ x *)
        specialize (Hmin y x H2 Hx). rewrite <- Hd in Hmin. congruence.
Qed.

Lemma C10_unterminated_delimiter_dropped_witness :
  let mt := hd (MkMatch 0 [] [] []) (re_finditer message_re unterminated) in
  m_start mt + length (m_text mt) <=
  length (lines ["[1/2/2023 3:04 PM] Alice"; "hi"; ""]).
Proof.
  intros mt.
  apply (@C10_unterminated_delimiter_dropped
           (lines ["[1/2/2023 3:04 PM] Alice"; "hi"; ""])
           \"[1/2/2023 3:05 PM] Bob" mt).
  - vm_compute. reflexivity.
  - vm_compute. left. reflexivity.
Defined.

(** C5, as stated, fails: in [unterminated] every bracketed timestamp
    stands in a delimiter line, the delimiter lines are two and the record
    is one.  The last line is a delimiter line that no newline follows, and
    no record is made of it (C10). *)
Lemma C5_counterexample :
  stamps_in_delimiter_lines unterminated = true /\
  count_delimiter_lines unterminated = 2 /\
  length (records unterminated) = 1 /\
  length (records unterminated) <> count_delimiter_lines unterminated.
Proof. vm_compute. repeat split; discriminate. Qed.

(** C5, amended.  In a document where bracketed timestamps occur only in
    delimiter lines, the records are as many as the delimiter lines that a
    newline ends: as many as the delimiter lines when the last line of the
    document is none, one less when it is one.  With no delimiter line the
    record sequence is empty and so is the output, the text "[]" in the
    array form and the empty text in the line-delimited form; main, when
    the input can be read and the output can be opened, returns after
    writing that text and printing the count 0. *)
Theorem C5_record_count (doc : str) :
  stamps_in_delimiter_lines doc = true ->
  length (records doc) = count_terminated_delimiter_lines doc /\
  (is_delimiter_line (last (doc_lines doc) []) = false ->
   length (records doc) = count_delimiter_lines doc) /\
  (is_delimiter_line (last (doc_lines doc) []) = true ->
   S (length (records doc)) = count_delimiter_lines doc) /\
  (count_delimiter_lines doc = 0 ->
   records doc = [] /\
   save_for_label_studio_text (records doc) = \"[]" /\
   save_to_jsonl_text (records doc) = [] /\
   forall args w,
     files w (input_file args) = Some doc ->
     writable w (output args) = true ->
     exists w',
       main args w = Returned w' /\
       files w' (output args) =
         Some (match format args with
               | format_json => \"[]"
               | format_jsonl => []
               end) /\
       stdout w' =
         stdout w ++ [\"Extracted 0 messages from Discord data";
                      \"Saved processed data to " ++ output args]).
Proof.
  intros H.
  assert (E : length (records doc) = count_terminated_delimiter_lines doc)
    by (rewrite records_length; now apply finditer_count_terminated).
  assert (L := count_last_line doc).
  split; [exact E|]. split; [|split].
  - intros Hl. rewrite Hl in L. lia.
  - intros Hl. rewrite Hl in L. lia.
  - intros H0.
    assert (Hr : records doc = [])
      by (destruct (records doc); [reflexivity | simpl in E; lia]).
    split; [exact Hr|]. rewrite Hr.
    split; [reflexivity|]. split; [reflexivity|].
    intros args w Hin Hout. eexists.
    split; [apply (main_returns _ _ Hin Hout)|].
    rewrite Hr. unfold files. cbn [file_of file_text stdout].
    rewrite Nat.eqb_refl. split; [now destruct (format args) | reflexivity].
Qed.

Lemma C5_record_count_witness :
  (length (records two_messages) = 2 /\
   length (records two_messages) = count_delimiter_lines two_messages) /\
  (length (records unterminated) = 1 /\
   S (length (records unterminated)) = count_delimiter_lines unterminated) /\
  (records banner_only = [] /\
   save_for_label_studio_text (records banner_only) = \"[]" /\
   save_to_jsonl_text (records banner_only) = []).
Proof.
  split; [|split].
  - split.
    + exact (proj1 (C5_record_count two_messages eq_refl)).
    + exact (proj1 (proj2 (C5_record_count two_messages eq_refl)) eq_refl).
  - split.
    + exact (proj1 (C5_record_count unterminated eq_refl)).
    + exact (proj1 (proj2 (proj2 (C5_record_count unterminated eq_refl)))
               eq_refl).
  - destruct (proj2 (proj2 (proj2 (C5_record_count banner_only eq_refl)))
                eq_refl) as (H1 & H2 & H3 & _).
    now split.
Defined.

(** C4.  The text of a record contains none of the markers {Attachments},
    {Embed}, {Reactions}, whatever the document. *)
Theorem C4_text_has_no_marker (doc : str) (r : message) :
  In r (records doc) ->
  ~ substring marker_attachments (text r) /\
  ~ substring marker_embed (text r) /\
  ~ substring marker_reactions (text r).
Proof.
  rewrite records_map. intros Hin. apply in_map_iff in Hin.
  destruct Hin as (mt & <- & _). cbn [text record_of].
  repeat split; apply clean_free; simpl; auto.
Qed.

Lemma C4_text_has_no_marker_witness :
  let r := hd (MkMessage [] [] [] [] [] [] None None) (records two_messages) in
  ~ substring marker_attachments (text r) /\
  ~ substring marker_embed (text r) /\
  ~ substring marker_reactions (text r).
Proof.
  intros r. apply (C4_text_has_no_marker two_messages r).
  vm_compute. left. reflexivity.
Defined.

(** C9, as stated, fails for the channel.  By its words each field is the
    captured value: in Scenario A the banner is found, the captured channel
    value is "General / chat" and the channel field is "chat".  Read with
    what the specification says next of the channel, that only the text
    after the last separator is kept, it fails as well: for the captured
    value "a / / b" the text after the last separator is "b" and the field
    is "/ b", because split takes the separators from left to right and the
    second one shares its first blank with the first. *)
Lemma C9_counterexample :
  (exists h,
     re_search header_re scenario_A = Some h /\
     grp 2 (m_groups h) = \"General / chat" /\
     channel (snd (parse_discord_data scenario_A)) = Some \"chat" /\
     channel (snd (parse_discord_data scenario_A)) <> Some (grp 2 (m_groups h))) /\
  (exists h,
     re_search header_re shared_blank = Some h /\
     grp 2 (m_groups h) = \"a / / b" /\
     spec_channel (grp 2 (m_groups h)) = \"b" /\
     channel (snd (parse_discord_data shared_blank)) = Some \"/ b" /\
     channel (snd (parse_discord_data shared_blank)) <>
       Some (spec_channel (grp 2 (m_groups h)))).
Proof.
  split.
  - eexists. split; [vm_compute; reflexivity|].
    split; [reflexivity|]. split; [vm_compute; reflexivity|].
    vm_compute. discriminate.
  - eexists. split; [vm_compute; reflexivity|].
    split; [reflexivity|]. split; [vm_compute; reflexivity|].
    split; [vm_compute; reflexivity|]. vm_compute. discriminate.
Qed.

(** C9, amended.  When the banner is not found the three fields are absent.
    When it is found, guild and topic are the captured values, and the
    channel is the last piece of the captured value split at " / " the way
    split does it: the captured value is the pieces joined by the
    separator, each piece but the last is followed by the first separator
    that a reading from left to right meets, and the last piece, the
    channel, holds no separator.  No other pieces fit this description, so
    it fixes the channel; it is the captured value itself when that holds
    no separator. *)
Theorem C9_header_metadata (doc : str) :
  match re_search header_re doc with
  | None => snd (parse_discord_data doc) = MkMetadata None None None
  | Some h =>
      exists pieces name,
        snd (parse_discord_data doc) =
          MkMetadata (Some (grp 1 (m_groups h))) (Some name)
                     (Some (grp 3 (m_groups h))) /\
        grp 2 (m_groups h) = join \" / " (pieces ++ [name]) /\
        Forall (first_at_end \" / ") pieces /\
        ~ substring \" / " name /\
        (forall pieces' name',
           grp 2 (m_groups h) = join \" / " (pieces' ++ [name']) ->
           Forall (first_at_end \" / ") pieces' ->
           ~ substring \" / " name' ->
           pieces' = pieces /\ name' = name) /\
        (~ substring \" / " (grp 2 (m_groups h)) -> name = grp 2 (m_groups h))
  end.
Proof.
  rewrite parse_metadata. unfold extract_header.
  destruct (re_search header_re doc) as [h|]; [|reflexivity].
  destruct (channel_name_pieces (grp 2 (m_groups h))) as (pieces & Hj & Hp & Hn).
  assert (Hu : forall pieces' name',
             grp 2 (m_groups h) = join \" / " (pieces' ++ [name']) ->
             Forall (first_at_end \" / ") pieces' ->
             ~ substring \" / " name' ->
             pieces' = pieces /\ name' = channel_name (grp 2 (m_groups h))).
  { intros pieces' name' Hj' Hp' Hn'.
    apply (@pieces_unique \" / "); try assumption.
    now rewrite <- Hj, <- Hj'. }
  exists pieces, (channel_name (grp 2 (m_groups h))).
  split; [reflexivity|]. split; [exact Hj|]. split; [exact Hp|].
  split; [exact Hn|]. split; [exact Hu|].
  intros Hno. symmetry. now apply (Hu [] (grp 2 (m_groups h))).
Qed.

(** C3.  The code and the claim part on [embed_with_bracket] and on
    [reaction_with_bracket].  The chunk holds no bracketed timestamp, so by
    the claim the section runs to the end of the chunk and each of its
    non-blank lines is an entry.  The code ends the section at the first
    opening bracket, whatever follows it: of the embed line
    "see [docs] for details" the entry is "see", of the reactions only
    "thumbsup" is left.  The removal of the sections from the text ends at
    an empty line or at a line that begins with a bracket, so it takes the
    whole section: what follows the bracket is in no field of the
    record. *)
Theorem C3_section_cut_at_bracket :
  let mt := hd (MkMatch 0 [] [] []) (re_finditer message_re embed_with_bracket) in
  let r := hd (MkMessage [] [] [] [] [] [] None None) (records embed_with_bracket) in
  let mt' := hd (MkMatch 0 [] [] []) (re_finditer message_re reaction_with_bracket) in
  let r' := hd (MkMessage [] [] [] [] [] [] None None) (records reaction_with_bracket) in
  (records embed_with_bracket = [r] /\
   grp 3 (m_groups mt) =
     lines ["new release"; "{Embed}"; "Release notes"; "see [docs] for details"] /\
   spec_section_lines marker_embed (grp 3 (m_groups mt)) =
     [\"Release notes"; \"see [docs] for details"] /\
   embeds r = [\"Release notes"; \"see"] /\
   text r = \"new release" /\ attachments r = [] /\ reactions r = []) /\
  (records reaction_with_bracket = [r'] /\
   grp 3 (m_groups mt') =
     lines ["hi"; "{Reactions}"; "thumbsup [2]"; "heart 1"] /\
   spec_section_lines marker_reactions (grp 3 (m_groups mt')) =
     [\"thumbsup [2]"; \"heart 1"] /\
   reactions r' = [\"thumbsup"] /\
   text r' = \"hi" /\ attachments r' = [] /\ embeds r' = []).
Proof. vm_compute. repeat split. Qed.

(** C2.  The code and the claim part on [two_attachments]: the body holds
    the marker and after it two lines that start with https://, and by the
    claim each of them is an entry, in order.  The code keeps the first:
    the pattern captures one line after each marker, and the removal of
    the section from the text takes both lines, so the second URL is in no
    field of the record.  With the single URL line of Scenario B the code
    does what the claim says. *)
Theorem C2_second_url_is_lost :
  let mt := hd (MkMatch 0 [] [] []) (re_finditer message_re two_attachments) in
  let r := hd (MkMessage [] [] [] [] [] [] None None) (records two_attachments) in
  let rb := hd (MkMessage [] [] [] [] [] [] None None) (records scenario_B) in
  (records two_attachments = [r] /\
   grp 3 (m_groups mt) =
     lines ["two files"; "{Attachments}"; "https://example.com/a.png";
            "https://example.com/b.png"] /\
   spec_attachments (grp 3 (m_groups mt)) =
     [\"https://example.com/a.png"; \"https://example.com/b.png"] /\
   attachments r = [\"https://example.com/a.png"] /\
   text r = \"two files" /\ embeds r = [] /\ reactions r = []) /\
  (records scenario_B = [rb] /\
   attachments rb = [\"https://example.com/a.png"] /\
   text rb = \"see attached").
Proof. vm_compute. repeat split. Qed.

(** C7.  The timestamp of the i-th record is made from the timestamp
    literal of the i-th chunk: the ISO-8601 form of the moment when strptime
    reads the literal, the literal itself, unchanged, when strptime rejects
    it; no case is left without a result.  A literal month/day/year
    hour:minute AM|PM that names an existing day (month, day, hour and minute
    written with or without leading zero, the year with four digits) is
    read, and its timestamp is YYYY-MM-DDTHH:MM:00 on the 24-hour clock.  The
    literal 99/99/9999 1:00 PM is rejected and emitted verbatim. *)
Theorem C7_timestamps :
  (forall doc,
     map timestamp (records doc) =
     map (fun mt => format_timestamp (grp 1 (m_groups mt)))
         (re_finditer message_re doc)) /\
  (forall lit,
     match strptime lit with
     | Some dt => format_timestamp lit = isoformat dt
     | None => format_timestamp lit = lit
     end) /\
  (forall mo d y h mi smo sd sh smi ap,
     1 <= mo <= 12 -> 1 <= d <= days_in_month y mo -> 1 <= y <= 9999 ->
     1 <= h <= 12 -> mi <= 59 ->
     written mo smo -> written d sd -> written h sh -> written mi smi ->
     one_of "AP" ap = true ->
     format_timestamp (stamp_literal smo sd (pad4 y) sh smi ap) =
     iso_8601 y mo d (hour24 h ap) mi) /\
  strptime \"99/99/9999 1:00 PM" = None /\
  map timestamp (records scenario_C) = [\"99/99/9999 1:00 PM"].
Proof.
  split; [|split; [|split; [|split]]].
  - intros doc. rewrite records_map, map_map. reflexivity.
  - intros lit. unfold format_timestamp. now destruct (strptime lit).
  - apply format_written.
  - reflexivity.
  - reflexivity.
Qed.

Lemma C7_timestamps_witness :
  format_timestamp \"1/2/2023 3:04 PM" = \"2023-01-02T15:04:00".
Proof.
  refine (proj1 (proj2 (proj2 C7_timestamps))
            1 2 2023 3 4 \"1" \"2" \"3" \"04" (chr "P")
            _ _ _ _ _
            (written_plain _) (written_plain _) (written_plain _)
            (written_padded _) eq_refl);
    try (vm_compute; lia); try (split; apply Nat.leb_le; reflexivity).
Defined.

(** * Further properties of the code *)

(** X1.  A banner written as a rule of two or more equals signs, the Guild,
    Channel and Topic lines and a second rule, with no equals sign before it
    in the document, is found: guild and topic are the rest of their lines,
    the channel is the rest of its line cut after its separator, and the
    whole rest of the line when it holds no separator. *)
Theorem X1_banner_is_read (pre e1 g c t rest : str) :
  ~ In (chr "=") pre -> Forall (fun a => a = chr "=") e1 ->
  nl_free g -> nl_free c -> nl_free t ->
  snd (parse_discord_data
         (pre ++ \"==" ++ e1 ++ nl :: \"Guild: " ++ g ++ nl ::
          \"Channel: " ++ c ++ nl :: \"Topic: " ++ t ++ nl :: \"==" ++ rest)) =
    MkMetadata (Some g) (Some (channel_name c)) (Some t) /\
  (~ substring \" / " c -> channel_name c = c).
Proof.
  intros Hpre He1 Hg Hc Ht. split; [|apply channel_name_plain].
  rewrite parse_metadata. apply extract_header_banner; try assumption.
  eapply Forall_impl; [|exact He1]. intros a ->. reflexivity.
Qed.

Lemma X1_banner_is_read_witness :
  snd (parse_discord_data scenario_A) =
  MkMetadata (Some \"TestGuild") (Some (channel_name \"General / chat"))
             (Some \"none").
Proof.
  refine (proj1 (@X1_banner_is_read [] \"========" \"TestGuild"
                   \"General / chat" \"none"
                   (\"========" ++ nl :: \"[1/2/2023 3:04 PM] Alice" ++
                    nl :: \"hello world") _ _ _ _ _)).
  - intros [].
  - repeat constructor.
  - apply nl_free_check. reflexivity.
  - apply nl_free_check. reflexivity.
  - apply nl_free_check. reflexivity.
Defined.

(** X2.  The three fields of the metadata are absent together or present
    together.  When they are present none of them holds a newline, and the
    document holds the three labelled lines, one after the other, followed
    by two equals signs. *)
Theorem X2_header_fields (doc : str) :
  snd (parse_discord_data doc) = MkMetadata None None None \/
  exists g c t,
    snd (parse_discord_data doc) =
      MkMetadata (Some g) (Some (channel_name c)) (Some t) /\
    nl_free g /\ nl_free c /\ nl_free t /\
    substring (nl :: \"Guild: " ++ g ++ nl :: \"Channel: " ++ c ++
               nl :: \"Topic: " ++ t ++ nl :: \"==") doc.
Proof. rewrite parse_metadata. apply extract_header_fields. Qed.

(** X3.  Every record carries the channel and the guild of the metadata
    that is returned beside the records. *)
Theorem X3_records_share_metadata (doc : str) :
  Forall (fun r =>
            msg_channel r = channel (snd (parse_discord_data doc)) /\
            msg_guild r = guild (snd (parse_discord_data doc)))
         (fst (parse_discord_data doc)).
Proof.
  rewrite parse_metadata. fold (records doc). rewrite records_map.
  apply Forall_forall. intros r Hr. apply in_map_iff in Hr.
  destruct Hr as (mt & <- & _). split; reflexivity.
Qed.

(** X4.  The records are made of the matches of the message pattern, one
    each, in the order of the matches; the matches follow one another in the
    document without overlap, and each lies inside the document. *)
Theorem X4_records_in_document_order (doc : str) :
  records doc =
    map (record_of (extract_header doc)) (re_finditer message_re doc) /\
  StronglySorted (fun a b => m_start a + length (m_text a) <= m_start b)
                 (re_finditer message_re doc) /\
  Forall (fun a => m_start a + length (m_text a) <= length doc)
         (re_finditer message_re doc).
Proof.
  split; [apply records_map|]. unfold re_finditer.
  destruct (finditer_ordered message_re (S (length doc)) doc 0) as [H1 H2].
  split; [exact H1|]. eapply Forall_impl; [|exact H2].
  intros a [_ Ha]. exact Ha.
Qed.

(** X5.  The text of a record has no white space at either end and no
    blank line: it is empty, or each of its lines holds a character that is
    not white space. *)
Theorem X5_text_is_tidy (doc : str) :
  Forall (fun r =>
            strip (text r) = text r /\
            (text r = [] \/
             Forall (fun l => nonblank l = true) (split_chr nl (text r))))
         (records doc).
Proof.
  rewrite records_map. apply Forall_forall. intros r Hr.
  apply in_map_iff in Hr. destruct Hr as (mt & <- & _).
  cbn [text record_of]. apply clean_tidy.
Qed.

(** X6.  Cleaning is idempotent: a body that was cleaned, and so the text
    of every record, is left unchanged by the cleaning. *)
Theorem X6_cleaning_is_idempotent :
  (forall body, clean (clean body) = clean body) /\
  (forall doc, Forall (fun r => clean (text r) = text r) (records doc)).
Proof.
  split; [exact clean_idem|]. intros doc. rewrite records_map.
  apply Forall_forall. intros r Hr.
  apply in_map_iff in Hr. destruct Hr as (mt & <- & _).
  cbn [text record_of]. apply clean_idem.
Qed.

(** X7.  The cleaning invents no text: a string without newline that occurs
    in the cleaned text of a body occurs in the body. *)
Theorem X7_text_comes_from_the_body (body p : str) :
  nl_free p -> substring p (clean body) -> substring p body.
Proof. apply clean_pieces. Qed.

Lemma X7_text_comes_from_the_body_witness :
  substring \"look at" (lines ["look at this"; "{Embed}"; "card"]).
Proof.
  apply (@X7_text_comes_from_the_body
           (lines ["look at this"; "{Embed}"; "card"]) \"look at").
  - apply nl_free_check. reflexivity.
  - apply contains_iff. reflexivity.
Defined.

(** X8.  A body that holds none of the three markers gives no attachment,
    no embed and no reaction, and its text is the body without its blank
    lines, stripped. *)
Theorem X8_body_without_marker (body : str) :
  ~ substring marker_attachments body -> ~ substring marker_embed body ->
  ~ substring marker_reactions body ->
  extract_attachments body = [] /\ extract_embeds body = [] /\
  extract_reactions body = [] /\
  clean body = strip (join [nl] (filter nonblank (split_chr nl body))).
Proof.
  intros Ha He Hr.
  split; [now apply attachments_none|]. split; [now apply embeds_none|].
  split; [now apply reactions_none | now apply clean_plain].
Qed.

Lemma X8_body_without_marker_witness :
  extract_attachments (lines ["hello"; ""; "world "]) = [] /\
  extract_embeds (lines ["hello"; ""; "world "]) = [] /\
  extract_reactions (lines ["hello"; ""; "world "]) = [] /\
  clean (lines ["hello"; ""; "world "]) =
  strip (join [nl] (filter nonblank
                      (split_chr nl (lines ["hello"; ""; "world "])))).
Proof.
  apply (@X8_body_without_marker (lines ["hello"; ""; "world "]));
    apply contains_false; reflexivity.
Defined.

(** X9.  Every attachment of a body starts with https://, has at least one
    more character, holds no newline, and is a piece of the body that runs
    to the end of its line. *)
Theorem X9_attachment_entries (body : str) :
  Forall (fun u => exists url a b,
            u = \"https://" ++ url /\ url <> [] /\ nl_free u /\
            body = a ++ u ++ b /\ nl_led b)
         (extract_attachments body).
Proof. apply attachment_entries. Qed.

(** X10.  Every embed and every reaction of a body is a piece of the body
    that is not empty, holds no newline and no opening bracket, and has no
    white space at either end. *)
Theorem X10_section_entries (body : str) :
  Forall (fun e => e <> [] /\ nl_free e /\ ~ In (chr "[") e /\ strip e = e /\
                   substring e body)
         (extract_embeds body ++ extract_reactions body).
Proof.
  apply Forall_app. split; [apply embed_entries | apply reaction_entries].
Qed.

(** X11.  Text without opening bracket put in front of a document, a banner
    for one, changes no record but for the channel and the guild that the
    banner gives. *)
Theorem X11_text_before_the_messages (pre doc : str) :
  ~ In (chr "[") pre ->
  map (fun r => (timestamp r, author r, text r,
                 attachments r, embeds r, reactions r))
      (records (pre ++ doc)) =
  map (fun r => (timestamp r, author r, text r,
                 attachments r, embeds r, reactions r))
      (records doc).
Proof.
  intros Hpre. rewrite (@records_prefix pre doc Hpre), records_map, !map_map.
  reflexivity.
Qed.

Lemma X11_text_before_the_messages_witness :
  map (fun r => (timestamp r, author r, text r,
                 attachments r, embeds r, reactions r))
      (records (banner_only ++ two_messages)) =
  map (fun r => (timestamp r, author r, text r,
                 attachments r, embeds r, reactions r))
      (records two_messages).
Proof.
  apply (@X11_text_before_the_messages banner_only two_messages).
  apply not_in_check. reflexivity.
Defined.

(** X12.  Whatever the timestamp literal, the timestamp that is emitted is
    the literal itself or the ISO-8601 form, with seconds 00, of a moment
    that exists: a year from 1 to 9999, a month, a day of that month, an
    hour below 24 and a minute below 60. *)
Theorem X12_timestamp_is_literal_or_moment (lit : str) :
  format_timestamp lit = lit \/
  exists y mo d h mi,
    1 <= y <= 9999 /\ 1 <= mo <= 12 /\ 1 <= d <= days_in_month y mo /\
    h <= 23 /\ mi <= 59 /\
    format_timestamp lit = iso_8601 y mo d h mi.
Proof.
  unfold format_timestamp. destruct (strptime lit) as [dt|] eqn:E; [right | now left].
  apply strptime_valid in E. destruct E as (Hy & Hmo & Hd & Hh & Hmi & Hs).
  exists (year dt), (month dt), (day dt), (hour dt), (minute dt).
  repeat (split; [assumption|]). now apply isoformat_iso.
Qed.

(** X13.  For text whose characters are code points 0 to 255, where the
    digits are those of ASCII: among the literals that the message pattern
    captures, strptime reads exactly those with a month from 1 to 12, a day
    of that month, an hour from 1 to 12 and a minute below 60, each written
    with one or two digits, and a year from 1 to 9999 written with four
    digits; the moment is that day, with the hour read on the twelve-hour
    clock.  Beyond code point 255 the statement does not reach: the digits
    of other scripts are digits for the message pattern and for the year of
    strptime, not for its other fields. *)
Theorem X13_literals_that_strptime_reads (lit : str) (dt : datetime) :
  stamp_shaped lit ->
  (strptime lit = Some dt <->
   exists mo d y h mi smo sd sh smi ap,
     1 <= mo <= 12 /\ 1 <= d <= days_in_month y mo /\ 1 <= y <= 9999 /\
     1 <= h <= 12 /\ mi <= 59 /\
     written mo smo /\ written d sd /\ written h sh /\ written mi smi /\
     one_of "AP" ap = true /\
     lit = stamp_literal smo sd (pad4 y) sh smi ap /\
     dt = MkDatetime y mo d (hour24 h ap) mi 0).
Proof.
  intros Hs. split.
  - now apply strptime_shaped.
  - intros (mo & d & y & h & mi & smo & sd & sh & smi & ap & Hmo & Hd & Hy &
            Hh & Hmi & Wmo & Wd & Wh & Wmi & Hap & -> & ->).
    now apply strptime_written.
Qed.

Lemma X13_literals_that_strptime_reads_witness :
  strptime \"1/2/2023 3:04 PM" = Some (MkDatetime 2023 1 2 15 4 0) <->
  exists mo d y h mi smo sd sh smi ap,
    1 <= mo <= 12 /\ 1 <= d <= days_in_month y mo /\ 1 <= y <= 9999 /\
    1 <= h <= 12 /\ mi <= 59 /\
    written mo smo /\ written d sd /\ written h sh /\ written mi smi /\
    one_of "AP" ap = true /\
    \"1/2/2023 3:04 PM" = stamp_literal smo sd (pad4 y) sh smi ap /\
    MkDatetime 2023 1 2 15 4 0 = MkDatetime y mo d (hour24 h ap) mi 0.
Proof.
  apply (@X13_literals_that_strptime_reads \"1/2/2023 3:04 PM"
           (MkDatetime 2023 1 2 15 4 0)).
  exists \"1", \"2", \"2023", \"3", \"04", (chr "P").
  repeat split; try discriminate; repeat constructor.
Defined.

(** X14.  The text written in the line-delimited form has one line for each
    record, in order, each the compact JSON of its record and ended by a
    newline: a newline inside a field never breaks a line. *)
Theorem X14_jsonl_one_line_per_record (messages : list message) :
  split_chr nl (save_to_jsonl_text messages) =
  map (fun message => dumps (message_dict message)) messages ++ [[]].
Proof. apply jsonl_lines. Qed.

(** X15.  Both forms of output are ASCII: the array form holds printable
    characters and the newlines of its layout, a line of the line-delimited
    form holds printable characters only. *)
Theorem X15_output_is_ascii (messages : list message) :
  forallb json_char (save_for_label_studio_text messages) = true /\
  forallb json_char (save_to_jsonl_text messages) = true /\
  Forall (fun message =>
            forallb (in_range 32 126) (dumps (message_dict message)) = true)
         messages.
Proof.
  split; [apply iterencode_chars|]. split.
  - unfold save_to_jsonl_text. apply forallb_flat_map. intros x _.
    rewrite forallb_app. unfold dumps. now rewrite iterencode_chars.
  - apply Forall_forall. intros x _. apply dumps_printable.
Qed.

(** X16.  Nothing of the records is lost in either form of output: two
    sequences of records that differ give different texts. *)
Theorem X16_output_determines_records (ms1 ms2 : list message) :
  ms1 <> ms2 ->
  save_for_label_studio_text ms1 <> save_for_label_studio_text ms2 /\
  save_to_jsonl_text ms1 <> save_to_jsonl_text ms2.
Proof.
  intros Hne. split; intros E; apply Hne.
  - now apply array_injective.
  - now apply jsonl_injective.
Qed.

Lemma X16_output_determines_records_witness :
  save_for_label_studio_text (records scenario_A) <>
    save_for_label_studio_text (records banner_only) /\
  save_to_jsonl_text (records scenario_A) <>
    save_to_jsonl_text (records banner_only).
Proof.
  apply (@X16_output_determines_records (records scenario_A)
           (records banner_only)).
  vm_compute. discriminate.
Defined.

(** X17.  When the input can be read, the output can be opened and the
    format is jsonl, main returns; the output file then holds one line of
    compact JSON for each record of the input, main has printed the number
    of records and the output path, and for a well-formed input the lines of
    the output are as many as the delimiter lines of the input. *)
Theorem X17_main_writes_one_line_per_record
        (args : args_t) (w : world) (doc : str) :
  files w (input_file args) = Some doc ->
  writable w (output args) = true ->
  format args = format_jsonl ->
  exists w' out,
    main args w = Returned w' /\
    files w' (output args) = Some out /\
    split_chr nl out =
      map (fun r => dumps (message_dict r)) (records doc) ++ [[]] /\
    stdout w' =
      stdout w ++
      [\"Extracted " ++ str_of_nat (length (records doc)) ++
       \" messages from Discord data";
       \"Saved processed data to " ++ output args] /\
    (well_formed doc = true ->
     length (split_chr nl out) = S (count_delimiter_lines doc)).
Proof.
  intros Hin Hout Hfmt. eexists. exists (save_to_jsonl_text (records doc)).
  split; [apply (main_returns _ _ Hin Hout)|].
  rewrite Hfmt. unfold files. cbn [file_of file_text stdout output_text].
  rewrite Nat.eqb_refl.
  split; [reflexivity|]. split; [apply jsonl_lines|]. split; [reflexivity|].
  intros Hwf. rewrite jsonl_lines, length_app, length_map, records_length.
  rewrite (finditer_count _ Hwf). cbn [length]. lia.
Qed.

Lemma X17_main_writes_one_line_per_record_witness :
  exists w' out,
    main example_args example_world = Returned w' /\
    files w' (output example_args) = Some out /\
    split_chr nl out =
      map (fun r => dumps (message_dict r)) (records scenario_A) ++ [[]] /\
    stdout w' =
      stdout example_world ++
      [\"Extracted " ++ str_of_nat (length (records scenario_A)) ++
       \" messages from Discord data";
       \"Saved processed data to " ++ output example_args] /\
    (well_formed scenario_A = true ->
     length (split_chr nl out) = S (count_delimiter_lines scenario_A)).
Proof.
  apply (@X17_main_writes_one_line_per_record example_args example_world
           scenario_A); reflexivity.
Defined.

(** X18.  Running main again on what a first run left, when the output
    path names another file than the input path does, returns, prints the
    same two lines once more and leaves every file as the first run left
    it.  The condition is on the files, not on the spelling of the paths:
    with an output path that is a second name of the input file the first
    run replaces its input. *)
Theorem X18_main_run_twice (args : args_t) (w w1 : world) :
  file_of w (input_file args) <> file_of w (output args) ->
  main args w = Returned w1 ->
  exists w2 line1 line2,
    main args w1 = Returned w2 /\
    (forall f, file_text w2 f = file_text w1 f) /\
    (forall p, files w2 p = files w1 p) /\
    stdout w1 = stdout w ++ [line1; line2] /\
    stdout w2 = stdout w1 ++ [line1; line2].
Proof.
  intros Hne H. destruct (main_returned_inv _ _ H) as (doc & Hin & Hout).
  rewrite (main_returns _ _ Hin Hout) in H. injection H as <-.
  assert (Hin1 : forall w', file_of w' = file_of w ->
            file_text w' = (fun f => if f =? file_of w (output args)
                                   then Some (output_text (format args) (records doc))
                                   else file_text w f) ->
            files w' (input_file args) = Some doc).
  { intros w' Hf Hc. unfold files. rewrite Hf, Hc.
    apply Nat.eqb_neq in Hne. now rewrite Hne. }
  eexists. do 2 eexists. split.
  - apply (@main_returns args _ doc); [|exact Hout].
    now apply Hin1.
  - cbn [file_of file_text stdout]. unfold files. cbn [file_of file_text].
    split; [|split; [|split; reflexivity]].
    + intros f. now destruct (f =? file_of w (output args)).
    + intros p. now destruct (file_of w p =? file_of w (output args)).
Qed.

Lemma X18_main_run_twice_witness :
  exists w2 line1 line2,
    main example_args (world_of (main example_args example_world)) =
      Returned w2 /\
    (forall f, file_text w2 f =
               file_text (world_of (main example_args example_world)) f) /\
    (forall p, files w2 p =
               files (world_of (main example_args example_world)) p) /\
    stdout (world_of (main example_args example_world)) =
      stdout example_world ++ [line1; line2] /\
    stdout w2 =
      stdout (world_of (main example_args example_world)) ++ [line1; line2].
Proof.
  apply (@X18_main_run_twice example_args example_world
           (world_of (main example_args example_world))).
  - discriminate.
  - reflexivity.
Defined.

(** X19.  Main changes no file but the one that the output path names.  It
    returns exactly when the input can be read and the output can be
    opened; otherwise the exception leaves it and no file at all is
    changed.  After a run that returns, the file that the output path
    names holds the output under every path that names it: when the input
    path is one of them, main has replaced its input. *)
Theorem X19_main_changes_only_the_output (args : args_t) (w : world) :
  (forall f, f <> file_of w (output args) ->
             file_text (world_of (main args w)) f = file_text w f) /\
  (forall p, file_of w p <> file_of w (output args) ->
             files (world_of (main args w)) p = files w p) /\
  ((exists w', main args w = Returned w') <->
   (exists doc, files w (input_file args) = Some doc) /\
   writable w (output args) = true) /\
  (forall w', main args w = Raised w' ->
              forall f, file_text w' f = file_text w f) /\
  (forall w' doc p,
     main args w = Returned w' -> files w (input_file args) = Some doc ->
     file_of w p = file_of w (output args) ->
     files w' p = Some (output_text (format args) (records doc))).
Proof.
  assert (Hc : forall f, f <> file_of w (output args) ->
                         file_text (world_of (main args w)) f = file_text w f).
  { intros f Hf.
    destruct (files w (input_file args)) as [doc|] eqn:Hin;
      [destruct (writable w (output args)) eqn:Hout|].
    - rewrite (main_returns _ _ Hin Hout). cbn [world_of file_text].
      apply Nat.eqb_neq in Hf. now rewrite Hf.
    - destruct (@main_raised args w (or_intror Hout)) as (w' & -> & _ & E & _).
      cbn [world_of]. now rewrite E.
    - destruct (@main_raised args w (or_introl Hin)) as (w' & -> & _ & E & _).
      cbn [world_of]. now rewrite E. }
  assert (Hf : file_of (world_of (main args w)) = file_of w).
  { destruct (files w (input_file args)) as [doc|] eqn:Hin;
      [destruct (writable w (output args)) eqn:Hout|].
    - now rewrite (main_returns _ _ Hin Hout).
    - now destruct (@main_raised args w (or_intror Hout)) as (w' & -> & E & _).
    - now destruct (@main_raised args w (or_introl Hin)) as (w' & -> & E & _). }
  split; [exact Hc|]. split; [|split; [|split]].
  - intros p Hp. unfold files. rewrite Hf. now apply Hc.
  - split.
    + intros (w' & H). destruct (main_returned_inv _ _ H) as (doc & Hin & Hout).
      split; [now exists doc | exact Hout].
    + intros [(doc & Hin) Hout]. eexists. apply (main_returns _ _ Hin Hout).
  - intros w' H f.
    destruct (files w (input_file args)) as [doc|] eqn:Hin;
      [destruct (writable w (output args)) eqn:Hout|].
    + rewrite (main_returns _ _ Hin Hout) in H. discriminate.
    + destruct (@main_raised args w (or_intror Hout)) as (w2 & E & _ & Hw & _).
      rewrite E in H. injection H as <-. now rewrite Hw.
    + destruct (@main_raised args w (or_introl Hin)) as (w2 & E & _ & Hw & _).
      rewrite E in H. injection H as <-. now rewrite Hw.
  - intros w' doc p H Hin Hp.
    destruct (main_returned_inv _ _ H) as (doc' & Hin' & Hout).
    rewrite (main_returns _ _ Hin Hout) in H. injection H as <-.
    unfold files. cbn [file_of file_text]. now rewrite Hp, Nat.eqb_refl.
Qed.

(** X19 where the output path is a second name of the input file: the run
    returns, and what is read at the input path afterwards is the output. *)
Lemma X19_main_changes_only_the_output_witness :
  files (world_of (main alias_args example_world)) (input_file alias_args) =
  Some (output_text format_jsonl (records scenario_A)).
Proof.
  apply (proj2 (proj2 (proj2 (proj2
           (X19_main_changes_only_the_output alias_args example_world))))
         (world_of (main alias_args example_world)) scenario_A
         (input_file alias_args));
    reflexivity.
Defined.

(** X20.  On a well-formed document the chunks begin with the delimiter
    lines of the document, one chunk for each line and in the same order:
    the bracketed timestamp literal and the author of the i-th record are
    those of the i-th delimiter line. *)
Theorem X20_chunks_are_the_delimiter_lines (doc : str) :
  well_formed doc = true ->
  map (fun mt => chr "[" :: grp 1 (m_groups mt) ++
                 chr "]" :: chr " " :: grp 2 (m_groups mt))
      (re_finditer message_re doc) =
    filter is_delimiter_line (doc_lines doc) /\
  map author (records doc) =
    map (fun mt => grp 2 (m_groups mt)) (re_finditer message_re doc).
Proof.
  intros H. split.
  - exact (proj1 (chunks_of_well_formed doc H)).
  - rewrite records_map, map_map. reflexivity.
Qed.

Lemma X20_chunks_are_the_delimiter_lines_witness :
  map (fun mt => chr "[" :: grp 1 (m_groups mt) ++
                 chr "]" :: chr " " :: grp 2 (m_groups mt))
      (re_finditer message_re two_messages) =
    filter is_delimiter_line (doc_lines two_messages) /\
  map author (records two_messages) =
    map (fun mt => grp 2 (m_groups mt)) (re_finditer message_re two_messages).
Proof.
  apply (@X20_chunks_are_the_delimiter_lines two_messages). reflexivity.
Defined.

(** X21.  On a well-formed document every chunk begins at the start of a
    line. *)
Theorem X21_chunks_begin_at_line_starts (doc : str) :
  well_formed doc = true ->
  Forall (fun mt => at_line_start doc (m_start mt) = true)
         (re_finditer message_re doc).
Proof. intros H. exact (proj1 (proj2 (chunks_of_well_formed doc H))). Qed.

Lemma X21_chunks_begin_at_line_starts_witness :
  Forall (fun mt => at_line_start two_messages (m_start mt) = true)
         (re_finditer message_re two_messages).
Proof.
  apply (@X21_chunks_begin_at_line_starts two_messages). reflexivity.
Defined.

(** X22.  When the first marker of a body is followed to the end of the
    body by text that holds no empty line and no line beginning with an
    opening bracket, the sections take all of it: the text of the record
    is what comes before that marker, without its blank lines, stripped. *)
Theorem X22_text_stops_at_the_first_marker (pre M rest : str) :
  In M [marker_attachments; marker_embed; marker_reactions] ->
  ~ substring marker_attachments pre -> ~ substring marker_embed pre ->
  ~ substring marker_reactions pre -> unbroken rest ->
  clean (pre ++ M ++ rest) =
  strip (join [nl] (filter nonblank (split_chr nl pre))).
Proof. apply clean_usual. Qed.

Lemma X22_text_stops_at_the_first_marker_witness :
  clean (lines ["look at this"; ""] ++ marker_embed ++
         lines [""; "https://e.example/card"; "{Reactions}"; "thumbsup 2"]) =
  strip (join [nl] (filter nonblank
                      (split_chr nl (lines ["look at this"; ""])))).
Proof.
  apply (@X22_text_stops_at_the_first_marker
           (lines ["look at this"; ""]) marker_embed
           (lines [""; "https://e.example/card"; "{Reactions}"; "thumbsup 2"])).
  - right. left. reflexivity.
  - apply contains_false. reflexivity.
  - apply contains_false. reflexivity.
  - apply contains_false. reflexivity.
  - split; apply contains_false; reflexivity.
Defined.

(** X23.  On a well-formed document the chunks, put end to end, are the
    document from its first delimiter line on: nothing is skipped between
    two records, and only what precedes the first delimiter line belongs
    to no record. *)
Theorem X23_chunks_cover_the_document (doc : str) :
  well_formed doc = true ->
  concat (map m_text (re_finditer message_re doc)) =
    join [nl] (drop_body (doc_lines doc)) /\
  exists pre, doc = pre ++ concat (map m_text (re_finditer message_re doc)).
Proof.
  intros H. destruct (chunks_of_well_formed doc H) as (_ & _ & E).
  split; [exact E|]. rewrite E.
  destruct (drop_body_split (doc_lines doc)) as (q & Hq & _).
  exists q. unfold doc_lines in Hq at 1. now rewrite join_split in Hq.
Qed.

Lemma X23_chunks_cover_the_document_witness :
  concat (map m_text (re_finditer message_re two_messages)) =
    join [nl] (drop_body (doc_lines two_messages)) /\
  exists pre,
    two_messages = pre ++ concat (map m_text (re_finditer message_re two_messages)).
Proof.
  apply (@X23_chunks_cover_the_document two_messages). reflexivity.
Defined.
